(** * omgfm: processors, registry and table-of-contents nesting

    A shallow embedding of [omgfm/processors.py], [omgfm/renderers.py] and
    the parts of [omgfm/ast_tools.py] they call, with the properties of the
    design document stated against it.

    Python values are modelled as follows.
    - [str] is a list of Unicode code points ([pystr]); [bytes] is a list of
      [Byte.byte]; the two are related by the UTF-8 codec below.
    - Where the code relies on the dynamic type of a value (an [int] index
      given to [list.pop], [None] given to a loader, a [str] given to
      [bytes.decode]) the value is a [pyval] and the operation returns in
      the exception monad [result].
    - A [dict] with string keys is a [gmap]; a Python [list] is a [list]. *)

From Stdlib Require Import ZArith NArith Ascii String List Bool Lia.
From Stdlib Require Import DecimalString.
From stdpp Require Import base option list sorting gmap numbers.
Import stdpp.list_basics.list stdpp.list_relations.list stdpp.list_monad.list.
Import stdpp.list_misc.list stdpp.list_numbers.list.

Open Scope Z_scope.

(** ** Exceptions and the exception monad

    [UseAfterFree] is not an exception of Python: it marks a call into the
    C library with a node that was destroyed, whose behaviour is
    undefined. *)

Inductive exn : Type :=
| TypeError
| ValueError
| AttributeError
| IndexError
| OverflowError
| UnicodeDecodeError
| UnicodeEncodeError
| RecursionError
| UseAfterFree.

Inductive result (A : Type) : Type :=
| Ok (a : A)
| Raise (e : exn).
Arguments Ok {A} a.
Arguments Raise {A} e.

Definition bind {A B : Type} (r : result A) (f : A -> result B) : result B :=
  match r with
  | Ok a => f a
  | Raise e => Raise e
  end.

Notation "'do' x <- r ; k" := (bind r (fun x => k))
  (at level 10, x name, r at level 100, k at level 200).
Notation "'do' ' p <- r ; k" := (bind r (fun x => let 'p := x in k))
  (at level 10, p strict pattern, r at level 100, k at level 200).

(** ** Strings *)

Definition codepoint : Type := N.
Definition pystr : Type := list codepoint.
Definition pybytes : Type := list Byte.byte.

(** A literal of the source, written with ASCII characters only. *)
Definition str (s : string) : pystr :=
  map N_of_ascii (list_ascii_of_string s).

Definition LF : codepoint := 10%N.
Definition CR : codepoint := 13%N.
Definition QUOTE : codepoint := 34%N.

(** Dynamically typed values, as far as the code distinguishes them. *)
Inductive pyval : Type :=
| PyNone
| PyInt (z : Z)
| PyStr (s : pystr)
| PyBytes (b : pybytes).

#[global] Instance byte_eq_dec : EqDecision Byte.byte.
Proof. intros a b. destruct (Byte.eqb a b) eqn:E.
  - left. by apply Byte.byte_dec_bl.
  - right. intros ->. by rewrite Byte.byte_dec_lb in E.
Defined.

#[global] Instance pyval_eq_dec : EqDecision pyval.
Proof. solve_decision. Defined.

(** *** UTF-8 ([ENCODING = 'utf-8'])

    [bytes.decode('utf-8')] is strict: continuation bytes must be well
    formed, over-long forms and surrogates are rejected. *)

Definition byte_val (b : Byte.byte) : N := Byte.to_N b.

Definition is_cont (n : N) : bool := (128 <=? n)%N && (n <=? 191)%N.

Definition cont_bits (n : N) : N := (n - 128)%N.

Definition is_surrogate (c : N) : bool := (55296 <=? c)%N && (c <=? 57343)%N.

(** [need] continuation bytes are still expected for the code point whose
    high bits are [acc]; [lo] is the least code point the current form may
    encode. *)
Fixpoint utf8_decode_aux (bs : list N) (need : nat) (acc lo : N)
  : option pystr :=
  match bs with
  | [] => match need with O => Some [] | S _ => None end
  | b :: r =>
    match need with
    | O =>
      if (b <? 128)%N then cons b <$> utf8_decode_aux r 0 0%N 0%N
      else if (194 <=? b)%N && (b <=? 223)%N
      then utf8_decode_aux r 1 (b - 192)%N 128%N
      else if (224 <=? b)%N && (b <=? 239)%N
      then utf8_decode_aux r 2 (b - 224)%N 2048%N
      else if (240 <=? b)%N && (b <=? 244)%N
      then utf8_decode_aux r 3 (b - 240)%N 65536%N
      else None
    | S k =>
      if is_cont b then
        let acc' := (acc * 64 + cont_bits b)%N in
        match k with
        | O =>
          if (lo <=? acc')%N && negb (is_surrogate acc') && (acc' <=? 1114111)%N
          then cons acc' <$> utf8_decode_aux r 0 0%N 0%N
          else None
        | S _ => utf8_decode_aux r k acc' lo
        end
      else None
    end
  end.

Definition utf8_decode (b : pybytes) : option pystr :=
  utf8_decode_aux (map byte_val b) 0 0%N 0%N.

Definition byte_of_N (n : N) : Byte.byte :=
  match Byte.of_N n with
  | Some b => b
  | None => Byte.x00
  end.

Definition utf8_encode_cp (c : codepoint) : option (list N) :=
  if (c <? 128)%N then Some [c]
  else if (c <? 2048)%N then Some [192 + c / 64; 128 + c mod 64]%N
  else if is_surrogate c then None
  else if (c <? 65536)%N then
    Some [224 + c / 4096; 128 + (c / 64) mod 64; 128 + c mod 64]%N
  else if (c <=? 1114111)%N then
    Some [240 + c / 262144; 128 + (c / 4096) mod 64;
          128 + (c / 64) mod 64; 128 + c mod 64]%N
  else None.

Fixpoint utf8_encode (s : pystr) : option pybytes :=
  match s with
  | [] => Some []
  | c :: s' =>
    match utf8_encode_cp c, utf8_encode s' with
    | Some bs, Some r => Some (map byte_of_N bs ++ r)
    | _, _ => None
    end
  end.

(** The bytes of an ASCII literal. *)
Definition bytes_of (s : string) : pybytes :=
  map (fun a => byte_of_N (N_of_ascii a)) (list_ascii_of_string s).

(** ** [ast_tools]: helpers *)

(** [to_c_string(text)]: [text.encode(ENCODING)]. *)
Definition to_c_string (text : pyval) : result pyval :=
  match text with
  | PyStr s =>
    match utf8_encode s with
    | Some b => Ok (PyBytes b)
    | None => Raise UnicodeEncodeError
    end
  | _ => Raise AttributeError
  end.

(** [from_c_string(text)]: [text.decode(ENCODING)].  Only [bytes] has a
    [decode] method; on a [str] (or [None]) the attribute lookup fails. *)
Definition from_c_string (text : pyval) : result pyval :=
  match text with
  | PyBytes b =>
    match utf8_decode b with
    | Some s => Ok (PyStr s)
    | None => Raise UnicodeDecodeError
    end
  | _ => Raise AttributeError
  end.

(** ** The parts of [str] and [re] the processors use *)

(** [str.isspace] and the class [\s] of a [str] pattern: the same table in
    the Python runtime. *)
Definition is_space (c : codepoint) : bool :=
  ((9 <=? c) && (c <=? 13) || (28 <=? c) && (c <=? 32)
   || (c =? 133) || (c =? 160) || (c =? 5760)
   || (8192 <=? c) && (c <=? 8202)
   || (c =? 8232) || (c =? 8233) || (c =? 8239) || (c =? 8287)
   || (c =? 12288))%N.

Fixpoint lstrip (s : pystr) : pystr :=
  match s with
  | c :: s' => if is_space c then lstrip s' else s
  | [] => []
  end.

(** [s.strip()] *)
Definition strip (s : pystr) : pystr := rev (lstrip (rev (lstrip s))).

Fixpoint is_prefix (p s : pystr) : bool :=
  match p, s with
  | [], _ => true
  | a :: p', b :: s' => (a =? b)%N && is_prefix p' s'
  | _ :: _, [] => false
  end.

(** [s.split(sep)] for a non-empty [sep]: [skip] characters of a separator
    just found are still to be passed over, [cur] is the current field in
    reverse. *)
Fixpoint split_aux (sep : pystr) (skip : nat) (cur : pystr) (s : pystr)
  : list pystr :=
  match s with
  | [] => [rev cur]
  | c :: s' =>
    match skip with
    | S k => split_aux sep k cur s'
    | O =>
      if is_prefix sep s
      then rev cur :: split_aux sep (length sep - 1) [] s'
      else split_aux sep 0 (c :: cur) s'
    end
  end.

Definition split (sep s : pystr) : list pystr := split_aux sep 0 [] s.

(** [text.replace(a, b)] for one-character [a] and [b]. *)
Definition replace_char (a b : codepoint) (s : pystr) : pystr :=
  map (fun c => if (c =? a)%N then b else c) s.

(** [s[i:j]] for [0 <= i <= j]. *)
Definition slice (s : pystr) (i j : nat) : pystr := take (j - i) (drop i s).

(** *** Regular expressions

    The constructs of the one pattern of the source, with the backtracking
    order of [re]: a greedy repetition tries one more iteration before the
    rest of the pattern, a lazy one the rest first; [^] is compiled with
    [re.MULTILINE]. *)
Inductive regex : Type :=
| RSet (p : codepoint -> bool)
| RBol
| RCat (r1 r2 : regex)
| RRep (greedy : bool) (min : nat) (r : regex)
| RGroup (n : nat) (r : regex).

Record mstate : Type := MState {
  pos : nat;
  prev : option codepoint;
  rest : pystr;
  caps : gmap nat (nat * nat)
}.

Inductive outcome : Type :=
| Matched (st : mstate)
| NoMatch
| OutOfFuel.

Definition at_bol (st : mstate) : bool :=
  match prev st with
  | None => true
  | Some c => (c =? LF)%N
  end.

Definition set_cap (n : nat) (span : nat * nat) (st : mstate) : mstate :=
  MState (pos st) (prev st) (rest st) (<[n := span]> (caps st)).

(** A repetition [r{min,}] follows the loop of the [re] engine: [count]
    iterations are done and the last one began at [last]; once the minimum
    is reached, an iteration is only begun at a position other than [last],
    so a zero-width iteration is the last one.  Every iteration but such a
    last one consumes input, which bounds their number by the [fuel]. *)
Definition may_iterate (last : option nat) (st : mstate) : bool :=
  match last with
  | None => true
  | Some p => negb (pos st =? p)%nat
  end.

Definition rep_loop (body : mstate -> (mstate -> outcome) -> outcome)
  (greedy : bool) (min : nat)
  : nat -> nat -> option nat -> mstate -> (mstate -> outcome) -> outcome :=
  fix loop (fuel count : nat) (last : option nat) (st : mstate)
    (k : mstate -> outcome) {struct fuel} : outcome :=
    match fuel with
    | O => OutOfFuel
    | S fuel' =>
      if (count <? min)%nat
      then body st (fun st1 => loop fuel' (S count) last st1 k)
      else if greedy then
        if may_iterate last st then
          match body st (fun st1 => loop fuel' (S count) (Some (pos st)) st1 k)
          with
          | NoMatch => k st
          | o => o
          end
        else k st
      else
        match k st with
        | NoMatch =>
          if may_iterate last st
          then body st (fun st1 => loop fuel' (S count) (Some (pos st)) st1 k)
          else NoMatch
        | o => o
        end
    end.

Fixpoint re_match (r : regex) (st : mstate) (k : mstate -> outcome)
  {struct r} : outcome :=
  match r with
  | RSet p =>
    match rest st with
    | c :: tl =>
      if p c then k (MState (S (pos st)) (Some c) tl (caps st)) else NoMatch
    | [] => NoMatch
    end
  | RBol => if at_bol st then k st else NoMatch
  | RCat r1 r2 => re_match r1 st (fun st1 => re_match r2 st1 k)
  | RGroup n r1 =>
    re_match r1 st (fun st1 => k (set_cap n (pos st, pos st1) st1))
  | RRep greedy min r1 =>
    rep_loop (re_match r1) greedy min
      (min + 2 * S (length (rest st)))%nat O None st k
  end.

(** [matcher.search(text)]: the first start position, from the left, at
    which the pattern matches. *)
Fixpoint search_from (r : regex) (i : nat) (prev : option codepoint)
  (s : pystr) : outcome :=
  match re_match r (MState i prev s ∅) Matched with
  | NoMatch =>
    match s with
    | c :: s' => search_from r (S i) (Some c) s'
    | [] => NoMatch
    end
  | o => o
  end.

Definition re_search (r : regex) (text : pystr) : outcome :=
  search_from r 0 None text.

(** [match_obj.group(n)] *)
Definition group (text : pystr) (st : mstate) (n : nat) : pyval :=
  match caps st !! n with
  | Some (i, j) => PyStr (slice text i j)
  | None => PyNone
  end.

Definition is_char (a : codepoint) (c : codepoint) : bool := (c =? a)%N.
Definition dot (c : codepoint) : bool := negb (c =? LF)%N.
Definition cr_or_lf (c : codepoint) : bool := (c =? CR)%N || (c =? LF)%N.
Definition DASH : codepoint := 45%N.

Definition star (r : regex) : regex := RRep true 0 r.

(** The pattern of [ExtractMetadata.process_input], group by group
    (written with spaces between the tokens):

      group 1:  -{3,}  [\r\n]  group 2  ^  -{3,}  [\r\n]
      group 2:  ( group 3 )+?
      group 3:  . *  \s *  [\r\n]
      group 4:  ( group 5 )+
      group 5:  . *  [\r\n] *

    and the whole pattern is group 1 followed by group 4. *)
Definition patern : regex :=
  RCat
    (RGroup 1
       (RCat (RRep true 3 (RSet (is_char DASH)))
       (RCat (RSet cr_or_lf)
       (RCat (RGroup 2
                (RRep false 1
                   (RGroup 3
                      (RCat (star (RSet dot))
                      (RCat (star (RSet is_space))
                            (RSet cr_or_lf))))))
       (RCat RBol
       (RCat (RRep true 3 (RSet (is_char DASH)))
             (RSet cr_or_lf)))))))
    (RGroup 4
       (RRep true 1
          (RGroup 5
             (RCat (star (RSet dot)) (star (RSet cr_or_lf)))))).

(** ** [processors.Processor] *)

(** [self.processed or doc]: a processor that sets no replacement, or a
    falsy one, passes its input through. *)
Definition truthy (v : pyval) : bool :=
  match v with
  | PyNone => false
  | PyInt z => negb (z =? 0)
  | PyStr s => negb (bool_decide (s = []))
  | PyBytes b => negb (bool_decide (b = []))
  end.

Definition or_doc (processed doc : pyval) : pyval :=
  if truthy processed then processed else doc.

(** [Processor.__call__] for a processor over text whose [process_input]
    leaves [(self.data, self.processed)]. *)
Definition Processor_call {D : Type}
  (process_input : pystr -> result (D * pyval)) (doc : pystr)
  : result (pyval * D) :=
  do '(data, processed) <- process_input doc;
  Ok (or_doc processed (PyStr doc), data).

(** ** [processors.ExtractMetadata] *)

(** The body of the loop of [key_value_to_dict]. *)
Definition key_value_line (delimiter : pystr) (data : gmap pystr pystr)
  (line : pystr) : result (gmap pystr pystr) :=
  let line := strip line in
  if bool_decide (line = []) then Ok data
  else
    match split delimiter line with
    | key :: value :: _ => Ok (<[key := value]> data)
    | _ => Raise IndexError
    end.

Fixpoint for_lines (delimiter : pystr) (data : gmap pystr pystr)
  (lines : list pystr) : result (gmap pystr pystr) :=
  match lines with
  | [] => Ok data
  | line :: lines' =>
    do data' <- key_value_line delimiter data line;
    for_lines delimiter data' lines'
  end.

(** [key_value_to_dict(self, string, delimiter=None)] *)
Definition key_value_to_dict (string : pyval) (delimiter : option pystr)
  : result (gmap pystr pystr) :=
  let delimiter :=
    match delimiter with
    | Some (c :: d) => c :: d
    | _ => str ":"
    end in
  match string with
  | PyStr s => for_lines delimiter ∅ (split [LF] s)
  | PyBytes _ => Raise TypeError
  | _ => Raise AttributeError
  end.

(** [process_input(self, text, loader=None, **kwargs)] with the loader
    already chosen; the result is [(self.data, self.processed)].  The
    search always answers ([re_search_total] below), so the second branch
    is that of [None]. *)
Definition ExtractMetadata_process_input {D : Type}
  (loader : pyval -> result D) (text : pystr) : result (D * pyval) :=
  let '(metadata, text') :=
    match re_search patern text with
    | Matched match_obj => (group text match_obj 2, group text match_obj 4)
    | _ => (PyNone, PyStr text)
    end in
  do data <- loader metadata;
  Ok (data, text').

(** [loader = loader or self.key_value_to_dict], no [loader_args]. *)
Definition default_loader (metadata : pyval) : result (gmap pystr pystr) :=
  key_value_to_dict metadata None.

(** [ExtractMetadata()(text)] *)
Definition ExtractMetadata_call (text : pystr)
  : result (pyval * gmap pystr pystr) :=
  Processor_call (ExtractMetadata_process_input default_loader) text.

(** ** The document tree

    The nodes are those of the C library behind [_wrapper_cmark_gfm]; the
    library itself is not part of the sources, so its primitives follow the
    design document and the docstrings of [ast_tools]. *)

Definition CMARK_NODE_TYPE_PRESENT : Z := 0x8000.
Definition CMARK_NODE_TYPE_BLOCK : Z := Z.lor CMARK_NODE_TYPE_PRESENT 0x0000.
Definition CMARK_NODE_TYPE_INLINE : Z := Z.lor CMARK_NODE_TYPE_PRESENT 0x4000.

Definition NODE_DOCUMENT : Z := Z.lor CMARK_NODE_TYPE_BLOCK 0x0001.
Definition NODE_BLOCK_QUOTE : Z := Z.lor CMARK_NODE_TYPE_BLOCK 0x0002.
Definition NODE_LIST : Z := Z.lor CMARK_NODE_TYPE_BLOCK 0x0003.
Definition NODE_ITEM : Z := Z.lor CMARK_NODE_TYPE_BLOCK 0x0004.
Definition NODE_CODE_BLOCK : Z := Z.lor CMARK_NODE_TYPE_BLOCK 0x0005.
Definition NODE_HTML_BLOCK : Z := Z.lor CMARK_NODE_TYPE_BLOCK 0x0006.
Definition NODE_CUSTOM_BLOCK : Z := Z.lor CMARK_NODE_TYPE_BLOCK 0x0007.
Definition NODE_PARAGRAPH : Z := Z.lor CMARK_NODE_TYPE_BLOCK 0x0008.
Definition NODE_HEADING : Z := Z.lor CMARK_NODE_TYPE_BLOCK 0x0009.
Definition NODE_THEMATIC_BREAK : Z := Z.lor CMARK_NODE_TYPE_BLOCK 0x000a.
Definition NODE_FOOTNOTE_DEFINITION : Z := Z.lor CMARK_NODE_TYPE_BLOCK 0x000b.
Definition NODE_TEXT : Z := Z.lor CMARK_NODE_TYPE_INLINE 0x0001.
Definition NODE_SOFTBREAK : Z := Z.lor CMARK_NODE_TYPE_INLINE 0x0002.
Definition NODE_LINEBREAK : Z := Z.lor CMARK_NODE_TYPE_INLINE 0x0003.
Definition NODE_CODE : Z := Z.lor CMARK_NODE_TYPE_INLINE 0x0004.
Definition NODE_HTML_INLINE : Z := Z.lor CMARK_NODE_TYPE_INLINE 0x0005.
Definition NODE_CUSTOM_INLINE : Z := Z.lor CMARK_NODE_TYPE_INLINE 0x0006.
Definition NODE_EMPH : Z := Z.lor CMARK_NODE_TYPE_INLINE 0x0007.
Definition NODE_STRONG : Z := Z.lor CMARK_NODE_TYPE_INLINE 0x0008.
Definition NODE_LINK : Z := Z.lor CMARK_NODE_TYPE_INLINE 0x0009.
Definition NODE_IMAGE : Z := Z.lor CMARK_NODE_TYPE_INLINE 0x000a.
Definition NODE_FOOTNOTE_REFERENCE : Z := Z.lor CMARK_NODE_TYPE_INLINE 0x000b.

(** The node types of the extensions are read from the shared library
    ([c_int.in_dll]); it numbers them after the last block and the last
    inline type when the extensions are registered. *)
Definition NODE_TABLE : Z := Z.lor CMARK_NODE_TYPE_BLOCK 0x000c.
Definition NODE_TABLE_ROW : Z := Z.lor CMARK_NODE_TYPE_BLOCK 0x000d.
Definition NODE_TABLE_CELL : Z := Z.lor CMARK_NODE_TYPE_BLOCK 0x000e.
Definition NODE_STRIKETHROUGH : Z := Z.lor CMARK_NODE_TYPE_INLINE 0x000c.

Definition CMARK_BULLET_LIST : Z := 1.
Definition CMARK_ORDERED_LIST : Z := 2.

(** Modelled from the spec: the node of the C library, a type tag from the
    closed set of block and inline kinds together with the attributes that
    kind carries (data model of the design document). *)
Inductive node_kind : Type :=
| KDocument | KBlockQuote
| KList (list_type tight delim : Z)
| KItem
| KCodeBlock (literal : pybytes)
| KHtmlBlock (literal : pybytes)
| KCustomBlock | KParagraph
| KHeading (level : Z)
| KThematicBreak | KFootnoteDefinition
| KText (literal : pybytes)
| KSoftbreak | KLinebreak
| KCode (literal : pybytes)
| KHtmlInline (literal : pybytes)
| KCustomInline | KEmph | KStrong
| KLink (url title : pybytes)
| KImage (url title : pybytes)
| KFootnoteReference
| KTable | KTableRow | KTableCell | KStrikethrough.

#[local] Unset Elimination Schemes.
Inductive cmark_node : Type :=
| Node (kind : node_kind) (start_line : Z) (children : list cmark_node).
#[local] Set Elimination Schemes.

Definition node_kind_of (n : cmark_node) : node_kind :=
  let 'Node k _ _ := n in k.
Definition node_children (n : cmark_node) : list cmark_node :=
  let 'Node _ _ cs := n in cs.

(** Modelled from the spec: [cmark_node_get_type]. *)
Definition node_get_type (n : cmark_node) : Z :=
  match node_kind_of n with
  | KDocument => NODE_DOCUMENT
  | KBlockQuote => NODE_BLOCK_QUOTE
  | KList _ _ _ => NODE_LIST
  | KItem => NODE_ITEM
  | KCodeBlock _ => NODE_CODE_BLOCK
  | KHtmlBlock _ => NODE_HTML_BLOCK
  | KCustomBlock => NODE_CUSTOM_BLOCK
  | KParagraph => NODE_PARAGRAPH
  | KHeading _ => NODE_HEADING
  | KThematicBreak => NODE_THEMATIC_BREAK
  | KFootnoteDefinition => NODE_FOOTNOTE_DEFINITION
  | KText _ => NODE_TEXT
  | KSoftbreak => NODE_SOFTBREAK
  | KLinebreak => NODE_LINEBREAK
  | KCode _ => NODE_CODE
  | KHtmlInline _ => NODE_HTML_INLINE
  | KCustomInline => NODE_CUSTOM_INLINE
  | KEmph => NODE_EMPH
  | KStrong => NODE_STRONG
  | KLink _ _ => NODE_LINK
  | KImage _ _ => NODE_IMAGE
  | KFootnoteReference => NODE_FOOTNOTE_REFERENCE
  | KTable => NODE_TABLE
  | KTableRow => NODE_TABLE_ROW
  | KTableCell => NODE_TABLE_CELL
  | KStrikethrough => NODE_STRIKETHROUGH
  end.

(** Modelled from the spec: [cmark_node_get_heading_level], 0 if the node
    is not a heading ([ast_tools.get_heading_level]). *)
Definition get_heading_level (n : cmark_node) : Z :=
  match node_kind_of n with
  | KHeading level => level
  | _ => 0
  end.

(** Modelled from the spec: [cmark_node_set_heading_level], status 1 on
    success and 0 on failure ([ast_tools.set_heading_level]); a level
    outside 1..6 is refused, as is a node that is not a heading. *)
Definition set_heading_level (n : cmark_node) (level : Z) : Z * cmark_node :=
  match n with
  | Node (KHeading _) line cs =>
    if (1 <=? level) && (level <=? 6)
    then (1, Node (KHeading level) line cs)
    else (0, n)
  | _ => (0, n)
  end.

(** [ast_tools.get_start_line] *)
Definition get_start_line (n : cmark_node) : Z :=
  let 'Node _ line _ := n in line.

(** Modelled from the spec: [cmark_node_get_literal], the string content
    of a text, code or html node and [None] for the other kinds. *)
Definition node_get_literal (n : cmark_node) : pyval :=
  match node_kind_of n with
  | KCodeBlock b | KHtmlBlock b | KText b | KCode b | KHtmlInline b =>
    PyBytes b
  | _ => PyNone
  end.

(** [ast_tools.get_literal] *)
Definition get_literal (n : cmark_node) : result pyval :=
  let content := node_get_literal n in
  match content with
  | PyNone => Ok content
  | _ => from_c_string content
  end.

(** *** The tree walker *)

Definition event : Type := cmark_node * bool * Z.

(** Modelled from the spec: the events of [ast_tools.walk(root_node)], the
    triples [(node, entering, node_type)] of a pre-order traversal in which
    every node is entered, then its children are walked from left to right,
    then the node is exited. *)
Fixpoint walk (root_node : cmark_node) : list event :=
  (root_node, true, node_get_type root_node)
    :: flat_map walk (node_children root_node)
    ++ [(root_node, false, node_get_type root_node)].

(** A loop [for node, entering, node_type in walk(root)] over a state. *)
Fixpoint for_each {S E : Type} (body : S -> E -> result S) (l : list E)
  (s : S) : result S :=
  match l with
  | [] => Ok s
  | e :: l' => do s' <- body s e; for_each body l' s'
  end.

(** What the body of a loop over [walk] does to the node of the current
    event: it keeps the node, possibly with attributes set in place, or it
    calls [replace_node(node, new_node)]. *)
Inductive edit : Type :=
| Keep (n : cmark_node)
| Replace (new_node : cmark_node).

(** Modelled from the spec: [ast_tools.replace_node], which puts [new] at
    the position of the old node and destroys the old node. *)
Definition apply_edit (e : edit) : cmark_node :=
  match e with
  | Keep n => n
  | Replace new_node => new_node
  end.

(** A loop over [walk(root)] whose body changes the tree it walks.  The
    body follows the walker's rule: at an Enter event it sets attributes of
    the node only, so that the children walked next are those the node had;
    a node is replaced at its Exit event, after which the walker continues
    behind it. *)
Fixpoint walk_inplace {S : Type}
  (body : S -> event -> result (S * edit)) (n : cmark_node) (s : S)
  {struct n} : result (S * edit) :=
  let 'Node _ _ cs := n in
  do '(s1, e1) <- body s (n, true, node_get_type n);
  let 'Node k1 line1 _ := apply_edit e1 in
  do '(s2, cs') <-
     (fix walk_children (cs : list cmark_node) (s : S)
        : result (S * list cmark_node) :=
        match cs with
        | [] => Ok (s, [])
        | c :: cs0 =>
          do '(s', e) <- walk_inplace body c s;
          do '(s'', cs0') <- walk_children cs0 s';
          Ok (s'', apply_edit e :: cs0')
        end) cs s1;
  let n2 := Node k1 line1 cs' in
  body s2 (n2, false, node_get_type n2).

(** The tree a walk leaves behind; [None] when the root itself was handed
    to [replace_node]: a root has no position to put the new node at, and
    the old node, that is the whole tree, is destroyed. *)
Definition tree_after (e : edit) : option cmark_node :=
  match e with
  | Keep n => Some n
  | Replace _ => None
  end.

(** The loop of [walk_inplace] over the children of a node. *)
Definition walk_inplace_list {S : Type}
  (body : S -> event -> result (S * edit))
  : list cmark_node -> S -> result (S * list cmark_node) :=
  fix walk_children (cs : list cmark_node) (s : S)
    : result (S * list cmark_node) :=
    match cs with
    | [] => Ok (s, [])
    | c :: cs0 =>
      do '(s', e) <- walk_inplace body c s;
      do '(s'', cs0') <- walk_children cs0 s';
      Ok (s'', apply_edit e :: cs0')
    end.

(** ** [processors.MaxHeadingLevel] *)

(** The body of the loop of [enforce_max_heading_level]; the loop has no
    state of its own. *)
Definition enforce_body (max_level : Z) (s : unit) (ev : event)
  : result (unit * edit) :=
  let '(node, entering, node_type) := ev in
  if entering && (node_type =? NODE_HEADING) then
    let level := get_heading_level node in
    if (max_level >? 6) || (max_level <? 0) then Raise ValueError
    else if level >? max_level
         then Ok (s, Keep (snd (set_heading_level node max_level)))
         else Ok (s, Keep node)
  else Ok (s, Keep node).

(** [enforce_max_heading_level(self, root_node, max_level=6)]: the tree
    after the walk. *)
Definition enforce_max_heading_level (root_node : cmark_node) (max_level : Z)
  : result cmark_node :=
  do '(_, e) <- walk_inplace (enforce_body max_level) root_node tt;
  Ok (apply_edit e).

(** [MaxHeadingLevel.process_input(self, root_node, max_level=6)] *)
Definition MaxHeadingLevel_process_input (root_node : cmark_node)
  (max_level : Z) : result cmark_node :=
  enforce_max_heading_level root_node max_level.

(** ** [get_headings] and [processors.HeadingCollector] *)

(** The dictionary [{'level': .., 'text': .., 'line_number': ..}]. *)
Record heading_info : Type := HeadingInfo {
  level : Z;
  text : pyval;
  line_number : Z
}.

#[global] Instance heading_info_eq_dec : EqDecision heading_info.
Proof. solve_decision. Defined.

(** The loop of the inner function [get_heading_info] of the module-level
    [get_headings]: it returns at the first text node entered, and the
    function returns [None] when the walk ends without one. *)
Fixpoint get_heading_info_loop (level line_no : Z) (evs : list event)
  : result (option heading_info) :=
  match evs with
  | [] => Ok None
  | (cur, entering, node_type) :: evs' =>
    if entering && (node_type =? NODE_TEXT) then
      do text <- get_literal cur;
      Ok (Some (HeadingInfo level text line_no))
    else get_heading_info_loop level line_no evs'
  end.

Definition get_heading_info (node : cmark_node)
  : result (option heading_info) :=
  let level := get_heading_level node in
  let line_no := get_start_line node in
  get_heading_info_loop level line_no (walk node).

(** [get_headings(document)] of the module. *)
Definition get_headings (document : cmark_node)
  : result (list (option heading_info)) :=
  for_each
    (fun heads '(node, entering, node_type) =>
       if negb entering && (node_type =? NODE_HEADING) then
         do info <- get_heading_info node;
         Ok (heads ++ [info])
       else Ok heads)
    (walk document) [].

(** The same loop in [HeadingCollector.get_headings], where the text read
    by [get_literal] goes through [from_c_string] once more. *)
Fixpoint collector_heading_info_loop (level line_no : Z) (evs : list event)
  : result (option heading_info) :=
  match evs with
  | [] => Ok None
  | (cur, entering, node_type) :: evs' =>
    if entering && (node_type =? NODE_TEXT) then
      do text <- get_literal cur;
      do text' <- from_c_string text;
      Ok (Some (HeadingInfo level text' line_no))
    else collector_heading_info_loop level line_no evs'
  end.

Definition collector_heading_info (node : cmark_node)
  : result (option heading_info) :=
  let level := get_heading_level node in
  let line_no := get_start_line node in
  collector_heading_info_loop level line_no (walk node).

(** [HeadingCollector.get_headings(self, document)] *)
Definition HeadingCollector_get_headings (document : cmark_node)
  : result (list (option heading_info)) :=
  for_each
    (fun heads '(node, entering, node_type) =>
       if negb entering && (node_type =? NODE_HEADING) then
         do info <- collector_heading_info node;
         Ok (heads ++ [info])
       else Ok heads)
    (walk document) [].

(** ** [processors.TOCGenerator] *)

(** *** [slugify]

    [str.lower] and the class [\W] are those of the Unicode database of
    the Python runtime; the tables here are their restrictions to ASCII,
    and a code point outside ASCII is kept as a word character. *)
Definition lower_cp (c : codepoint) : codepoint :=
  if ((65 <=? c) && (c <=? 90))%N then (c + 32)%N else c.

Definition is_word (c : codepoint) : bool :=
  ((48 <=? c) && (c <=? 57) || (65 <=? c) && (c <=? 90) || (c =? 95)
   || (97 <=? c) && (c <=? 122) || (128 <=? c))%N.

Definition SPACE : codepoint := 32%N.
Definition UNDERSCORE : codepoint := 95%N.

(** [re.sub(r'\s+', ' ', text)] *)
Fixpoint collapse_spaces (in_run : bool) (s : pystr) : pystr :=
  match s with
  | [] => []
  | c :: s' =>
    if is_space c
    then if in_run then collapse_spaces true s'
         else SPACE :: collapse_spaces true s'
    else c :: collapse_spaces false s'
  end.

Definition slugify_str (text : pystr) : pystr :=
  let text := map lower_cp text in
  let text :=
    foldl (fun t c => replace_char c UNDERSCORE t) text
      [SPACE; DASH; 46%N; 47%N] in
  let text := filter (fun c => is_word c = true) text in
  let text := replace_char UNDERSCORE SPACE text in
  let text := collapse_spaces false text in
  let text := strip text in
  replace_char SPACE DASH text.

(** [slugify(self, text)]; only a [str] has [lower]. *)
Definition slugify (text : pyval) : result pystr :=
  match text with
  | PyStr s => Ok (slugify_str s)
  | _ => Raise AttributeError
  end.

(** ['{}'.format(n)] for an [int]. *)
Definition format_int (n : Z) : pystr :=
  str (NilZero.string_of_int (Z.to_int n)).

(** [ast_tools.make_html_node(content=content)]: a new html block, which
    has no source position. *)
Definition make_html_node (content : pystr) : result cmark_node :=
  do b <- to_c_string (PyStr content);
  match b with
  | PyBytes b => Ok (Node (KHtmlBlock b) 0 [])
  | _ => Raise TypeError
  end.

(** *** [set_heading_attributes] *)

(** The inner loop over [walk(node)] of a heading: every text node entered
    sets [text] and appends a record. *)
Definition collect_texts (level line_number : Z)
  (acc : pyval * list heading_info) (ev : event)
  : result (pyval * list heading_info) :=
  let '(cur, entering, node_type) := ev in
  if entering && (node_type =? NODE_TEXT) then
    do text <- get_literal cur;
    Ok (text, snd acc ++ [HeadingInfo level text line_number])
  else Ok acc.

(** The body of the loop of [set_heading_attributes]. *)
Definition heading_attributes_body (inject : bool) (max_depth : Z)
  (headings_list : list heading_info) (ev : event)
  : result (list heading_info * edit) :=
  let '(node, entering, node_type) := ev in
  if negb entering && (node_type =? NODE_HEADING) then
    let level := get_heading_level node in
    let line_number := get_start_line node in
    let text := PyStr [] in
    do '(text, headings_list) <-
       (if negb (level >? max_depth)
        then for_each (collect_texts level line_number) (walk node)
               (text, headings_list)
        else Ok (text, headings_list));
    if inject then
      do slug <- slugify text;
      let _id := format_int line_number ++ str "-" ++ slug in
      match text with
      | PyStr text =>
        let heading :=
          str "<h" ++ format_int level ++ str " id=" ++ [QUOTE] ++ _id
          ++ [QUOTE] ++ str ">" ++ text ++ str "</h" ++ format_int level
          ++ str ">" in
        do new_node <- make_html_node heading;
        Ok (headings_list, Replace new_node)
      | _ => Raise AttributeError
      end
    else Ok (headings_list, Keep node)
  else Ok (headings_list, Keep node).

(** [set_heading_attributes(self, root_node, max_depth)] with [self.inject];
    the result is the list returned and the tree left behind. *)
Definition set_heading_attributes (inject : bool) (root_node : cmark_node)
  (max_depth : Z) : result (list heading_info * option cmark_node) :=
  do '(headings_list, e) <-
     walk_inplace (heading_attributes_body inject max_depth) root_node [];
  Ok (headings_list, tree_after e).

(** *** [nest_toc_items]

    The records of [toc_list] are dictionaries that the function changes in
    place while other dictionaries and lists refer to them.  They live in a
    heap: the object at address [i] is the [i]-th record of [toc_list] (the
    records are distinct objects, as [set_heading_attributes] creates them),
    and the lists of the function hold addresses. *)
Record toc_dict : Type := TocDict {
  info : heading_info;
  children : list nat
}.

Abbreviation heap := (list toc_dict).

Definition alloc (toc_list : list heading_info) : heap :=
  map (fun i => TocDict i []) toc_list.

(** [item['level']] *)
Definition level_of (h : heap) (item : nat) : Z :=
  match h !! item with
  | Some d => level (info d)
  | None => 0
  end.

(** [item['children'] = []] *)
Definition set_children (h : heap) (item : nat) : heap :=
  alter (fun d => TocDict (info d) []) item h.

(** [parent['children'].append(item)] *)
Definition append_item (h : heap) (parent item : nat) : heap :=
  alter (fun d => TocDict (info d) (children d ++ [item])) parent h.

(** [a == b] on two dictionaries of the heap: the same object, or equal
    values under every key, the lists of children compared element by
    element.  The nesting of children is finite; [fuel] bounds the depth
    of the comparison. *)
Fixpoint dict_eqb (fuel : nat) (h : heap) (a b : nat) : bool :=
  (a =? b)%nat ||
  match fuel with
  | O => false
  | S fuel' =>
    match h !! a, h !! b with
    | Some da, Some db =>
      bool_decide (info da = info db)
      && (fix list_eqb (l1 l2 : list nat) : bool :=
            match l1, l2 with
            | [], [] => true
            | x :: l1', y :: l2' => dict_eqb fuel' h x y && list_eqb l1' l2'
            | _, _ => false
            end) (children da) (children db)
    | _, _ => false
    end
  end.

(** [l.index(x)]: the first position holding an object equal to [x]. *)
Fixpoint list_index (h : heap) (x : nat) (l : list nat) : option nat :=
  match l with
  | [] => None
  | y :: l' =>
    if dict_eqb (length h) h y x then Some O else S <$> list_index h x l'
  end.

(** The loop [for parent in reversed(parent_list)] that pops from the list
    it runs over.  The reverse iterator holds an index, here [i] for the
    index [i - 1] it yields next, and stops as soon as that index is not
    one of the list as it is then. *)
Fixpoint pop_parents (h : heap) (level : Z) (i : nat) (parent_list : list nat)
  : result (list nat) :=
  match i with
  | O => Ok parent_list
  | S i' =>
    match parent_list !! i' with
    | None => Ok parent_list
    | Some parent =>
      do parent_list' <-
         (if level <=? level_of h parent then
            match list_index h parent parent_list with
            | Some ix => Ok (delete ix parent_list)
            | None => Raise ValueError
            end
          else Ok parent_list);
      pop_parents h level i' parent_list'
    end
  end.

Record nest_state : Type := NestState {
  nest_heap : heap;
  processed : list nat;
  parent_list : list nat;
  last_item : nat;
  last_level : Z
}.

(** The body of the loop [for item in toc_list]. *)
Definition nest_step (st : nest_state) (item : nat) : result nest_state :=
  let h := set_children (nest_heap st) item in
  let level := level_of h item in
  do '(parent_list, last_level) <-
     (if level <? last_level st then
        do parent_list <-
           (match parent_list st with
            | [] => Ok []
            | _ :: _ =>
              pop_parents h level (length (parent_list st)) (parent_list st)
            end);
        Ok (parent_list, level)
      else Ok (parent_list st, last_level st));
  if level =? last_level then
    match list.last parent_list with
    | Some parent =>
      Ok (NestState (append_item h parent item) (processed st) parent_list
            item last_level)
    | None =>
      Ok (NestState h (processed st ++ [item]) parent_list item last_level)
    end
  else
    Ok (NestState (append_item h (last_item st) item) (processed st)
          (parent_list ++ [last_item st]) item level).

(** [nest_toc_items(self, toc_list)]: the heap at the end and the list
    [processed] of the roots. *)
Definition nest_toc_items (toc_list : list heading_info)
  : result (heap * list nat) :=
  match toc_list with
  | [] => Ok ([], [])
  | _ :: rest_list =>
    let h := set_children (alloc toc_list) 0 in
    let st := NestState h [O] [] O (level_of h 0) in
    do st' <- for_each nest_step (seq 1 (length rest_list)) st;
    Ok (nest_heap st', processed st')
  end.

(** The forest a list of roots stands for. *)
#[local] Unset Elimination Schemes.
Inductive toc_item : Type :=
| TocItem (i : heading_info) (items : list toc_item).
#[local] Set Elimination Schemes.

Fixpoint read_item (fuel : nat) (h : heap) (item : nat) : option toc_item :=
  match fuel with
  | O => None
  | S fuel' =>
    d ← h !! item;
    items ← mapM (read_item fuel' h) (children d);
    Some (TocItem (info d) items)
  end.

Definition read_forest (r : heap * list nat) : option (list toc_item) :=
  mapM (read_item (length r.1) r.1) r.2.

(** *** [toc_to_nodes] *)

(** [ast_tools.make_list_node(ordered=False)] *)
Definition make_list_node_unordered : cmark_node :=
  Node (KList CMARK_BULLET_LIST 1 0) 0 [].

(** Modelled from the spec: [ast_tools.append_child], the child becomes
    the last child. *)
Definition append_child (node child : cmark_node) : cmark_node :=
  let 'Node k line cs := node in Node k line (cs ++ [child]).

(** Modelled from the spec: [ast_tools.prepend_child], the child becomes
    the first child. *)
Definition prepend_child (node child : cmark_node) : cmark_node :=
  let 'Node k line cs := node in Node k line (child :: cs).

Definition bytes_of_pyval (v : pyval) : result pybytes :=
  do b <- to_c_string v;
  match b with
  | PyBytes b => Ok b
  | _ => Raise TypeError
  end.

(** [ast_tools.make_link(url, title=title, text=text)] *)
Definition make_link (url title text : pyval) : result cmark_node :=
  do url <- bytes_of_pyval url;
  do title <- bytes_of_pyval title;
  do text <- bytes_of_pyval text;
  Ok (Node (KLink url title) 0 [Node (KText text) 0 []]).

(** The inner function [build_toc_nodes(toc, parent_node)]; its recursion
    follows the children in the heap and [fuel] bounds its depth. *)
Fixpoint build_toc_nodes (fuel : nat) (h : heap) (toc : list nat)
  (parent_node : cmark_node) : result cmark_node :=
  match fuel with
  | O => Raise RecursionError
  | S fuel' =>
    for_each
      (fun parent_node item =>
         match h !! item with
         | None => Raise UseAfterFree
         | Some d =>
           let line_number := line_number (info d) in
           let item_text := text (info d) in
           do slug <- slugify item_text;
           let href := str "#" ++ format_int line_number ++ str "-" ++ slug in
           let paragraph := Node KParagraph 0 [] in
           do anchor <- make_link (PyStr href) item_text item_text;
           let list_item := Node KItem 0 [] in
           let paragraph := append_child paragraph anchor in
           let list_item := append_child list_item paragraph in
           do list_item <-
              (match children d with
               | [] => Ok list_item
               | _ :: _ =>
                 let inner_list := make_list_node_unordered in
                 do inner <- build_toc_nodes fuel' h (children d) inner_list;
                 Ok (append_child list_item inner)
               end);
           Ok (append_child parent_node list_item)
         end)
      toc parent_node
  end.

(** [toc_to_nodes(self, toc)] *)
Definition toc_to_nodes (r : heap * list nat) : result cmark_node :=
  build_toc_nodes (S (length r.1)) r.1 r.2 make_list_node_unordered.

(** *** [process_input] *)

Section TOCGenerator.

(** The renderer is an external collaborator: [render_html node] stands
    for [ast_tools.render_html(node, 0)]. *)
Variable render_html : cmark_node -> pybytes.

(** [process_input(self, root_node, max_depth=6, inject=True)]: the tree
    left behind and [self.data]. *)
Definition TOCGenerator_process_input (root_node : cmark_node)
  (max_depth : Z) (inject : bool) : result (option cmark_node * pyval) :=
  if (max_depth >? 6) || (max_depth <? 0) then Raise ValueError
  else
    do '(headings, tree) <- set_heading_attributes inject root_node max_depth;
    do nested <- nest_toc_items headings;
    do toc <- toc_to_nodes nested;
    do tree <-
       (if inject then
          match tree with
          | Some root_node => Ok (Some (prepend_child root_node toc))
          | None => Raise UseAfterFree
          end
        else Ok tree);
    do data <- from_c_string (PyBytes (render_html toc));
    Ok (tree, data).

End TOCGenerator.

(** ** [renderers.CommonMark]: the registries of processors *)

Inductive entrypoint : Type := before_parse | after_parse.

Section Registry.

(** The processors are callables; the registries only store them. *)
Context {P : Type}.

(** [{'name': name, 'processor': processor}] *)
Record item : Type := Item {
  name : pystr;
  processor : P
}.

(** [self._processors] *)
Record CommonMark : Type := MkCommonMark {
  processors_before_parse : list item;
  processors_after_parse : list item
}.

Definition new_CommonMark : CommonMark := MkCommonMark [] [].

Definition processors (cm : CommonMark) (e : entrypoint) : list item :=
  match e with
  | before_parse => processors_before_parse cm
  | after_parse => processors_after_parse cm
  end.

Definition set_processors (cm : CommonMark) (e : entrypoint)
  (l : list item) : CommonMark :=
  match e with
  | before_parse => MkCommonMark l (processors_after_parse cm)
  | after_parse => MkCommonMark (processors_before_parse cm) l
  end.

(** The methods of [list] take their index as a [Py_ssize_t] of the C
    runtime, 64 bits wide: the conversion of an [int] outside of it,
    2**63 and above or below -2**63, raises [OverflowError] before the
    list is looked at. *)
Definition PY_SSIZE_T_MAX : Z := 9223372036854775807.
Definition PY_SSIZE_T_MIN : Z := -9223372036854775808.

Definition as_ssize_t (i : Z) : result Z :=
  if (i <? PY_SSIZE_T_MIN) || (PY_SSIZE_T_MAX <? i) then Raise OverflowError
  else Ok i.

(** [l.insert(index, x)]: the index has to be an [int]; a negative index
    counts from the end, and an index out of range is brought to the
    nearest end. *)
Definition list_insert_at {A : Type} (index : pyval) (x : A) (l : list A)
  : result (list A) :=
  match index with
  | PyInt index =>
    do index <- as_ssize_t index;
    let n := Z.of_nat (length l) in
    let i := if index <? 0 then Z.max 0 (index + n) else Z.min index n in
    Ok (take (Z.to_nat i) l ++ x :: drop (Z.to_nat i) l)
  | _ => Raise TypeError
  end.

(** [l.pop(index)]: the index has to be an [int]. *)
Definition list_pop {A : Type} (l : list A) (index : pyval)
  : result (A * list A) :=
  match index with
  | PyInt i =>
    do i <- as_ssize_t i;
    let n := Z.of_nat (length l) in
    let i := if i <? 0 then i + n else i in
    if (i <? 0) || (n <=? i) then Raise IndexError
    else
      match l !! Z.to_nat i with
      | Some x => Ok (x, delete (Z.to_nat i) l)
      | None => Raise IndexError
      end
  | _ => Raise TypeError
  end.

(** [_register_processor(self, name, processor, entrypoint, index=None)]:
    the registry afterwards.  When the call raises, the registry is as it
    was. *)
Definition _register_processor (cm : CommonMark) (name : pystr)
  (processor : P) (e : entrypoint) (index : pyval) : result CommonMark :=
  let item := Item name processor in
  match index with
  | PyNone => Ok (set_processors cm e (processors cm e ++ [item]))
  | _ =>
    do l <- list_insert_at index item (processors cm e);
    Ok (set_processors cm e l)
  end.

Definition register_text_processor (cm : CommonMark) (name : pystr)
  (processor : P) (index : pyval) : result CommonMark :=
  _register_processor cm name processor before_parse index.

Definition register_ast_processor (cm : CommonMark) (name : pystr)
  (processor : P) (index : pyval) : result CommonMark :=
  _register_processor cm name processor after_parse index.

(** [deregister_text_processor(self, name)]: the value returned and the
    registry afterwards. *)
Definition deregister_text_processor (cm : CommonMark) (name : pyval)
  : result (item * CommonMark) :=
  do '(x, l) <- list_pop (processors cm before_parse) name;
  Ok (x, set_processors cm before_parse l).

(** [deregister_ast_processor(self, name)] *)
Definition deregister_ast_processor (cm : CommonMark) (name : pyval)
  : result (item * CommonMark) :=
  do '(x, l) <- list_pop (processors cm after_parse) name;
  Ok (x, set_processors cm after_parse l).

Definition names (cm : CommonMark) (e : entrypoint) : list pystr :=
  map name (processors cm e).

End Registry.

Arguments item : clear implicits.
Arguments CommonMark : clear implicits.

(** ** [renderers.CommonMark]: running a hook *)

Section Pipeline.

(** The documents a hook passes along and the data its processors
    extract; [data_truthy] is the truth value Python gives the data in
    [if data:]. *)
Context {Doc D : Type}.
Variable data_truthy : D -> bool.

(** One turn of the loop of [_run_processors]: the state is the document
    and [self.data]. *)
Definition run_item (st : Doc * gmap pystr D)
  (it : item (Doc -> result (Doc * D))) : result (Doc * gmap pystr D) :=
  let '(doc, cm_data) := st in
  do '(doc, data) <- processor it doc;
  Ok (doc, if data_truthy data then <[name it := data]> cm_data else cm_data).

(** [_run_processors(self, doc, entrypoint)]: the document returned and
    [self.data] afterwards. *)
Definition _run_processors (cm : CommonMark (Doc -> result (Doc * D)))
  (cm_data : gmap pystr D) (doc : Doc) (e : entrypoint)
  : result (Doc * gmap pystr D) :=
  for_each run_item (processors cm e) (doc, cm_data).

End Pipeline.

(** [ast_tools.make_text_node(text)]: a new text node, which has no source
    position. *)
Definition make_text_node (text : pyval) : result cmark_node :=
  do b <- bytes_of_pyval text;
  Ok (Node (KText b) 0 []).

(** ** [ast_tools.make_options] *)






(** * Specification

    The definitions the properties are stated with. *)

(** ** Examples *)

(** An ASCII line with its line feed. *)
Definition nl (s : string) : pystr := str s ++ [LF].

Definition text_node (s : string) : cmark_node := Node (KText (bytes_of s)) 0 [].

(** A document with one heading of level 3 on line 1, and a paragraph. *)
Definition doc_h3 : cmark_node :=
  Node KDocument 0
    [Node (KHeading 3) 1 [text_node "x"];
     Node KParagraph 2 [text_node "p"]].

(** A document whose heading holds two text nodes, as for [# foo *Bar*]. *)
Definition doc_two_texts : cmark_node :=
  Node KDocument 0
    [Node (KHeading 1) 1 [text_node "foo "; Node KEmph 1 [text_node "Bar"]];
     Node KParagraph 2 [text_node "p"]].

(** A document without headings. *)
Definition doc_plain : cmark_node :=
  Node KDocument 0 [Node KParagraph 1 [text_node "p"]].

Definition heading (lvl : Z) (title : string) (line : Z) : heading_info :=
  HeadingInfo lvl (PyStr (str title)) line.

(** The anchored heading [<hLEVEL id=ID>TEXT</hLEVEL>], with the quotes
    around the id. *)
Definition anchored (lvl id_ txt : string) : pybytes :=
  bytes_of "<h" ++ bytes_of lvl ++ bytes_of " id=" ++ [Byte.x22]
  ++ bytes_of id_ ++ [Byte.x22] ++ bytes_of ">" ++ bytes_of txt
  ++ bytes_of "</h" ++ bytes_of lvl ++ bytes_of ">".

(** ** Registries *)



(** ** Trees and loops over them *)

(** Case analysis on the kind of a node, naming the level of a heading. *)
Tactic Notation "destruct_kind" constr(k) ident(lvl) :=
  destruct k as [ | | ? ? ? | | ? | ? | | | lvl | | | ? | | | ? | ? | | |
                | ? ? | ? ? | | | | | ].

(** A loop body that keeps every node. *)
Definition readonly {S : Type} (f : S -> event -> result S)
  : S -> event -> result (S * edit) :=
  fun s ev => do s' <- f s ev; Ok (s', Keep ev.1.1).

(** The collect pass alone: the body of [set_heading_attributes] when
    [self.inject] is false. *)
Definition collect_body (max_depth : Z) (headings_list : list heading_info)
  (ev : event) : result (list heading_info) :=
  let '(node, entering, node_type) := ev in
  if negb entering && (node_type =? NODE_HEADING) then
    let level := get_heading_level node in
    let line_number := get_start_line node in
    do '(_, headings_list) <-
       (if negb (level >? max_depth)
        then for_each (collect_texts level line_number) (walk node)
               (PyStr [], headings_list)
        else Ok (PyStr [], headings_list));
    Ok headings_list
  else Ok headings_list.

(** The loops of the two [get_headings] over the same events. *)
Definition heads_body
  (info_of : cmark_node -> result (option heading_info))
  (heads : list (option heading_info)) (ev : event)
  : result (list (option heading_info)) :=
  let '(node, entering, node_type) := ev in
  if negb entering && (node_type =? NODE_HEADING) then
    do info <- info_of node; Ok (heads ++ [info])
  else Ok heads.

(** The clamp in the words of the design document: every heading whose
    level exceeds [max_level] gets the level [max_level], and nothing else
    changes. *)
Fixpoint clamp_spec (max_level : Z) (n : cmark_node) : cmark_node :=
  let 'Node k line cs := n in
  Node (match k with
        | KHeading lvl => if lvl >? max_level then KHeading max_level else k
        | _ => k
        end) line (map (clamp_spec max_level) cs).

(** The events at which the inner loop of [set_heading_attributes] reads a
    text. *)
Definition is_text_enter (ev : event) : bool :=
  let '(_, entering, node_type) := ev in entering && (node_type =? NODE_TEXT).

(** ** Nesting *)

(** The nearest index below [j] whose level is below [L]. *)
Fixpoint nearest_below (lvl : nat -> Z) (L : Z) (j : nat) : option nat :=
  match j with
  | O => None
  | S j' => if lvl j' <? L then Some j' else nearest_below lvl L j'
  end.

(** The level of the [i]-th record of [toc_list]. *)
Definition lv (toc_list : list heading_info) (i : nat) : Z :=
  match toc_list !! i with
  | Some x => level x
  | None => 0
  end.

(** The nearest preceding record of strictly lower level, if any. *)
Definition parent_spec (toc_list : list heading_info) (j : nat) : option nat :=
  nearest_below (lv toc_list) (lv toc_list j) j.

(** [i] is the nearest record before [j] whose level is strictly lower. *)
Definition nearest_lower (toc_list : list heading_info) (i j : nat) : Prop :=
  (i < j)%nat
  /\ lv toc_list i < lv toc_list j
  /\ forall k, (i < k < j)%nat -> lv toc_list j <= lv toc_list k.

(** No record before [j] has a strictly lower level. *)
Definition no_lower (toc_list : list heading_info) (j : nat) : Prop :=
  forall k, (k < j)%nat -> lv toc_list j <= lv toc_list k.

(** The order of the levels, on addresses. *)
Definition by_level (toc_list : list heading_info) : relation nat :=
  fun a b => lv toc_list a < lv toc_list b.

(** The children recorded in the heap are right for the first [n]
    records. *)
Definition children_ok (toc_list : list heading_info) (h : heap) (n : nat)
  : Prop :=
  forall i d, h !! i = Some d ->
    children d = filter (fun j => parent_spec toc_list j = Some i) (seq 0 n).

(** The roots among the first [n] records. *)
Definition roots_spec (toc_list : list heading_info) (n : nat) : list nat :=
  filter (fun j => parent_spec toc_list j = None) (seq 0 n).

(** The invariant of the loop of [nest_toc_items] when the records up to
    the [k]-th are placed: the list of parents, with the last record on
    top, is a stack of strictly increasing levels that answers every
    question for the nearest record below a level. *)
Record nest_inv (toc_list : list heading_info) (k : nat) (st : nest_state)
  : Prop := NestInv {
  inv_info : info <$> nest_heap st = toc_list;
  inv_children : children_ok toc_list (nest_heap st) (S k);
  inv_processed : processed st = roots_spec toc_list (S k);
  inv_last_item : last_item st = k;
  inv_last_level : last_level st = lv toc_list k;
  inv_sorted : StronglySorted (by_level toc_list) (parent_list st ++ [k]);
  inv_stack : forall L,
      nearest_below (lv toc_list) L (S k)
      = list.last (filter (fun p => lv toc_list p < L) (parent_list st ++ [k]))
}.

(** ** The fuel of the repetitions *)

(** A state of the matcher on a text of [N] characters. *)
Definition st_ok (N : nat) (st : mstate) : Prop :=
  (pos st + length (rest st) = N)%nat.

(** The rest of the pattern never runs out of fuel from [p0] onwards. *)
Definition never_out (N p0 : nat) (k : mstate -> outcome) : Prop :=
  forall st1, st_ok N st1 -> (p0 <= pos st1)%nat -> k st1 <> OutOfFuel.

(** A matcher that only runs out of fuel when the rest of the pattern
    does. *)
Definition body_ok (N : nat)
  (body : mstate -> (mstate -> outcome) -> outcome) : Prop :=
  forall st k, st_ok N st -> never_out N (pos st) k -> body st k <> OutOfFuel.

(** The fuel a repetition still needs after [count] iterations. *)
Definition fuel_needed (min count : nat) (last : option nat) (st : mstate)
  : nat :=
  ((min - count)
   + if (count <? min)%nat || may_iterate last st
     then 2 * length (rest st) + 2 else 1)%nat.

(** ** Further definitions for the clamp *)

(** An event of the walk over the clamped tree. *)
Definition clamp_event (max_level : Z) (ev : event) : event :=
  let '(node, entering, node_type) := ev in
  (clamp_spec max_level node, entering, node_type).

(** A record with its level capped. *)
Definition cap_level (max_level : Z) (r : heading_info) : heading_info :=
  HeadingInfo (if level r >? max_level then max_level else level r)
    (text r) (line_number r).

(** What a walk shows of the shape of a tree: for every event its phase,
    the type and the source line of its node, and the string content. *)
Definition event_shape (ev : event) : bool * Z * Z * pyval :=
  let '(node, entering, node_type) := ev in
  (entering, node_type, get_start_line node, node_get_literal node).

(** [fmap] on results. *)
Definition result_map {A B : Type} (f : A -> B) (r : result A) : result B :=
  do a <- r; Ok (f a).

(** ** Further definitions for the metadata loader *)

Definition COLON : codepoint := 58%N.

(** [sep] occurs in [s]. *)
Fixpoint occurs (sep s : pystr) : bool :=
  is_prefix sep s
  || match s with
     | [] => false
     | _ :: s' => occurs sep s'
     end.

(** The delimiter [key_value_to_dict] works with: [delimiter or ':']. *)
Definition delimiter_or_default (delimiter : option pystr) : pystr :=
  match delimiter with
  | Some (c :: d) => c :: d
  | _ => str ":"
  end.

(** A line that is not blank and holds no delimiter. *)
Definition line_without_delimiter (delimiter line : pystr) : Prop :=
  strip line <> [] /\ occurs delimiter (strip line) = false.

(** ** Further definitions for the strings handed to the C library *)

(** A code point [str.encode('utf-8')] accepts: no surrogate, and within
    the range of Unicode. *)
Definition encodable (c : codepoint) : bool :=
  negb (is_surrogate c) && (c <=? 1114111)%N.

(** Case analysis on the tests of a conditional, and the comparisons found
    as propositions. *)
Ltac bool_to_prop :=
  repeat progress
    (rewrite ?andb_true_iff, ?andb_false_iff, ?orb_true_iff, ?orb_false_iff,
       ?negb_true_iff, ?negb_false_iff,
       ?N.ltb_lt, ?N.ltb_ge, ?N.leb_le, ?N.leb_gt in * ).

Ltac split_ifs :=
  repeat match goal with
    | |- context [if ?b then _ else _] => destruct b eqn:?
    end.

(** ** Further definitions for the nesting *)

(** Siblings as [nest_toc_items] leaves them: in the order of the list,
    and a later one is never deeper than an earlier one. *)
Definition sibling_order (h : heap) : relation nat :=
  fun a b => (a < b)%nat /\ level_of h b <= level_of h a.

(** ** Further definitions for the injection *)

(** No heading is met on a walk over the tree. *)
Definition no_heading (n : cmark_node) : Prop :=
  Forall (fun ev : event => ev.2 <> NODE_HEADING) (walk n).

(** ** Further definitions for the list of contents *)

(** The target of the link of a record, and the identifier it names. *)
Definition anchor_id (line_number : Z) (slug : pystr) : pystr :=
  format_int line_number ++ str "-" ++ slug.

(** The texts on which the tables of [slugify_str] are those of the
    runtime: the texts of ASCII characters. *)
Definition ascii_text (s : pystr) : Prop := Forall (fun c => (c < 128)%N) s.

(** [slugify] for a function [slug_of] on [str]; [slugify] itself is
    [slugify_with slugify_str]. *)
Definition slugify_with (slug_of : pystr -> pystr) (text : pyval)
  : result pystr :=
  match text with
  | PyStr s => Ok (slug_of s)
  | _ => Raise AttributeError
  end.

(** A slug function that is [slugify_str] on the texts of ASCII
    characters.  Outside ASCII the slug depends on the Unicode tables of
    the runtime ([str.lower], [\W]), and the properties below leave it
    open. *)
Definition slug_on_ascii (slug_of : pystr -> pystr) : Prop :=
  forall s, ascii_text s -> slug_of s = slugify_str s.

Section Items.

Variable slug_of : pystr -> pystr.

(** The list item of a record and, below it, of its children: a paragraph
    with the link, which goes to the line and the slug of the text, and,
    when there are children, a bullet list of their items. *)
Fixpoint item_node (t : toc_item) : result cmark_node :=
  let 'TocItem i items := t in
  do slug <- slugify_with slug_of (text i);
  let href := str "#" ++ anchor_id (line_number i) slug in
  do anchor <- make_link (PyStr href) (text i) (text i);
  let list_item := Node KItem 0 [Node KParagraph 0 [anchor]] in
  match items with
  | [] => Ok list_item
  | _ :: _ =>
    do inner <-
       (fix items_nodes (ts : list toc_item) (parent_node : cmark_node)
          : result cmark_node :=
          match ts with
          | [] => Ok parent_node
          | t :: ts' =>
            do n <- item_node t;
            items_nodes ts' (append_child parent_node n)
          end) items make_list_node_unordered;
    Ok (append_child list_item inner)
  end.

(** The items of a forest, appended to a list node. *)
Fixpoint items_nodes (ts : list toc_item) (parent_node : cmark_node)
  : result cmark_node :=
  match ts with
  | [] => Ok parent_node
  | t :: ts' =>
    do n <- item_node t;
    items_nodes ts' (append_child parent_node n)
  end.

End Items.

(** The records of a forest, a record before its children and the
    children from left to right. *)
Fixpoint flatten_item (t : toc_item) : list heading_info :=
  let 'TocItem i items := t in i :: flat_map flatten_item items.

(** The first position from [k] on, among [fuel] positions, whose level is
    not above [L]; the position after them if there is none. *)
Fixpoint next_from (lvl : nat -> Z) (L : Z) (k fuel : nat) : nat :=
  match fuel with
  | O => k
  | S fuel' => if lvl k <=? L then k else next_from lvl L (S k) fuel'
  end.

(** Where the section of the [i]-th record ends: at the next record that
    is not deeper, or at the end of the list. *)
Definition section_end (toc_list : list heading_info) (i : nat) : nat :=
  next_from (lv toc_list) (lv toc_list i) (S i) (length toc_list - S i).

(** The records from the [a]-th up to, and without, the [b]-th. *)
Definition records_between (toc_list : list heading_info) (a b : nat)
  : list heading_info :=
  take (b - a) (drop a toc_list).

(** The html of an injected heading: [<hLEVEL id=ID>TEXT</hLEVEL>], the id
    between double quotes. *)
Definition heading_html (level line_number : Z) (slug text : pystr) : pystr :=
  str "<h" ++ format_int level ++ str " id=" ++ [QUOTE]
  ++ anchor_id line_number slug
  ++ [QUOTE] ++ str ">" ++ text ++ str "</h" ++ format_int level ++ str ">".

(** ** Further definitions for the options *)



(** ** Further definitions for the slugs *)

(** A lower-case letter or a digit of ASCII. *)
Definition lower_alnum (c : codepoint) : bool :=
  ((48 <=? c) && (c <=? 57) || (97 <=? c) && (c <=? 122))%N.

(** The characters of a slug. *)
Definition slug_char (c : codepoint) : bool := lower_alnum c || (c =? DASH)%N.

(** The characters before the last step of [slugify]. *)
Definition spaced_char (c : codepoint) : bool :=
  lower_alnum c || (c =? SPACE)%N.

(** No [c] follows a [c] in [s]; with [after_c], [s] does not begin with
    [c] either. *)
Fixpoint no_double (c : codepoint) (after_c : bool) (s : pystr) : bool :=
  match s with
  | [] => true
  | a :: s' =>
    if (a =? c)%N then negb after_c && no_double c true s'
    else no_double c false s'
  end.

(** What the first four steps of [slugify] do to one character. *)
Definition pre_char (c : codepoint) : codepoint :=
  foldl (fun t x => if (t =? x)%N then UNDERSCORE else t) (lower_cp c)
    [SPACE; DASH; 46%N; 47%N].

Definition swap_char (a b : codepoint) (c : codepoint) : codepoint :=
  if (c =? a)%N then b else c.

(** ** Further definitions for the pattern of the front matter *)

(** The state after the longest run of characters in [p]. *)
Fixpoint skip_while (p : codepoint -> bool) (i : nat) (prev : option codepoint)
  (s : pystr) (caps : gmap nat (nat * nat)) : mstate :=
  match s with
  | c :: tl =>
    if p c then skip_while p (S i) (Some c) tl caps else MState i prev s caps
  | [] => MState i prev [] caps
  end.

Definition skip (p : codepoint -> bool) (st : mstate) : mstate :=
  skip_while p (pos st) (prev st) (rest st) (caps st).

(** The state after one iteration of group 5 that takes all it can: the
    rest of a line and the line breaks after it. *)
Definition next_chunk (st : mstate) : mstate :=
  let st2 := skip cr_or_lf (skip dot st) in
  set_cap 5 (pos st, pos st2) st2.

(** A match reported by a matcher is one reported by the rest of the
    pattern, further on in the same text. *)
Definition from_k (body : mstate -> (mstate -> outcome) -> outcome) : Prop :=
  forall st k m,
    body st k = Matched m ->
    exists st1, k st1 = Matched m
                /\ (pos st1 + length (rest st1) = pos st + length (rest st))%nat.

(** The pattern of group 5. *)
Definition group5 : regex :=
  RGroup 5 (RCat (star (RSet dot)) (star (RSet cr_or_lf))).

(** ** Further definitions for the heading collectors *)

(** The headings of a document, in the order in which the walk leaves
    them. *)
Definition headings_of (document : cmark_node) : list cmark_node :=
  omap (fun ev : event =>
          let '(node, entering, node_type) := ev in
          if negb entering && (node_type =? NODE_HEADING) then Some node
          else None)
    (walk document).

(** The first text node met on the walk over a node. *)
Definition first_text (node : cmark_node) : option cmark_node :=
  (fun ev : event => ev.1.1) <$> find is_text_enter (walk node).

(** The record of a heading: its level, its line and the text of its first
    text node; [None] for a heading without text node. *)
Definition heading_record (node : cmark_node) : result (option heading_info) :=
  match first_text node with
  | None => Ok None
  | Some cur =>
    do text <- get_literal cur;
    Ok (Some (HeadingInfo (get_heading_level node) text (get_start_line node)))
  end.

(** [f] on every element, from left to right, up to the first error. *)
Fixpoint result_mapM {A B : Type} (f : A -> result B) (l : list A)
  : result (list B) :=
  match l with
  | [] => Ok []
  | x :: l' => do y <- f x; do k <- result_mapM f l'; Ok (y :: k)
  end.

(** ** Further definitions for the run of the generator *)

(** An event whose node, when it is a text node, holds valid UTF-8. *)
Definition valid_event (ev : event) : bool :=
  let '(cur, _, node_type) := ev in
  if node_type =? NODE_TEXT then
    match get_literal cur with
    | Ok (PyStr _) => true
    | _ => false
    end
  else true.

(** Every text node of the tree holds valid UTF-8, as in a tree that comes
    from the parser. *)
Definition valid_texts (n : cmark_node) : Prop :=
  Forall (fun ev => valid_event ev = true) (walk n).

(** A string [str.encode] accepts. *)
Definition encodable_str (s : pystr) : Prop :=
  Forall (fun c => encodable c = true) s.

(** A record whose text is such a string. *)
Definition record_ok (r : heading_info) : Prop :=
  exists s, text r = PyStr s /\ encodable_str s.

(** ** Further definitions for a well-formed front matter *)

(** The pattern of group 3: a line, with the white space after it. *)
Definition group3 : regex :=
  RGroup 3 (RCat (star (RSet dot))
           (RCat (star (RSet is_space)) (RSet cr_or_lf))).

(** Three dashes or more, and the line break after them. *)
Definition dashes : regex := RRep true 3 (RSet (is_char DASH)).
Definition dashes_line : regex := RCat dashes (RSet cr_or_lf).

(** The closing delimiter, at the beginning of a line. *)
Definition closing : regex := RCat RBol dashes_line.

(** Group 4: the rest of the text. *)
Definition group4 : regex := RGroup 4 (RRep true 1 group5).

(** The groups a pattern sets. *)
Fixpoint groups (r : regex) : list nat :=
  match r with
  | RSet _ | RBol => []
  | RCat r1 r2 => groups r1 ++ groups r2
  | RRep _ _ r1 => groups r1
  | RGroup n r1 => n :: groups r1
  end.

(** A matcher that only sets the groups of [G]. *)
Definition from_k_frame (G : list nat)
  (body : mstate -> (mstate -> outcome) -> outcome) : Prop :=
  forall st k m,
    body st k = Matched m ->
    exists st1, k st1 = Matched m
                /\ forall key, key ∉ G -> caps st1 !! key = caps st !! key.

(** The character before the position reached after the characters [l]. *)
Definition prev_after (pv : option codepoint) (l : pystr)
  : option codepoint :=
  match list.last l with
  | Some c => Some c
  | None => pv
  end.

(** A line of a front matter the pattern takes as one line: it holds no
    line feed and begins with a character that is neither white space nor
    a dash. *)
Definition line_ok (l : pystr) : Prop :=
  (LF ∉ l)
  /\ exists c l', l = c :: l' /\ c <> DASH /\ is_space c = false.

(** The lines of a front matter, each with its line feed. *)
Definition front_matter (lines : list pystr) : pystr :=
  concat (map (fun l => l ++ [LF]) lines).

(** * Properties *)

(** ** Strings and the metadata extractor *)

Lemma rep_loop_fuel (N : nat) body (greedy : bool) (min : nat) :
  body_ok N body ->
  forall fuel count last st k,
    st_ok N st -> never_out N (pos st) k ->
    (fuel_needed min count last st <= fuel)%nat ->
    rep_loop body greedy min fuel count last st k <> OutOfFuel.
Proof.
  intros Hbody. induction fuel as [|fuel IH]; intros count last st k Hok Hk Hf.
  { unfold fuel_needed in Hf. destruct (_ || _); lia. }
  assert (Hnext : forall last',
    (count <? min)%nat = true \/
      ((count <? min)%nat = false /\ may_iterate last st = true
       /\ last' = Some (pos st)) ->
    never_out N (pos st)
      (fun st1 => rep_loop body greedy min fuel (S count) last' st1 k)).
  { intros last' Hcase st1 Hok1 Hle. apply IH; [done| |].
    - intros st2 Hok2 Hle2. apply Hk; [done|lia].
    - unfold fuel_needed in *. unfold st_ok in *.
      destruct Hcase as [Hc|(Hc & Hm & ->)]; rewrite Hc in Hf; cbn [orb] in Hf.
      + apply Nat.ltb_lt in Hc.
        destruct (_ || _); lia.
      + rewrite Hm in Hf. apply Nat.ltb_ge in Hc.
        replace (S count <? min)%nat with false
          by (symmetry; apply Nat.ltb_ge; lia).
        cbn [orb may_iterate].
        destruct (pos st1 =? pos st)%nat eqn:Hp; cbn [negb].
        * lia.
        * apply Nat.eqb_neq in Hp. lia. }
  assert (Hk0 : k st <> OutOfFuel) by (apply Hk; [done|lia]).
  cbn [rep_loop].
  destruct (count <? min)%nat eqn:Hc.
  - apply Hbody; [done|]. apply Hnext. by left.
  - destruct (may_iterate last st) eqn:Hm.
    + assert (Hb : body st
                (fun st1 => rep_loop body greedy min fuel (S count)
                              (Some (pos st)) st1 k) <> OutOfFuel).
      { apply Hbody; [done|]. apply Hnext. right. done. }
      destruct greedy.
      * destruct (body st _); done.
      * destruct (k st); done.
    + destruct greedy; [done|]. destruct (k st); done.
Qed.

Lemma re_match_fuel (r : regex) : forall N, body_ok N (re_match r).
Proof.
  induction r as [p| |r1 IH1 r2 IH2|greedy min r1 IH1|n r1 IH1];
    intros N st k Hok Hk; cbn [re_match].
  - destruct (rest st) as [|c tl] eqn:Hr; [done|].
    destruct (p c); [|done]. apply Hk; unfold st_ok in *; cbn.
    + rewrite Hr in Hok. cbn in Hok. lia.
    + lia.
  - destruct (at_bol st); [|done]. apply Hk; [done|lia].
  - apply (IH1 N); [done|]. intros st1 Hok1 Hle1.
    apply (IH2 N); [done|]. intros st2 Hok2 Hle2. apply Hk; [done|lia].
  - apply (rep_loop_fuel N); [apply IH1|done|done|].
    unfold fuel_needed. cbn [may_iterate]. rewrite orb_true_r. lia.
  - apply (IH1 N); [done|]. intros st1 Hok1 Hle1. apply Hk; [|done].
    exact Hok1.
Qed.

Lemma search_from_fuel (r : regex) (s : pystr) :
  forall i prev, search_from r i prev s <> OutOfFuel.
Proof.
  induction s as [|c s IH]; intros i prev; cbn [search_from].
  - pose proof (re_match_fuel r (i + 0)%nat (MState i prev [] ∅) Matched) as H.
    destruct (re_match r _ _); try done.
    apply H; [reflexivity|]. intros st1 _ _. done.
  - pose proof (re_match_fuel r (i + S (length s))%nat
                  (MState i prev (c :: s) ∅) Matched) as H.
    destruct (re_match r _ _); try done.
    apply H; [reflexivity|]. intros st1 _ _. done.
Qed.

(** [search] always answers: a match or no match. *)
Lemma re_search_total (r : regex) (text : pystr) :
  re_search r text <> OutOfFuel.
Proof. apply search_from_fuel. Qed.

(** Without a front-matter block the loader is called with [None]. *)
Lemma no_front_matter_loader_gets_None {D : Type}
  (loader : pyval -> result D) (text : pystr) :
  re_search patern text = NoMatch ->
  ExtractMetadata_process_input loader text
  = (do data <- loader PyNone; Ok (data, PyStr text)).
Proof. intros H. unfold ExtractMetadata_process_input. by rewrite H. Qed.

Lemma no_front_matter_default_raises (text : pystr) :
  (forall match_obj, re_search patern text <> Matched match_obj) ->
  ExtractMetadata_call text = Raise AttributeError.
Proof.
  intros Hno. unfold ExtractMetadata_call, Processor_call,
    ExtractMetadata_process_input.
  destruct (re_search patern text) as [match_obj| |]; [by destruct (Hno match_obj)|done|done].
Qed.

(** C3 (the code differs from the claim). On the input of the round-trip
    example the output text is the body, but the value extracted for [foo]
    keeps the blank after the colon: only the whole line is stripped, the
    key and the value are not. *)
Theorem metadata_roundtrip_value_keeps_blank :
  ExtractMetadata_call (nl "---" ++ nl "foo: bar" ++ nl "---" ++ nl "body")
  = Ok (PyStr (nl "body"), {[ str "foo" := str " bar" ]}).
Proof. vm_compute. reflexivity. Qed.

(** C7 (the code differs from the claim). On a text without front matter
    the default loader receives [None] and the call raises
    [AttributeError] instead of passing the text through: thus for the text
    of one line [body], and for every text in which the pattern finds no
    block. *)
Theorem no_front_matter_raises :
  re_search patern (nl "body") = NoMatch
  /\ ExtractMetadata_call (nl "body") = Raise AttributeError
  /\ (forall text,
        (forall match_obj, re_search patern text <> Matched match_obj) ->
        ExtractMetadata_call text = Raise AttributeError).
Proof.
  split; [vm_compute; reflexivity|]. split; [vm_compute; reflexivity|].
  apply no_front_matter_default_raises.
Qed.

(** ** Registries *)



Lemma processors_set_eq {P : Type} (cm : CommonMark P) e l :
  processors (set_processors cm e l) e = l.
Proof. by destruct e. Qed.

Lemma processors_set_ne {P : Type} (cm : CommonMark P) (e e' : entrypoint)
  (l : list (item P)) :
  e <> e' -> processors (set_processors cm e l) e' = processors cm e'.
Proof. by destruct e, e'. Qed.






Lemma register_inv {P : Type} (cm : CommonMark P) (e : entrypoint)
  (nm : pystr) (p : P) (index : pyval) (cm' : CommonMark P) :
  _register_processor cm nm p e index = Ok cm' ->
  exists k : nat,
    cm' = set_processors cm e
            (take k (processors cm e) ++ Item nm p :: drop k (processors cm e)).
Proof.
  unfold _register_processor. destruct index as [|i|s|b]; try done.
  - intros [= <-]. exists (length (processors cm e)).
    by rewrite firstn_all, drop_all.
  - unfold list_insert_at. destruct (as_ssize_t i) as [i'|]; [|done].
    cbn [bind]. intros [= <-]. by eexists.
Qed.

Lemma processors_register_other {P : Type} (cm cm' : CommonMark P)
  (e e' : entrypoint) (nm : pystr) (p : P) (index : pyval) :
  e <> e' ->
  _register_processor cm nm p e index = Ok cm' ->
  processors cm' e' = processors cm e'.
Proof.
  intros Hne (k & ->)%register_inv. by apply processors_set_ne.
Qed.

(** C4 (the code differs from the claim). [list.pop] takes an index: with
    a name, a [str], it raises [TypeError], whatever the registry holds,
    also right after the name was registered. *)
Theorem deregister_by_name_raises_TypeError :
  forall (P : Type) (cm : CommonMark P) (nm : pystr) (p : P),
    deregister_text_processor cm (PyStr nm) = Raise TypeError
    /\ deregister_ast_processor cm (PyStr nm) = Raise TypeError
    /\ (exists cm',
          register_text_processor cm nm p PyNone = Ok cm'
          /\ deregister_text_processor cm' (PyStr nm) = Raise TypeError)
    /\ (exists cm',
          register_ast_processor cm nm p PyNone = Ok cm'
          /\ deregister_ast_processor cm' (PyStr nm) = Raise TypeError).
Proof.
  intros. split; [reflexivity|]. split; [reflexivity|].
  split; eexists; split; reflexivity.
Qed.




(** ** Trees and the walker *)

Lemma cmark_node_ind (P : cmark_node -> Prop) :
  (forall k line cs, Forall P cs -> P (Node k line cs)) ->
  forall n, P n.
Proof.
  intros H. fix IH 1. intros [k line cs]. apply H.
  induction cs as [|c cs IHcs]; constructor; [apply IH | exact IHcs].
Qed.

Lemma walk_inplace_unfold {S : Type} (body : S -> event -> result (S * edit))
  k line cs s :
  walk_inplace body (Node k line cs) s
  = (do '(s1, e1) <- body s (Node k line cs, true, node_get_type (Node k line cs));
     let 'Node k1 line1 _ := apply_edit e1 in
     do '(s2, cs') <- walk_inplace_list body cs s1;
     let n2 := Node k1 line1 cs' in
     body s2 (n2, false, node_get_type n2)).
Proof. reflexivity. Qed.

Lemma for_each_app {S E : Type} (body : S -> E -> result S)
  (l1 l2 : list E) (s : S) :
  for_each body (l1 ++ l2) s
  = (do s' <- for_each body l1 s; for_each body l2 s').
Proof.
  revert s. induction l1 as [|e l1 IH]; intros s; [done|].
  cbn [app for_each]. destruct (body s e); [apply IH|done].
Qed.

Lemma walk_inplace_list_readonly {S : Type} (f : S -> event -> result S)
  (cs : list cmark_node) :
  Forall (fun n => forall s, walk_inplace (readonly f) n s
                             = (do s' <- for_each f (walk n) s; Ok (s', Keep n)))
         cs ->
  forall s, walk_inplace_list (readonly f) cs s
            = (do s' <- for_each f (flat_map walk cs) s; Ok (s', cs)).
Proof.
  induction 1 as [|c cs Hc _ IH]; intros s; [reflexivity|].
  cbn [walk_inplace_list flat_map]. rewrite Hc, for_each_app.
  destruct (for_each f (walk c) s) as [s1|e]; [|done]. cbn [bind apply_edit].
  fold (walk_inplace_list (readonly f)). rewrite IH.
  destruct (for_each f (flat_map walk cs) s1); done.
Qed.

(** With such a body the walk in place is the loop over the events of
    [walk], and the tree is left as it was. *)
Lemma walk_inplace_readonly {S : Type} (f : S -> event -> result S)
  (n : cmark_node) :
  forall s, walk_inplace (readonly f) n s
            = (do s' <- for_each f (walk n) s; Ok (s', Keep n)).
Proof.
  induction n as [k line cs IH] using cmark_node_ind. intros s.
  rewrite walk_inplace_unfold.
  change (walk (Node k line cs))
    with ((Node k line cs, true, node_get_type (Node k line cs))
          :: flat_map walk cs
          ++ [(Node k line cs, false, node_get_type (Node k line cs))]).
  cbn [for_each]. unfold readonly at 1. cbn [fst].
  destruct (f s _) as [s1|e]; [|done]. cbn [bind apply_edit].
  rewrite (walk_inplace_list_readonly f cs IH), for_each_app.
  destruct (for_each f (flat_map walk cs) s1) as [s2|e]; [|done].
  cbn [bind for_each]. unfold readonly. cbn [fst].
  destruct (f s2 _); done.
Qed.

Lemma walk_inplace_ext {S : Type}
  (body1 body2 : S -> event -> result (S * edit)) :
  (forall s ev, body1 s ev = body2 s ev) ->
  forall n s, walk_inplace body1 n s = walk_inplace body2 n s.
Proof.
  intros Hext. induction n as [k line cs IH] using cmark_node_ind. intros s.
  rewrite !walk_inplace_unfold, Hext.
  destruct (body2 s _) as [[s1 e1]|e]; [|done]. cbn [bind].
  destruct (apply_edit e1) as [k1 line1 _].
  assert (Hcs : forall s, walk_inplace_list body1 cs s
                          = walk_inplace_list body2 cs s).
  { clear -IH. induction IH as [|c cs Hc _ IHcs]; intros s; [done|].
    cbn [walk_inplace_list]. rewrite Hc.
    destruct (walk_inplace body2 c s) as [[s' e]|e]; [|done]. cbn [bind].
    fold (walk_inplace_list body1). fold (walk_inplace_list body2).
    by rewrite IHcs. }
  rewrite Hcs. destruct (walk_inplace_list body2 cs s1) as [[s2 cs']|e]; [|done].
  cbn [bind]. apply Hext.
Qed.

(** ** Heading-level clamp *)

Lemma enforce_body_other (max_level : Z) (s : unit) (node : cmark_node)
  (entering : bool) (node_type : Z) :
  entering && (node_type =? NODE_HEADING) = false ->
  enforce_body max_level s (node, entering, node_type) = Ok (s, Keep node).
Proof. intros H. unfold enforce_body. by rewrite H. Qed.

Lemma enforce_children_ok (max_level : Z) (cs : list cmark_node) :
  Forall (fun n => walk_inplace (enforce_body max_level) n tt
                   = Ok (tt, Keep (clamp_spec max_level n))) cs ->
  walk_inplace_list (enforce_body max_level) cs tt
  = Ok (tt, map (clamp_spec max_level) cs).
Proof.
  induction 1 as [|c cs Hc _ IH]; [reflexivity|].
  cbn [walk_inplace_list]. rewrite Hc. cbn [bind].
  fold (walk_inplace_list (enforce_body max_level)).
  rewrite IH. reflexivity.
Qed.

(** For a bound within 1..6 the walk never raises and computes the clamp. *)
Lemma enforce_walk_ok (max_level : Z) :
  1 <= max_level <= 6 ->
  forall n, walk_inplace (enforce_body max_level) n tt
            = Ok (tt, Keep (clamp_spec max_level n)).
Proof.
  intros Hm. induction n as [k line cs IH] using cmark_node_ind.
  rewrite walk_inplace_unfold.
  apply enforce_children_ok in IH.
  assert (Hhi : (max_level >? 6) = false) by lia.
  assert (Hlo : (max_level <? 0) = false) by lia.
  assert (Hin : (1 <=? max_level) && (max_level <=? 6) = true).
  { apply andb_true_intro. split; lia. }
  destruct_kind k level0;
    try (rewrite enforce_body_other by reflexivity;
         cbn [bind apply_edit]; rewrite IH; cbn [bind];
         rewrite enforce_body_other by reflexivity; reflexivity).
  unfold enforce_body at 1.
  change (node_get_type (Node (KHeading level0) line cs)) with NODE_HEADING.
  change (NODE_HEADING =? NODE_HEADING) with true.
  cbn [andb get_heading_level node_kind_of].
  rewrite Hhi, Hlo. cbn [orb].
  destruct (level0 >? max_level) eqn:Hl.
  - cbn [set_heading_level]. rewrite Hin. cbn [snd bind apply_edit].
    rewrite IH. cbn [bind].
    rewrite enforce_body_other by reflexivity.
    cbn [clamp_spec]. rewrite Hl. reflexivity.
  - cbn [bind apply_edit]. rewrite IH. cbn [bind].
    rewrite enforce_body_other by reflexivity.
    cbn [clamp_spec]. rewrite Hl. reflexivity.
Qed.

Lemma clamp_spec_idempotent (max_level : Z) (n : cmark_node) :
  clamp_spec max_level (clamp_spec max_level n) = clamp_spec max_level n.
Proof.
  induction n as [k line cs IH] using cmark_node_ind.
  cbn [clamp_spec]. f_equal.
  - destruct_kind k level0; try reflexivity.
    destruct (level0 >? max_level) eqn:Hl; [|by rewrite Hl].
    by rewrite Z.gtb_ltb, Z.ltb_irrefl.
  - rewrite <- list_fmap_compose. apply list_fmap_ext.
    intros i x Hx. apply (Forall_lookup_1 _ _ _ _ IH Hx).
Qed.

(** After the clamp no node of the tree reports a level above the bound. *)
Lemma clamp_spec_levels (max_level : Z) :
  0 <= max_level ->
  forall n, Forall (fun ev : event => get_heading_level ev.1.1 <= max_level)
              (walk (clamp_spec max_level n)).
Proof.
  intros Hm. induction n as [k line cs IH] using cmark_node_ind.
  assert (Hroot : get_heading_level (clamp_spec max_level (Node k line cs))
                  <= max_level).
  { destruct_kind k level0; cbn; try lia.
    destruct (level0 >? max_level) eqn:Hl; cbn; lia. }
  change (walk (clamp_spec max_level (Node k line cs)))
    with ((clamp_spec max_level (Node k line cs), true,
           node_get_type (clamp_spec max_level (Node k line cs)))
          :: flat_map walk (map (clamp_spec max_level) cs)
          ++ [(clamp_spec max_level (Node k line cs), false,
               node_get_type (clamp_spec max_level (Node k line cs)))]).
  constructor; [exact Hroot|].
  apply Forall_app. split; [|by repeat constructor].
  clear Hroot. induction IH as [|c cs Hc _ IHcs]; [constructor|].
  cbn [map flat_map]. apply Forall_app. by split.
Qed.

Lemma enforce_children_keep (max_level : Z) (cs : list cmark_node) :
  Forall (fun n => walk_inplace (enforce_body max_level) n tt
                   = Ok (tt, Keep n)) cs ->
  walk_inplace_list (enforce_body max_level) cs tt = Ok (tt, cs).
Proof.
  induction 1 as [|c cs Hc _ IH]; [reflexivity|].
  cbn [walk_inplace_list]. rewrite Hc. cbn [bind].
  fold (walk_inplace_list (enforce_body max_level)).
  rewrite IH. reflexivity.
Qed.

(** With [max_level = 0] nothing is raised on any tree, and the tree stays
    as it is: the library refuses the level 0. *)
Lemma enforce_zero_keeps (n : cmark_node) :
  walk_inplace (enforce_body 0) n tt = Ok (tt, Keep n).
Proof.
  induction n as [k line cs IH] using cmark_node_ind.
  rewrite walk_inplace_unfold.
  apply enforce_children_keep in IH.
  destruct_kind k level0;
    try (rewrite enforce_body_other by reflexivity;
         cbn [bind apply_edit]; rewrite IH; cbn [bind];
         rewrite enforce_body_other by reflexivity; reflexivity).
  unfold enforce_body at 1.
  change (node_get_type (Node (KHeading level0) line cs)) with NODE_HEADING.
  change (NODE_HEADING =? NODE_HEADING) with true.
  cbn [andb get_heading_level node_kind_of set_heading_level].
  change ((0 >? 6) || (0 <? 0)) with false. cbv iota.
  change ((1 <=? 0) && (0 <=? 6)) with false. cbv iota. cbn [snd].
  destruct (level0 >? 0); cbn [bind apply_edit]; rewrite IH; cbn [bind];
    rewrite enforce_body_other by reflexivity; reflexivity.
Qed.

(** On a tree without headings nothing is raised, whatever the bound. *)
Lemma enforce_no_heading_keeps (max_level : Z) (n : cmark_node) :
  Forall (fun ev : event => ev.2 <> NODE_HEADING) (walk n) ->
  walk_inplace (enforce_body max_level) n tt = Ok (tt, Keep n).
Proof.
  induction n as [k line cs IH] using cmark_node_ind. intros Hw.
  change (walk (Node k line cs))
    with ((Node k line cs, true, node_get_type (Node k line cs))
          :: flat_map walk cs
          ++ [(Node k line cs, false, node_get_type (Node k line cs))]) in Hw.
  apply Forall_cons in Hw as [Hk Hw]. apply Forall_app in Hw as [Hcs _].
  cbn [snd] in Hk.
  assert (Hty : (node_get_type (Node k line cs) =? NODE_HEADING) = false).
  { by apply Z.eqb_neq. }
  rewrite walk_inplace_unfold.
  rewrite enforce_body_other by (by rewrite Hty).
  cbn [bind apply_edit].
  rewrite enforce_children_keep.
  - cbn [bind]. by rewrite enforce_body_other.
  - clear -IH Hcs. induction IH as [|c cs Hc _ IHcs]; [constructor|].
    cbn [flat_map] in Hcs. apply Forall_app in Hcs as [H1 H2].
    constructor; [by apply Hc | by apply IHcs].
Qed.

(** C9. With [max_level = 4] the run never raises, a second run on its
    result gives the same tree again, a heading of level 6 comes out with
    level 4, and no heading of the result is above level 4. *)
Theorem clamp_idempotent :
  forall root_node : cmark_node,
    MaxHeadingLevel_process_input root_node 4 = Ok (clamp_spec 4 root_node)
    /\ MaxHeadingLevel_process_input (clamp_spec 4 root_node) 4
       = Ok (clamp_spec 4 root_node)
    /\ (forall line cs,
          MaxHeadingLevel_process_input (Node (KHeading 6) line cs) 4
          = Ok (Node (KHeading 4) line (map (clamp_spec 4) cs)))
    /\ Forall (fun ev : event => get_heading_level ev.1.1 <= 4)
         (walk (clamp_spec 4 root_node)).
Proof.
  assert (Hrun : forall n, MaxHeadingLevel_process_input n 4
                           = Ok (clamp_spec 4 n)).
  { intros n. unfold MaxHeadingLevel_process_input, enforce_max_heading_level.
    rewrite enforce_walk_ok by lia. reflexivity. }
  intros root_node. repeat split.
  - apply Hrun.
  - rewrite Hrun. by rewrite clamp_spec_idempotent.
  - intros line cs. apply Hrun.
  - apply clamp_spec_levels. lia.
Qed.

(** C5 (the code differs from the claim). The bound is only checked when a
    heading is entered, and it lets 0 through.  With [max_level = 0] no
    tree raises, with or without headings, and the tree stays as it was
    (the library refuses the level 0): thus the document with a heading of
    level 3.  A tree without headings is processed without error whatever
    the bound: thus the plain document for [max_level = 7]. *)
Theorem clamp_out_of_range_accepted :
  (forall root_node, MaxHeadingLevel_process_input root_node 0 = Ok root_node)
  /\ MaxHeadingLevel_process_input doc_h3 0 = Ok doc_h3
  /\ (forall root_node max_level,
        Forall (fun ev : event => ev.2 <> NODE_HEADING) (walk root_node) ->
        MaxHeadingLevel_process_input root_node max_level = Ok root_node)
  /\ MaxHeadingLevel_process_input doc_plain 7 = Ok doc_plain.
Proof.
  assert (H0 : forall n, MaxHeadingLevel_process_input n 0 = Ok n).
  { intros n. unfold MaxHeadingLevel_process_input, enforce_max_heading_level.
    by rewrite enforce_zero_keeps. }
  split; [exact H0|]. split; [apply H0|]. split; [|vm_compute; reflexivity].
  intros n max_level Hn.
  unfold MaxHeadingLevel_process_input, enforce_max_heading_level.
  by rewrite enforce_no_heading_keeps.
Qed.

(** ** Heading collectors *)

Lemma get_literal_not_bytes (n : cmark_node) (v : pyval) :
  get_literal n = Ok v -> from_c_string v = Raise AttributeError.
Proof.
  unfold get_literal, node_get_literal.
  destruct (node_kind_of n); cbn [from_c_string];
    try (intros [= <-]; reflexivity);
    destruct (utf8_decode _); intros [= <-]; reflexivity.
Qed.

Lemma collector_heading_info_loop_rel (lvl line : Z) (evs : list event) :
  collector_heading_info_loop lvl line evs
  = match get_heading_info_loop lvl line evs with
    | Ok (Some _) => Raise AttributeError
    | r => r
    end.
Proof.
  induction evs as [|[[cur entering] node_type] evs IH];
    cbn [collector_heading_info_loop get_heading_info_loop]; [done|].
  destruct (entering && (node_type =? NODE_TEXT)); [|exact IH].
  destruct (get_literal cur) as [v|e] eqn:Hv; [|done]. cbn [bind].
  by rewrite (get_literal_not_bytes cur v Hv).
Qed.

Lemma heads_loop_extends info_of (evs : list event) :
  forall heads hs,
    for_each (heads_body info_of) evs heads = Ok hs ->
    exists tail, hs = heads ++ tail.
Proof.
  induction evs as [|[[node entering] node_type] evs IH]; intros heads hs;
    cbn [for_each].
  - intros [= <-]. exists []. by rewrite app_nil_r.
  - unfold heads_body at 1.
    destruct (negb entering && (node_type =? NODE_HEADING)); cbn [bind].
    + destruct (info_of node) as [i|e]; [|done]. cbn [bind].
      intros (tail & ->)%IH. exists (i :: tail). by rewrite <- app_assoc.
    + apply IH.
Qed.

Lemma heads_loop_rel (evs : list event) :
  forall heads hs x,
    for_each (heads_body get_heading_info) evs heads = Ok hs ->
    Some x ∈ drop (length heads) hs ->
    for_each (heads_body collector_heading_info) evs heads
    = Raise AttributeError.
Proof.
  induction evs as [|[[node entering] node_type] evs IH]; intros heads hs x;
    cbn [for_each].
  - intros [= <-]. rewrite drop_all. by intros ?%elem_of_nil.
  - unfold heads_body at 1 3.
    destruct (negb entering && (node_type =? NODE_HEADING)); cbn [bind];
      [|apply IH].
    unfold collector_heading_info, get_heading_info.
    rewrite collector_heading_info_loop_rel.
    destruct (get_heading_info_loop _ _ _) as [[i|]|e]; cbn [bind]; try done.
    intros Hrun Hx.
    apply (IH _ hs x Hrun).
    destruct (heads_loop_extends _ _ _ _ Hrun) as (tail & ->).
    rewrite drop_app_length.
    rewrite <- (assoc_L (++)) in Hx. rewrite drop_app_length in Hx.
    cbn [app] in Hx.
    apply elem_of_cons in Hx as [[=]|Hx]. exact Hx.
Qed.

(** Whenever the function of the module finds the text of a heading, the
    method of [HeadingCollector] raises [AttributeError]. *)
Lemma collector_raises_where_text_found (document : cmark_node)
  (hs : list (option heading_info)) (x : heading_info) :
  get_headings document = Ok hs -> Some x ∈ hs ->
  HeadingCollector_get_headings document = Raise AttributeError.
Proof.
  intros Hrun Hx.
  apply (heads_loop_rel (walk document) [] hs x); [exact Hrun|exact Hx].
Qed.


(** C10 (the code differs from the claim). On a document with a heading
    that holds a text node the function of the module returns the record,
    while the method of [HeadingCollector] raises [AttributeError]: it
    decodes the text, already a [str], a second time.  The same happens on
    every document for which the function returns a record. *)
Theorem get_headings_method_raises :
  get_headings doc_two_texts
  = Ok [Some (HeadingInfo 1 (PyStr (str "foo ")) 1)]
  /\ HeadingCollector_get_headings doc_two_texts = Raise AttributeError
  /\ (forall document hs x,
        get_headings document = Ok hs -> Some x ∈ hs ->
        HeadingCollector_get_headings document = Raise AttributeError).
Proof.
  split; [vm_compute; reflexivity|]. split; [vm_compute; reflexivity|].
  apply collector_raises_where_text_found.
Qed.

(** ** Table of contents: collect and inject *)

Lemma heading_attributes_body_collect (max_depth : Z)
  (headings_list : list heading_info) (ev : event) :
  heading_attributes_body false max_depth headings_list ev
  = readonly (collect_body max_depth) headings_list ev.
Proof.
  destruct ev as [[node entering] node_type].
  unfold heading_attributes_body, readonly, collect_body. cbn [fst].
  destruct (negb entering && (node_type =? NODE_HEADING)); [|done].
  destruct (negb (get_heading_level node >? max_depth)); [|done].
  destruct (for_each _ _ _) as [[t hl]|e]; done.
Qed.

(** Without injection [set_heading_attributes] is a loop over the events
    of [walk(root_node)] and leaves the tree alone. *)
Lemma set_heading_attributes_collect (root_node : cmark_node) (max_depth : Z) :
  set_heading_attributes false root_node max_depth
  = (do headings_list <- for_each (collect_body max_depth) (walk root_node) [];
     Ok (headings_list, Some root_node)).
Proof.
  unfold set_heading_attributes.
  rewrite (walk_inplace_ext _ (readonly (collect_body max_depth)))
    by apply heading_attributes_body_collect.
  rewrite walk_inplace_readonly.
  destruct (for_each _ _ _); done.
Qed.

(** The slug of the design document's example. *)
Example slugify_hello_world :
  slugify (PyStr (str "Hello, World!")) = Ok (str "hello-world").
Proof. vm_compute. reflexivity. Qed.

Lemma utf8_encode_small (s : pystr) :
  Forall (fun c => (c < 2048)%N) s -> exists b, utf8_encode s = Some b.
Proof.
  induction 1 as [|c s Hc _ (b & IH)]; [by exists []|].
  cbn [utf8_encode]. rewrite IH. unfold utf8_encode_cp.
  destruct (c <? 128)%N; [by eexists|].
  destruct (c <? 2048)%N eqn:H2; [by eexists|].
  apply N.ltb_ge in H2. lia.
Qed.

Lemma str_small (s : string) : Forall (fun c => (c < 2048)%N) (str s).
Proof.
  unfold str. apply Forall_fmap, Forall_forall. intros a _.
  pose proof (N_ascii_bounded a) as Ha. unfold compose. lia.
Qed.

(** With [inject] set, a heading whose level is above [max_depth] is
    replaced at its Exit event by an html block; no record is added. *)
Lemma inject_replaces_above_max_depth (headings_list : list heading_info)
  (lvl line_number max_depth : Z) (cs : list cmark_node) :
  lvl > max_depth ->
  exists b,
    heading_attributes_body true max_depth headings_list
      (Node (KHeading lvl) line_number cs, false, NODE_HEADING)
    = Ok (headings_list, Replace (Node (KHtmlBlock b) 0 [])).
Proof.
  intros Hl. unfold heading_attributes_body.
  change (negb false && (NODE_HEADING =? NODE_HEADING)) with true. cbv iota.
  cbn [get_heading_level get_start_line node_kind_of].
  replace (lvl >? max_depth) with true by lia. cbn [negb bind].
  change (slugify (PyStr [])) with (Ok (@nil codepoint)). cbn [bind].
  unfold make_html_node, to_c_string.
  match goal with |- context [utf8_encode ?s] =>
    destruct (utf8_encode_small s) as (b & ->) end.
  - rewrite !app_nil_r.
    repeat (apply Forall_app; split); try apply str_small;
      repeat constructor; done.
  - cbn [bind]. by exists b.
Qed.

(** The inner loop adds one record at every text node it enters. *)
Lemma collect_texts_count (lvl line_number : Z) (evs : list event) :
  forall acc acc',
    for_each (collect_texts lvl line_number) evs acc = Ok acc' ->
    length acc'.2
    = (length acc.2 + length (filter (fun ev => is_text_enter ev = true) evs))%nat.
Proof.
  induction evs as [|[[cur entering] node_type] evs IH]; intros acc acc';
    cbn [for_each].
  - intros [= <-]. cbn. lia.
  - unfold collect_texts at 1.
    destruct (entering && (node_type =? NODE_TEXT)) eqn:Hc.
    + rewrite filter_cons_True by exact Hc.
      destruct (get_literal cur) as [t|e]; [|done]. cbn [bind].
      intros ->%IH. cbn [snd length]. rewrite length_app. cbn. lia.
    + rewrite filter_cons_False by (unfold is_text_enter; by rewrite Hc).
      cbn [bind]. intros ->%IH. lia.
Qed.

(** C1 (the code differs from the claim). With [max_depth = 2] and
    [inject] set, the heading of level 3 is not left alone: it is replaced
    by an html block with an empty anchored heading, its text is lost, and
    no record is collected for it.  [process_input] then prepends the
    (empty) list of contents.  The body of the loop does the same to every
    heading above [max_depth]. *)
Theorem inject_replaces_heading_beyond_max_depth :
  set_heading_attributes true doc_h3 2
  = Ok ([], Some (Node KDocument 0
                    [Node (KHtmlBlock (anchored "3" "1-" "")) 0 [];
                     Node KParagraph 2 [text_node "p"]]))
  /\ (forall render_html,
        TOCGenerator_process_input render_html doc_h3 2 true
        = (do data <- from_c_string (PyBytes (render_html make_list_node_unordered));
           Ok (Some (Node KDocument 0
                       [make_list_node_unordered;
                        Node (KHtmlBlock (anchored "3" "1-" "")) 0 [];
                        Node KParagraph 2 [text_node "p"]]), data)))
  /\ (forall headings_list lvl line_number max_depth cs,
        lvl > max_depth ->
        exists b,
          heading_attributes_body true max_depth headings_list
            (Node (KHeading lvl) line_number cs, false, NODE_HEADING)
          = Ok (headings_list, Replace (Node (KHtmlBlock b) 0 []))).
Proof.
  split; [vm_compute; reflexivity|]. split.
  - intros render_html. reflexivity.
  - apply inject_replaces_above_max_depth.
Qed.

(** C2 (the code differs from the claim). The inner loop does not stop at
    the first text node: a heading with two text nodes contributes two
    records, and a heading without text nodes contributes none; in general
    the loop over a heading adds as many records as it enters text
    nodes. *)
Theorem collect_one_record_per_text_node :
  set_heading_attributes false doc_two_texts 6
  = Ok ([HeadingInfo 1 (PyStr (str "foo ")) 1;
         HeadingInfo 1 (PyStr (str "Bar")) 1], Some doc_two_texts)
  /\ set_heading_attributes false
       (Node KDocument 0 [Node (KHeading 1) 1 [Node (KCode (bytes_of "x")) 1 []]]) 6
     = Ok ([], Some (Node KDocument 0
                       [Node (KHeading 1) 1 [Node (KCode (bytes_of "x")) 1 []]]))
  /\ (forall lvl line_number node acc acc',
        for_each (collect_texts lvl line_number) (walk node) acc = Ok acc' ->
        length acc'.2
        = (length acc.2
           + length (filter (fun ev => is_text_enter ev = true) (walk node)))%nat).
Proof.
  split; [vm_compute; reflexivity|]. split; [vm_compute; reflexivity|].
  intros lvl line_number node. apply collect_texts_count.
Qed.

(** ** Table of contents: nesting *)

Lemma nearest_below_Some lvl L j i :
  nearest_below lvl L j = Some i <->
  (i < j)%nat /\ lvl i < L /\ forall k, (i < k < j)%nat -> L <= lvl k.
Proof.
  induction j as [|j IH]; cbn [nearest_below].
  - split; [discriminate | lia].
  - destruct (lvl j <? L) eqn:Hj.
    + split.
      * intros [= <-]. repeat split; lia.
      * intros (Hi & Hl & Hk).
        destruct (decide (i = j)) as [->|Hne]; [done|].
        specialize (Hk j). lia.
    + rewrite IH. split.
      * intros (Hi & Hl & Hk). repeat split; [lia|done|].
        intros k Hk'. destruct (decide (k = j)) as [->|]; [lia|].
        apply Hk. lia.
      * intros (Hi & Hl & Hk).
        assert (i <> j) by (intros ->; lia).
        repeat split; [lia|done|]. intros k Hk'. apply Hk. lia.
Qed.

Lemma nearest_below_None lvl L j :
  nearest_below lvl L j = None <-> forall k, (k < j)%nat -> L <= lvl k.
Proof.
  induction j as [|j IH]; cbn [nearest_below].
  - split; [lia | done].
  - destruct (lvl j <? L) eqn:Hj.
    + split; [discriminate|]. intros Hk. specialize (Hk j). lia.
    + rewrite IH. split.
      * intros Hk k Hk'. destruct (decide (k = j)) as [->|]; [lia|].
        apply Hk. lia.
      * intros Hk k Hk'. apply Hk. lia.
Qed.

Lemma nearest_below_S lvl L j :
  nearest_below lvl L (S j)
  = if lvl j <? L then Some j else nearest_below lvl L j.
Proof. reflexivity. Qed.

Lemma nearest_below_lt lvl L j i :
  nearest_below lvl L j = Some i -> (i < j)%nat.
Proof. rewrite nearest_below_Some. tauto. Qed.

Lemma filter_all {A : Type} (P : A -> Prop) `{forall x, Decision (P x)}
  (l : list A) :
  Forall P l -> filter P l = l.
Proof.
  induction 1 as [|x l Hx _ IH]; [done|].
  by rewrite filter_cons_True, IH.
Qed.

Lemma filter_none {A : Type} (P : A -> Prop) `{forall x, Decision (P x)}
  (l : list A) :
  Forall (fun x => ~ P x) l -> filter P l = [].
Proof.
  induction 1 as [|x l Hx _ IH]; [done|].
  by rewrite filter_cons_False, IH.
Qed.

Lemma last_filter_snoc {A : Type} (P : A -> Prop) `{forall x, Decision (P x)}
  (l : list A) (x : A) :
  list.last (filter P (l ++ [x]))
  = if decide (P x) then Some x else list.last (filter P l).
Proof.
  rewrite filter_app. cbn [filter list_filter]. unfold filter at 2. cbn.
  destruct (decide (P x)).
  - by rewrite last_snoc.
  - by rewrite app_nil_r.
Qed.

Lemma StronglySorted_filter {A : Type} (R : relation A) (P : A -> Prop)
  `{forall x, Decision (P x)} (l : list A) :
  StronglySorted R l -> StronglySorted R (filter P l).
Proof.
  induction 1 as [|x l Hl IH Hx]; [constructor|].
  rewrite filter_cons. destruct (decide (P x)); [|done].
  constructor; [done|].
  apply Forall_forall. intros y [_ Hy]%list_elem_of_filter.
  by apply (proj1 (Forall_forall _ _) Hx).
Qed.

Lemma delete_snoc {A : Type} (l : list A) (x : A) :
  delete (length l) (l ++ [x]) = l.
Proof. induction l as [|y l IH]; [done|]. simpl. f_equal. exact IH. Qed.

Section Nesting.

Variable toc_list : list heading_info.

#[local] Abbreviation lv := (lv toc_list).
#[local] Abbreviation parent_spec := (parent_spec toc_list).
#[local] Abbreviation by_level := (by_level toc_list).
#[local] Abbreviation children_ok := (children_ok toc_list).
#[local] Abbreviation roots_spec := (roots_spec toc_list).
#[local] Abbreviation nest_inv := (nest_inv toc_list).

Lemma level_of_lv (h : heap) (p : nat) :
  info <$> h = toc_list -> level_of h p = lv p.
Proof.
  intros H. unfold level_of, lv. rewrite <- H, list_lookup_fmap.
  destruct (h !! p); reflexivity.
Qed.

Lemma info_set_children (h : heap) (i : nat) :
  info <$> set_children h i = info <$> h.
Proof.
  unfold set_children.
  rewrite (list_fmap_alter info _ id) by (by apply Forall_true).
  by apply list_alter_id.
Qed.

Lemma info_append_item (h : heap) (i j : nat) :
  info <$> append_item h i j = info <$> h.
Proof.
  unfold append_item.
  rewrite (list_fmap_alter info _ id) by (by apply Forall_true).
  by apply list_alter_id.
Qed.

Lemma dict_eqb_refl (fuel : nat) (h : heap) (a : nat) :
  dict_eqb fuel h a a = true.
Proof. destruct fuel; cbn [dict_eqb]; by rewrite Nat.eqb_refl. Qed.

Lemma dict_eqb_level (fuel : nat) (h : heap) (a b : nat) :
  level_of h a <> level_of h b -> dict_eqb fuel h a b = false.
Proof.
  intros Hl.
  assert (Hab : (a =? b)%nat = false).
  { apply Nat.eqb_neq. by intros ->. }
  destruct fuel; cbn [dict_eqb]; rewrite Hab; [done|].
  cbn [orb]. unfold level_of in Hl.
  destruct (h !! a) as [da|], (h !! b) as [db|]; try done.
  rewrite bool_decide_eq_false_2; [done|]. intros Heq. by rewrite Heq in Hl.
Qed.

Lemma list_index_snoc (h : heap) (x : nat) (l : list nat) :
  (forall y, y ∈ l -> level_of h y <> level_of h x) ->
  list_index h x (l ++ [x]) = Some (length l).
Proof.
  induction l as [|y l IH]; intros Hl; cbn [app list_index].
  - by rewrite dict_eqb_refl.
  - rewrite dict_eqb_level by (apply Hl; left).
    rewrite IH; [done|]. intros z Hz. apply Hl. by right.
Qed.

Lemma pop_parents_noop (h : heap) (lvl : Z) (i : nat) (l : list nat) :
  info <$> h = toc_list ->
  (forall j p, (j < i)%nat -> l !! j = Some p -> lv p < lvl) ->
  pop_parents h lvl i l = Ok l.
Proof.
  intros Hh. induction i as [|i IH]; intros Hl; cbn [pop_parents]; [done|].
  destruct (l !! i) as [p|] eqn:Hp; [|done].
  rewrite (level_of_lv h p Hh).
  assert (lv p < lvl) by (apply (Hl i); [lia|done]).
  destruct (lvl <=? lv p) eqn:Hle; [lia|]. cbn [bind].
  apply IH. intros j q Hj. apply Hl. lia.
Qed.

(** On a list of parents of increasing levels the loop removes exactly
    those whose level is not below that of the current record. *)
Lemma pop_parents_sorted (h : heap) (lvl : Z) (l : list nat) :
  info <$> h = toc_list ->
  StronglySorted by_level l ->
  pop_parents h lvl (length l) l = Ok (filter (fun p => lv p < lvl) l).
Proof.
  intros Hh. induction l as [|x l IH] using rev_ind; intros Hs; [done|].
  apply StronglySorted_app in Hs as (Hlx & Hl & _).
  rewrite length_app, Nat.add_1_r. cbn [pop_parents].
  rewrite list_lookup_middle by done.
  rewrite (level_of_lv h x Hh).
  rewrite filter_app.
  destruct (lvl <=? lv x) eqn:Hle.
  - rewrite list_index_snoc.
    2:{ intros y Hy. rewrite !(level_of_lv h _ Hh).
        specialize (Hlx y x Hy). unfold by_level in Hlx.
        assert (x ∈ [x]) by (by left). specialize (Hlx H). lia. }
    cbn [bind]. rewrite delete_snoc, (IH Hl).
    rewrite (filter_none _ [x]) by (constructor; [lia|constructor]).
    by rewrite app_nil_r.
  - cbn [bind].
    assert (Hall : Forall (fun p => lv p < lvl) (l ++ [x])).
    { apply Forall_app. split; [|constructor; [lia|constructor]].
      apply Forall_forall. intros y Hy.
      assert (Hx : x ∈ [x]) by (by left).
      specialize (Hlx y x Hy Hx). unfold by_level in Hlx. lia. }
    rewrite pop_parents_noop; [|done|].
    + rewrite <- filter_app. by rewrite filter_all.
    + intros j p _ Hp. apply (Forall_lookup_1 _ _ _ _ Hall Hp).
Qed.

Lemma stack_step (k : nat) (pl : list nat) :
  StronglySorted by_level (pl ++ [k]) ->
  (forall L, nearest_below lv L (S k)
             = list.last (filter (fun p => lv p < L) (pl ++ [k]))) ->
  let pl' := if lv (S k) <? lv k then filter (fun p => lv p < lv (S k)) pl
             else if lv (S k) =? lv k then pl else pl ++ [k] in
  StronglySorted by_level (pl' ++ [S k])
  /\ (forall L, nearest_below lv L (S (S k))
                = list.last (filter (fun p => lv p < L) (pl' ++ [S k])))
  /\ parent_spec (S k)
     = (if lv (S k) <=? lv k then list.last pl' else Some k).
Proof.
  intros Hs Hst pl'.
  apply StronglySorted_app in Hs as (Hlx & Hspl & _).
  assert (Hpl : forall y, y ∈ pl -> lv y < lv k).
  { intros y Hy. apply (Hlx y k Hy). by left. }
  assert (Hpl' : forall y, y ∈ pl' -> lv y < lv (S k)).
  { intros y. unfold pl'.
    destruct (lv (S k) <? lv k) eqn:H1.
    - by intros [? _]%list_elem_of_filter.
    - destruct (lv (S k) =? lv k) eqn:H2.
      + intros Hy%Hpl. lia.
      + intros [Hy%Hpl| ->%list_elem_of_singleton]%elem_of_app; lia. }
  assert (Hspl' : StronglySorted by_level pl').
  { unfold pl'. destruct (lv (S k) <? lv k).
    - by apply StronglySorted_filter.
    - destruct (lv (S k) =? lv k); [done|].
      apply StronglySorted_app_2; [|done|repeat constructor].
      intros x1 x2 Hx1 ->%list_elem_of_singleton. by apply Hpl. }
  split; [|split].
  - apply StronglySorted_app_2; [|done|repeat constructor].
    intros x1 x2 Hx1 ->%list_elem_of_singleton. by apply Hpl'.
  - intros L. rewrite (nearest_below_S lv L (S k)), last_filter_snoc.
    destruct (lv (S k) <? L) eqn:HL.
    + rewrite decide_True by lia. done.
    + rewrite decide_False by lia. rewrite Hst. unfold pl'.
      destruct (lv (S k) <? lv k) eqn:H1.
      * rewrite last_filter_snoc, decide_False by lia.
        rewrite list_filter_filter_l; [done|]. intros x Hx. lia.
      * destruct (lv (S k) =? lv k) eqn:H2; [|done].
        rewrite last_filter_snoc, decide_False by lia. done.
  - change (parent_spec (S k)) with (nearest_below lv (lv (S k)) (S k)).
    rewrite Hst, last_filter_snoc. unfold pl'.
    destruct (lv (S k) <? lv k) eqn:H1.
    + rewrite decide_False by lia.
      destruct (lv (S k) <=? lv k) eqn:H3; [done|lia].
    + destruct (lv (S k) =? lv k) eqn:H2.
      * rewrite decide_False by lia.
        destruct (lv (S k) <=? lv k) eqn:H3; [|lia].
        rewrite filter_all; [done|].
        apply Forall_forall. intros y Hy%Hpl. lia.
      * rewrite decide_True by lia.
        destruct (lv (S k) <=? lv k) eqn:H3; [lia|done].
Qed.

Lemma parent_spec_lt (j i : nat) : parent_spec j = Some i -> (i < j)%nat.
Proof. apply nearest_below_lt. Qed.

Lemma children_ok_set_children (h : heap) (k : nat) :
  children_ok h (S k) -> children_ok (set_children h (S k)) (S k).
Proof.
  intros Hc i d. unfold set_children. rewrite list_lookup_alter.
  destruct (decide (S k = i)) as [<-|Hne]; [|apply Hc].
  destruct (h !! S k) as [d0|]; [|done]. intros [= <-]. cbn [children].
  symmetry. apply filter_none, Forall_forall.
  intros j Hj%elem_of_seq Hp%parent_spec_lt. lia.
Qed.

Lemma children_ok_append (h : heap) (k par : nat) :
  children_ok h (S k) -> parent_spec (S k) = Some par ->
  children_ok (append_item h par (S k)) (S (S k)).
Proof.
  intros Hc Hp i d. unfold append_item. rewrite list_lookup_alter.
  rewrite (seq_S (S k) 0), filter_app. cbn [Nat.add].
  destruct (decide (par = i)) as [<-|Hne].
  - destruct (h !! par) as [d0|] eqn:Hd0; [|done]. intros [= <-].
    cbn [children]. rewrite (Hc par d0 Hd0). f_equal.
    by rewrite filter_cons_True.
  - intros Hd. rewrite (Hc i d Hd).
    rewrite (filter_none _ [S k]); [by rewrite app_nil_r|].
    constructor; [|constructor]. rewrite Hp. by intros [= ?].
Qed.

Lemma children_ok_root (h : heap) (k : nat) :
  children_ok h (S k) -> parent_spec (S k) = None ->
  children_ok h (S (S k)).
Proof.
  intros Hc Hp i d Hd. rewrite (Hc i d Hd).
  rewrite (seq_S (S k) 0), filter_app. cbn [Nat.add].
  rewrite (filter_none _ [S k]); [by rewrite app_nil_r|].
  constructor; [|constructor]. by rewrite Hp.
Qed.

Lemma roots_spec_S (k : nat) :
  roots_spec (S (S k))
  = roots_spec (S k)
    ++ match parent_spec (S k) with None => [S k] | Some _ => [] end.
Proof.
  unfold roots_spec. rewrite (seq_S (S k) 0), filter_app. cbn [Nat.add].
  f_equal. destruct (parent_spec (S k)) eqn:Hp.
  - apply filter_none. constructor; [|constructor]. by rewrite Hp.
  - by rewrite filter_cons_True.
Qed.

Lemma nest_step_inv (k : nat) (st : nest_state) :
  nest_inv k st ->
  exists st', nest_step st (S k) = Ok st' /\ nest_inv (S k) st'.
Proof.
  intros [Hinfo Hch Hpr Hli Hll Hs Hst].
  pose proof (stack_step k (parent_list st) Hs Hst) as (Hs' & Hst' & Hpar).
  set (h1 := set_children (nest_heap st) (S k)).
  assert (Hinfo1 : info <$> h1 = toc_list).
  { unfold h1. by rewrite info_set_children. }
  assert (Hch1 : children_ok h1 (S k)).
  { by apply children_ok_set_children. }
  unfold nest_step. fold h1.
  rewrite (level_of_lv h1 (S k) Hinfo1), Hll, Hli.
  assert (Hpop :
    match parent_list st with
    | [] => Ok []
    | _ :: _ =>
      pop_parents h1 (lv (S k)) (length (parent_list st)) (parent_list st)
    end = Ok (filter (fun p => lv p < lv (S k)) (parent_list st))).
  { destruct (parent_list st) as [|p pl] eqn:Hpl; [done|].
    apply pop_parents_sorted; [done|].
    by apply StronglySorted_app in Hs as (_ & Hs & _). }
  destruct (lv (S k) <? lv k) eqn:H1.
  - rewrite Hpop. cbn [bind]. rewrite Z.eqb_refl.
    replace (lv (S k) <=? lv k) with true in Hpar by lia.
    destruct (list.last _) as [parent|] eqn:Hlast.
    + eexists. split; [reflexivity|].
      constructor; cbn [nest_heap processed last_item last_level parent_list]; try done.
      * by rewrite info_append_item.
      * by apply children_ok_append.
      * by rewrite roots_spec_S, Hpar, app_nil_r.
    + eexists. split; [reflexivity|].
      constructor; cbn [nest_heap processed last_item last_level parent_list]; try done.
      * by apply children_ok_root.
      * by rewrite roots_spec_S, Hpar, Hpr.
  - cbn [bind]. destruct (lv (S k) =? lv k) eqn:H2.
    + replace (lv (S k) <=? lv k) with true in Hpar by lia.
      destruct (list.last _) as [parent|] eqn:Hlast.
      * eexists. split; [reflexivity|].
        constructor; cbn [nest_heap processed last_item last_level parent_list]; try done.
        -- by rewrite info_append_item.
        -- by apply children_ok_append.
        -- by rewrite roots_spec_S, Hpar, app_nil_r.
        -- apply Z.eqb_eq in H2. lia.
      * eexists. split; [reflexivity|].
        constructor; cbn [nest_heap processed last_item last_level parent_list]; try done.
        -- by apply children_ok_root.
        -- by rewrite roots_spec_S, Hpar, Hpr.
        -- apply Z.eqb_eq in H2. lia.
    + replace (lv (S k) <=? lv k) with false in Hpar by lia.
      eexists. split; [reflexivity|].
      constructor; cbn [nest_heap processed last_item last_level parent_list]; try done.
      * by rewrite info_append_item.
      * by apply children_ok_append.
      * by rewrite roots_spec_S, Hpar, app_nil_r.
Qed.

Lemma nest_loop_inv (m k : nat) (st : nest_state) :
  nest_inv k st ->
  exists st', for_each nest_step (seq (S k) m) st = Ok st'
              /\ nest_inv (k + m) st'.
Proof.
  revert k st. induction m as [|m IH]; intros k st Hinv.
  - exists st. rewrite Nat.add_0_r. by split.
  - cbn [seq for_each].
    destruct (nest_step_inv k st Hinv) as (st1 & -> & Hinv1). cbn [bind].
    destruct (IH (S k) st1 Hinv1) as (st' & Hrun & Hinv').
    exists st'. split; [done|]. by rewrite Nat.add_succ_r.
Qed.

Lemma nest_init_inv (x : heading_info) (rest_list : list heading_info) :
  toc_list = x :: rest_list ->
  let h := set_children (alloc toc_list) 0 in
  nest_inv 0 (NestState h [O] [] O (level_of h 0)).
Proof.
  intros Htoc h.
  assert (Hinfo : info <$> h = toc_list).
  { unfold h. rewrite info_set_children. unfold alloc.
    rewrite <- list_fmap_compose. by rewrite list_fmap_id. }
  constructor; cbn [nest_heap processed last_item last_level parent_list].
  - exact Hinfo.
  - intros i d Hd. unfold h, set_children, alloc in Hd.
    assert (Hnil : children d = []).
    { rewrite list_lookup_alter in Hd.
      destruct (decide (0%nat = i)) as [<-|_].
      - rewrite list_lookup_fmap in Hd.
        destruct (toc_list !! 0%nat); by simplify_eq/=.
      - rewrite list_lookup_fmap in Hd.
        destruct (toc_list !! i); by simplify_eq/=. }
    rewrite Hnil. reflexivity.
  - reflexivity.
  - reflexivity.
  - by apply level_of_lv.
  - repeat constructor.
  - intros L. rewrite nearest_below_S. cbn [nearest_below app].
    rewrite filter_cons. cbn [filter list_filter].
    destruct (lv 0 <? L) eqn:HL.
    + by rewrite decide_True by lia.
    + by rewrite decide_False by lia.
Qed.

(** The function returns, and what it returns is the forest in which
    every record hangs under the nearest preceding record of strictly
    lower level, the children of a record and the roots in the order of
    the list. *)
Lemma nest_toc_items_spec :
  exists h roots,
    nest_toc_items toc_list = Ok (h, roots)
    /\ info <$> h = toc_list
    /\ roots = roots_spec (length toc_list)
    /\ children_ok h (length toc_list).
Proof.
  unfold nest_toc_items.
  destruct toc_list as [|x rest_list] eqn:Htoc.
  - exists [], []. repeat split. intros i d Hd. by rewrite lookup_nil in Hd.
  - rewrite <- Htoc.
    pose proof (nest_init_inv x rest_list Htoc) as Hinit. cbn zeta in Hinit.
    destruct (nest_loop_inv (length rest_list) 0 _ Hinit)
      as (st' & Hrun & [Hinfo Hch Hpr _ _ _ _]).
    rewrite Hrun. cbn [bind].
    exists (nest_heap st'), (processed st').
    assert (Hlen : length toc_list = S (0 + length rest_list)).
    { by rewrite Htoc. }
    rewrite Hlen. by repeat split.
Qed.

End Nesting.

Lemma parent_spec_nearest (toc_list : list heading_info) (i j : nat) :
  parent_spec toc_list j = Some i <-> nearest_lower toc_list i j.
Proof. apply nearest_below_Some. Qed.

Lemma parent_spec_no_lower (toc_list : list heading_info) (j : nat) :
  parent_spec toc_list j = None <-> no_lower toc_list j.
Proof. apply nearest_below_None. Qed.

(** C8. The list [H1 A, H2 B, H2 C, H1 D] nests as the two roots [A], with
    the children [B] and [C] in that order, and [D], without children.  In
    general the function returns for every list; the roots are, in the
    order of the list, the records with no record of strictly lower level
    before them, and the children of a record are, in the order of the
    list, the records whose nearest preceding record of strictly lower
    level it is. *)
Theorem nest_toc_items_nesting :
  (exists r,
     nest_toc_items
       [heading 1 "A" 1; heading 2 "B" 2; heading 2 "C" 3; heading 1 "D" 4]
     = Ok r
     /\ read_forest r
        = Some [TocItem (heading 1 "A" 1)
                  [TocItem (heading 2 "B" 2) []; TocItem (heading 2 "C" 3) []];
                TocItem (heading 1 "D" 4) []])
  /\ forall toc_list : list heading_info,
      exists h roots,
        nest_toc_items toc_list = Ok (h, roots)
        /\ info <$> h = toc_list
        /\ roots = filter (fun j => parent_spec toc_list j = None)
                     (seq 0 (length toc_list))
        /\ (forall i d, h !! i = Some d ->
               children d = filter (fun j => parent_spec toc_list j = Some i)
                              (seq 0 (length toc_list)))
        /\ (forall i j, parent_spec toc_list j = Some i
                        <-> nearest_lower toc_list i j)
        /\ (forall j, parent_spec toc_list j = None <-> no_lower toc_list j).
Proof.
  split.
  - eexists. split; [vm_compute; reflexivity|]. vm_compute. reflexivity.
  - intros toc_list.
    destruct (nest_toc_items_spec toc_list) as (h & roots & Hrun & Hi & Hr & Hc).
    exists h, roots.
    split; [exact Hrun|]. split; [exact Hi|]. split; [exact Hr|].
    split; [exact Hc|]. split.
    + intros i j. apply parent_spec_nearest.
    + intros j. apply parent_spec_no_lower.
Qed.

(** * Further properties *)

(** ** Heading-level clamp, for every bound *)

Lemma clamp_spec_type (max_level : Z) (n : cmark_node) :
  node_get_type (clamp_spec max_level n) = node_get_type n.
Proof.
  destruct n as [k line cs]. destruct_kind k lvl; try reflexivity.
  cbn. by destruct (lvl >? max_level).
Qed.

Lemma walk_unfold (k : node_kind) (line : Z) (cs : list cmark_node) :
  walk (Node k line cs)
  = (Node k line cs, true, node_get_type (Node k line cs))
    :: flat_map walk cs
    ++ [(Node k line cs, false, node_get_type (Node k line cs))].
Proof. reflexivity. Qed.

(** The walk over the clamped tree meets the clamped nodes, in the same
    order and phases and with the same types. *)
Lemma walk_clamp_spec (max_level : Z) (n : cmark_node) :
  walk (clamp_spec max_level n) = map (clamp_event max_level) (walk n).
Proof.
  induction n as [k line cs IH] using cmark_node_ind.
  rewrite (walk_unfold k line cs), map_cons, map_app. cbn [map clamp_event].
  set (n' := clamp_spec max_level (Node k line cs)).
  assert (Hty : node_get_type n' = node_get_type (Node k line cs))
    by apply clamp_spec_type.
  rewrite <- Hty.
  assert (Hw : walk n'
               = (n', true, node_get_type n')
                 :: flat_map walk (map (clamp_spec max_level) cs)
                 ++ [(n', false, node_get_type n')]) by reflexivity.
  rewrite Hw. f_equal. f_equal.
  clear -IH. induction IH as [|c cs Hc _ IHcs]; [done|].
  cbn [map flat_map]. by rewrite map_app, Hc, IHcs.
Qed.

Lemma clamp_event_shape (max_level : Z) (ev : event) :
  event_shape (clamp_event max_level ev) = event_shape ev.
Proof.
  destruct ev as [[[k line cs] entering] node_type].
  unfold event_shape, clamp_event. f_equal.
  destruct_kind k lvl; try reflexivity.
  cbn. by destruct (lvl >? max_level).
Qed.

(** X1. For every bound from 1 to 6 and every tree the clamp returns,
    without raising, the tree in which the headings above the bound have
    the bound as level; running it again changes nothing; no heading of the
    result is above the bound; and the walk over the result shows the same
    nodes as before: same order, types, source lines and string contents. *)
Theorem clamp_in_range :
  forall (max_level : Z) (root_node : cmark_node),
    1 <= max_level <= 6 ->
    MaxHeadingLevel_process_input root_node max_level
    = Ok (clamp_spec max_level root_node)
    /\ MaxHeadingLevel_process_input (clamp_spec max_level root_node) max_level
       = Ok (clamp_spec max_level root_node)
    /\ Forall (fun ev : event => get_heading_level ev.1.1 <= max_level)
         (walk (clamp_spec max_level root_node))
    /\ map event_shape (walk (clamp_spec max_level root_node))
       = map event_shape (walk root_node).
Proof.
  intros max_level root_node Hm.
  assert (Hrun : forall n, MaxHeadingLevel_process_input n max_level
                           = Ok (clamp_spec max_level n)).
  { intros n. unfold MaxHeadingLevel_process_input, enforce_max_heading_level.
    rewrite enforce_walk_ok by lia. reflexivity. }
  split; [apply Hrun|]. split; [by rewrite Hrun, clamp_spec_idempotent|].
  split; [apply clamp_spec_levels; lia|].
  rewrite walk_clamp_spec, map_map. apply map_ext. apply clamp_event_shape.
Qed.

Lemma clamp_in_range_witness :
  1 <= 2 <= 6
  /\ MaxHeadingLevel_process_input doc_h3 2 = Ok (clamp_spec 2 doc_h3).
Proof.
  assert (H : 1 <= 2 <= 6) by lia.
  split; [exact H|]. exact (proj1 (clamp_in_range 2 doc_h3 H)).
Defined.

Lemma enforce_children_raise (max_level : Z) (cs : list cmark_node) :
  Forall (fun n => Exists (fun ev : event => ev.2 = NODE_HEADING) (walk n) ->
                   walk_inplace (enforce_body max_level) n tt
                   = Raise ValueError) cs ->
  Exists (fun ev : event => ev.2 = NODE_HEADING) (flat_map walk cs) ->
  walk_inplace_list (enforce_body max_level) cs tt = Raise ValueError.
Proof.
  induction 1 as [|c cs Hc _ IH]; cbn [flat_map]; intros Hex.
  - by apply Exists_nil in Hex.
  - cbn [walk_inplace_list].
    destruct (Exists_dec (fun ev : event => ev.2 = NODE_HEADING) (walk c))
      as [Hyes|Hno].
    + by rewrite (Hc Hyes).
    + apply Exists_app in Hex as [Hex|Hex]; [done|].
      rewrite enforce_no_heading_keeps.
      * cbn [bind]. fold (walk_inplace_list (enforce_body max_level)).
        by rewrite (IH Hex).
      * apply Forall_Exists_neg. exact Hno.
Qed.

(** With a bound above 6 or below 0 the walk raises as soon as the tree
    holds a heading. *)
Lemma enforce_out_of_range_raises (max_level : Z) (n : cmark_node) :
  max_level > 6 \/ max_level < 0 ->
  Exists (fun ev : event => ev.2 = NODE_HEADING) (walk n) ->
  walk_inplace (enforce_body max_level) n tt = Raise ValueError.
Proof.
  intros Hm. induction n as [k line cs IH] using cmark_node_ind.
  rewrite walk_unfold, walk_inplace_unfold. intros Hex.
  assert (Hor : (max_level >? 6) || (max_level <? 0) = true).
  { apply orb_true_iff. lia. }
  destruct (decide (node_get_type (Node k line cs) = NODE_HEADING)) as [Hk|Hk].
  - unfold enforce_body at 1. rewrite Hk, Z.eqb_refl. cbn [andb].
    by rewrite Hor.
  - rewrite enforce_body_other by (cbn [andb]; by apply Z.eqb_neq).
    cbn [bind apply_edit].
    apply Exists_cons in Hex as [Hex|Hex]; [done|].
    apply Exists_app in Hex as [Hex|Hex].
    + by rewrite (enforce_children_raise max_level cs IH Hex).
    + apply Exists_cons in Hex as [Hex|Hex]; [done|]. by apply Exists_nil in Hex.
Qed.

(** X2. With a bound above 6 or below 0 the clamp raises [ValueError]
    exactly when the tree holds a heading; on a tree without headings it
    returns the tree. *)
Theorem clamp_out_of_range_iff_heading :
  forall (max_level : Z) (root_node : cmark_node),
    max_level > 6 \/ max_level < 0 ->
    (Exists (fun ev : event => ev.2 = NODE_HEADING) (walk root_node) ->
     MaxHeadingLevel_process_input root_node max_level = Raise ValueError)
    /\ (~ Exists (fun ev : event => ev.2 = NODE_HEADING) (walk root_node) ->
        MaxHeadingLevel_process_input root_node max_level = Ok root_node).
Proof.
  intros max_level root_node Hm.
  unfold MaxHeadingLevel_process_input, enforce_max_heading_level. split.
  - intros Hex. by rewrite enforce_out_of_range_raises.
  - intros Hno. rewrite enforce_no_heading_keeps; [done|].
    apply Forall_Exists_neg. exact Hno.
Qed.

Lemma clamp_out_of_range_iff_heading_witness :
  (7 > 6 \/ 7 < 0)
  /\ MaxHeadingLevel_process_input doc_h3 7 = Raise ValueError.
Proof.
  assert (H : 7 > 6 \/ 7 < 0) by (left; lia).
  split; [exact H|].
  apply (proj1 (clamp_out_of_range_iff_heading 7 doc_h3 H)).
  apply Exists_cons_tl, Exists_cons_hd. reflexivity.
Defined.

(** ** The clamp followed by the collection of headings *)

Lemma for_each_map_hom {S E : Type} (body : S -> E -> result S)
  (f : E -> E) (g : S -> S) :
  (forall s e, body (g s) (f e) = result_map g (body s e)) ->
  forall l s, for_each body (map f l) (g s) = result_map g (for_each body l s).
Proof.
  intros Hhom. induction l as [|e l IH]; intros s; [done|].
  cbn [map for_each]. rewrite Hhom. unfold result_map at 1.
  destruct (body s e) as [s'|err]; [|done]. cbn [bind]. apply IH.
Qed.

Lemma get_literal_clamp (max_level : Z) (n : cmark_node) :
  get_literal (clamp_spec max_level n) = get_literal n.
Proof.
  destruct n as [k line cs]. destruct_kind k lvl; try reflexivity.
  unfold get_literal, node_get_literal. cbn.
  by destruct (lvl >? max_level).
Qed.

Lemma get_heading_level_clamp (max_level : Z) (n : cmark_node) :
  0 <= max_level ->
  get_heading_level (clamp_spec max_level n)
  = if get_heading_level n >? max_level then max_level
    else get_heading_level n.
Proof.
  intros Hm. destruct n as [k line cs].
  destruct_kind k lvl; cbn; try (destruct (0 >? max_level) eqn:H0; [lia|done]).
  by destruct (lvl >? max_level).
Qed.

Lemma get_heading_info_loop_clamp max_level lvl line_no (evs : list event) :
  get_heading_info_loop (if lvl >? max_level then max_level else lvl) line_no
    (map (clamp_event max_level) evs)
  = result_map (fmap (cap_level max_level))
      (get_heading_info_loop lvl line_no evs).
Proof.
  induction evs as [|[[cur entering] node_type] evs IH]; [done|].
  cbn [map clamp_event get_heading_info_loop].
  destruct (entering && (node_type =? NODE_TEXT)); [|exact IH].
  rewrite get_literal_clamp. by destruct (get_literal cur).
Qed.

Lemma get_heading_info_clamp (max_level : Z) (n : cmark_node) :
  0 <= max_level ->
  get_heading_info (clamp_spec max_level n)
  = result_map (fmap (cap_level max_level)) (get_heading_info n).
Proof.
  intros Hm. unfold get_heading_info.
  rewrite (get_heading_level_clamp max_level n Hm), walk_clamp_spec.
  destruct n as [k line cs]. apply get_heading_info_loop_clamp.
Qed.

(** X3. For a bound from 1 to 6, collecting the headings of the clamped
    tree gives the records collected from the tree itself with their
    levels capped at the bound: same order, texts and line numbers, and an
    error exactly when there was one before. *)
Theorem get_headings_after_clamp :
  forall (max_level : Z) (document : cmark_node),
    1 <= max_level <= 6 ->
    (do clamped <- MaxHeadingLevel_process_input document max_level;
     get_headings clamped)
    = result_map (map (fmap (cap_level max_level))) (get_headings document).
Proof.
  intros max_level document Hm.
  unfold MaxHeadingLevel_process_input, enforce_max_heading_level.
  rewrite (enforce_walk_ok max_level Hm document). cbn [bind apply_edit].
  unfold get_headings. rewrite walk_clamp_spec.
  refine (for_each_map_hom _ (clamp_event max_level)
            (map (fmap (cap_level max_level))) _ (walk document) []).
  intros heads [[node entering] node_type]. cbn [clamp_event].
  destruct (negb entering && (node_type =? NODE_HEADING)); [|done].
  rewrite get_heading_info_clamp by lia.
  unfold result_map. destruct (get_heading_info node) as [i|e]; [|done].
  cbn [bind]. by rewrite map_app.
Qed.

Lemma get_headings_after_clamp_witness :
  1 <= 1 <= 6
  /\ (do clamped <- MaxHeadingLevel_process_input doc_h3 1;
      get_headings clamped)
     = Ok [Some (HeadingInfo 1 (PyStr (str "x")) 1)].
Proof.
  assert (H : 1 <= 1 <= 6) by lia.
  split; [exact H|].
  rewrite (get_headings_after_clamp 1 doc_h3 H). vm_compute. reflexivity.
Defined.

(** ** Running a hook *)

(** X4. A processor registered without an index runs last at its hook: it
    receives the document the processors registered before it have
    produced, and its data is recorded after theirs.  The run of the other
    hook is not affected by the registration. *)
Theorem run_processors_registered_last :
  forall (Doc D : Type) (data_truthy : D -> bool)
         (cm : CommonMark (Doc -> result (Doc * D)))
         (nm : pystr) (p : Doc -> result (Doc * D)) (e : entrypoint)
         (cm_data : gmap pystr D) (doc : Doc),
    (exists cm',
       _register_processor cm nm p e PyNone = Ok cm'
       /\ _run_processors data_truthy cm' cm_data doc e
          = (do st <- _run_processors data_truthy cm cm_data doc e;
             do '(doc', data) <- p st.1;
             Ok (doc', if data_truthy data then <[nm := data]> st.2 else st.2)))
    /\ forall e' index cm',
         e' <> e ->
         _register_processor cm nm p e index = Ok cm' ->
         _run_processors data_truthy cm' cm_data doc e'
         = _run_processors data_truthy cm cm_data doc e'.
Proof.
  intros. split.
  - eexists. split; [reflexivity|].
    unfold _run_processors.
    rewrite processors_set_eq, for_each_app.
    destruct (for_each _ _ _) as [[doc1 data1]|err]; [|done].
    cbn [bind for_each run_item processor name fst snd].
    destruct (p doc1) as [[doc2 data2]|err]; done.
  - intros e' index cm' Hne Hreg. unfold _run_processors.
    by rewrite (processors_register_other cm cm' e e' nm p index).
Qed.

Lemma run_item_frame {Doc D : Type} (data_truthy : D -> bool)
  (st st' : Doc * gmap pystr D) (it : item (Doc -> result (Doc * D))) :
  run_item data_truthy st it = Ok st' ->
  (forall k, k <> name it -> st'.2 !! k = st.2 !! k)
  /\ (forall k, is_Some (st.2 !! k) -> is_Some (st'.2 !! k)).
Proof.
  destruct st as [doc cm_data]. unfold run_item.
  destruct (processor it doc) as [[doc1 data]|err]; [|done]. cbn [bind].
  intros [= <-]. cbn [snd].
  destruct (data_truthy data); [|done]. split.
  - intros k Hk. by rewrite lookup_insert_ne.
  - intros k Hk. destruct (decide (name it = k)) as [->|Hne].
    + rewrite lookup_insert_eq. by eexists.
    + by rewrite lookup_insert_ne.
Qed.

(** X5. Running a hook only adds to or overwrites [self.data] under the
    names registered at that hook: the value under every other name is the
    one it was, and no name is ever removed. *)
Theorem run_processors_data_frame :
  forall (Doc D : Type) (data_truthy : D -> bool)
         (cm : CommonMark (Doc -> result (Doc * D))) (e : entrypoint)
         (cm_data : gmap pystr D) (doc : Doc) (st : Doc * gmap pystr D),
    _run_processors data_truthy cm cm_data doc e = Ok st ->
    (forall k, k ∉ names cm e -> st.2 !! k = cm_data !! k)
    /\ (forall k, is_Some (cm_data !! k) -> is_Some (st.2 !! k)).
Proof.
  intros Doc D data_truthy cm e cm_data doc st.
  unfold _run_processors, names.
  change cm_data with ((doc, cm_data).2) at 2 3.
  generalize (doc, cm_data). clear doc cm_data.
  induction (processors cm e) as [|it l IH]; intros st0; cbn [for_each].
  - intros [= <-]. by split.
  - destruct (run_item data_truthy st0 it) as [st1|err] eqn:Hit; [|done].
    cbn [bind]. intros Hrun.
    destruct (run_item_frame data_truthy st0 st1 it Hit) as [Hf Hs].
    destruct (IH st1 Hrun) as [Hf' Hs']. split.
    + intros k Hk. rewrite fmap_cons in Hk.
      apply not_elem_of_cons in Hk as [Hk1 Hk2].
      rewrite (Hf' k Hk2). by apply Hf.
    + intros k Hk. by apply Hs', Hs.
Qed.

Lemma run_processors_data_frame_witness :
  let p : nat -> result (nat * nat) := fun doc => Ok (S doc, doc) in
  let cm := MkCommonMark [Item (str "a") p] [] in
  register_text_processor new_CommonMark (str "a") p PyNone = Ok cm
  /\ _run_processors (fun d => negb (d =? 0)%nat) cm {[ str "b" := 7%nat ]}
    5%nat before_parse
  = Ok (6%nat, {[ str "a" := 5%nat; str "b" := 7%nat ]})
  /\ ({[ str "a" := 5%nat; str "b" := 7%nat ]} : gmap pystr nat) !! str "b"
     = ({[ str "b" := 7%nat ]} : gmap pystr nat) !! str "b".
Proof.
  intros p cm.
  assert (H : _run_processors (fun d => negb (d =? 0)%nat) cm
                {[ str "b" := 7%nat ]} 5%nat before_parse
              = Ok (6%nat, {[ str "a" := 5%nat; str "b" := 7%nat ]})).
  { vm_compute. reflexivity. }
  split; [reflexivity|]. split; [exact H|].
  apply (proj1 (run_processors_data_frame nat nat _ cm before_parse
                  {[ str "b" := 7%nat ]} 5%nat _ H)).
  vm_compute. intros Hin. apply list_elem_of_singleton in Hin. discriminate Hin.
Defined.

(** ** Registries: positions *)






(** ** The default loader of the metadata *)

Lemma split_aux_nonempty (sep : pystr) (s : pystr) :
  forall skip cur, split_aux sep skip cur s <> [].
Proof.
  induction s as [|c s IH]; intros skip cur; cbn [split_aux]; [done|].
  destruct skip; [|apply IH]. destruct (is_prefix sep (c :: s)); [done|apply IH].
Qed.

Lemma split_no_occ (sep : pystr) (s : pystr) :
  forall cur, occurs sep s = false -> split_aux sep 0 cur s = [rev cur ++ s].
Proof.
  induction s as [|c s IH]; intros cur; cbn [split_aux occurs].
  - intros _. by rewrite app_nil_r.
  - intros [Hp Ho]%orb_false_iff. rewrite Hp, (IH _ Ho). cbn [rev].
    by rewrite <- app_assoc.
Qed.

Lemma split_occ (sep : pystr) (s : pystr) :
  sep <> [] ->
  forall cur, occurs sep s = true ->
              exists a b r, split_aux sep 0 cur s = a :: b :: r.
Proof.
  intros Hsep. induction s as [|c s IH]; intros cur; cbn [split_aux occurs].
  - destruct sep; [done|]. cbn. discriminate.
  - destruct (is_prefix sep (c :: s)) eqn:Hp.
    + intros _.
      destruct (split_aux sep (length sep - 1) [] s) as [|b r] eqn:Hr.
      * by apply split_aux_nonempty in Hr.
      * by exists (rev cur), b, r.
    + cbn [orb]. apply IH.
Qed.

Lemma delimiter_or_default_nonempty (delimiter : option pystr) :
  delimiter_or_default delimiter <> [].
Proof. destruct delimiter as [[|c d]|]; done. Qed.

Lemma key_value_line_outcome (sep : pystr) (data : gmap pystr pystr)
  (line : pystr) :
  sep <> [] ->
  (line_without_delimiter sep line ->
   key_value_line sep data line = Raise IndexError)
  /\ (~ line_without_delimiter sep line ->
      exists data', key_value_line sep data line = Ok data').
Proof.
  intros Hsep. unfold key_value_line, line_without_delimiter, split.
  destruct (decide (strip line = [])) as [Hb|Hb].
  - rewrite bool_decide_eq_true_2 by done. split; [by intros [? _]|].
    intros _. by eexists.
  - rewrite bool_decide_eq_false_2 by done.
    destruct (occurs sep (strip line)) eqn:Ho.
    + destruct (split_occ sep (strip line) Hsep [] Ho) as (a & b & r & ->).
      split; [by intros [_ ?]|]. intros _. by eexists.
    + rewrite (split_no_occ sep (strip line) [] Ho).
      split; [done|]. intros H. destruct H. by split.
Qed.

Lemma for_lines_outcome (sep : pystr) (lines : list pystr) :
  sep <> [] ->
  forall data,
    (Exists (line_without_delimiter sep) lines ->
     for_lines sep data lines = Raise IndexError)
    /\ (~ Exists (line_without_delimiter sep) lines ->
        exists data', for_lines sep data lines = Ok data').
Proof.
  intros Hsep. induction lines as [|line lines IH]; intros data;
    cbn [for_lines].
  - split; [by intros ?%Exists_nil|]. intros _. by eexists.
  - destruct (key_value_line_outcome sep data line Hsep) as [Hbad Hok].
    split.
    + intros Hex.
      destruct (key_value_line sep data line) as [data1|e] eqn:Hl.
      * cbn [bind]. apply IH. apply Exists_cons in Hex as [Hex|Hex]; [|done].
        by specialize (Hbad Hex).
      * unfold key_value_line in Hl.
        destruct (bool_decide _); [done|].
        by destruct (split sep (strip line)) as [|? [|? ?]]; simplify_eq.
    + intros Hno.
      destruct Hok as (data1 & ->).
      { intros Hl. apply Hno. by left. }
      cbn [bind]. apply IH. intros Hex. apply Hno. by right.
Qed.

(** X8. On a [str] the default loader succeeds exactly when every line
    that is not blank holds the delimiter; otherwise it raises
    [IndexError].  Blank lines are skipped.  The delimiter is [':'] when
    none, or the empty one, is given. *)
Theorem key_value_to_dict_IndexError :
  forall (s : pystr) (delimiter : option pystr),
    let sep := delimiter_or_default delimiter in
    (Exists (line_without_delimiter sep) (split [LF] s) ->
     key_value_to_dict (PyStr s) delimiter = Raise IndexError)
    /\ (~ Exists (line_without_delimiter sep) (split [LF] s) ->
        exists data, key_value_to_dict (PyStr s) delimiter = Ok data).
Proof.
  intros s delimiter sep. unfold key_value_to_dict.
  change (match delimiter with Some (c :: d) => c :: d | _ => str ":" end)
    with sep.
  apply for_lines_outcome, delimiter_or_default_nonempty.
Qed.

Lemma is_prefix_char (c a : codepoint) (s : pystr) :
  is_prefix [c] (a :: s) = (c =? a)%N.
Proof. cbn. by rewrite andb_true_r. Qed.

Lemma occurs_char_false (c : codepoint) (s : pystr) :
  c ∉ s -> occurs [c] s = false.
Proof.
  induction s as [|a s IH]; [done|]. intros [Ha Hs]%not_elem_of_cons.
  cbn [occurs]. rewrite is_prefix_char, (IH Hs), orb_false_r.
  by apply N.eqb_neq.
Qed.

Lemma split_char_cons (c : codepoint) (k r : pystr) :
  c ∉ k ->
  forall cur, split_aux [c] 0 cur (k ++ c :: r)
              = (rev cur ++ k) :: split_aux [c] 0 [] r.
Proof.
  induction k as [|a k IH]; intros Hk cur; cbn [app split_aux].
  - rewrite is_prefix_char, N.eqb_refl. cbn [length Nat.sub].
    by rewrite app_nil_r.
  - apply not_elem_of_cons in Hk as [Ha Hk].
    rewrite is_prefix_char. replace (c =? a)%N with false
      by (symmetry; by apply N.eqb_neq).
    rewrite (IH Hk). cbn [rev]. by rewrite <- app_assoc.
Qed.

Lemma split_char_app (c : codepoint) (s1 s2 : pystr) :
  forall cur, split_aux [c] 0 cur (s1 ++ c :: s2)
              = split_aux [c] 0 cur s1 ++ split_aux [c] 0 [] s2.
Proof.
  induction s1 as [|a s1 IH]; intros cur; cbn [app split_aux].
  - rewrite is_prefix_char, N.eqb_refl. reflexivity.
  - rewrite !is_prefix_char. destruct (c =? a)%N.
    + cbn [length Nat.sub]. by rewrite IH.
    + apply IH.
Qed.

(** X9. How a line is cut: the key is the text before the first colon and
    the value the text between the first colon and the second, if there is
    one; the value is not trimmed, and what follows a second colon is
    dropped. *)
Theorem key_value_to_dict_fields :
  forall (k v tail line : pystr),
    line = k ++ [COLON] ++ v ++ tail ->
    tail = [] \/ (exists w, tail = COLON :: w) ->
    COLON ∉ k -> COLON ∉ v -> LF ∉ line -> strip line = line ->
    key_value_to_dict (PyStr line) None = Ok {[ k := v ]}.
Proof.
  intros k v tail line Hline Htail Hk Hv Hlf Hstrip.
  unfold key_value_to_dict, split.
  rewrite (split_no_occ [LF] line []) by (by apply occurs_char_false).
  cbn [rev app for_lines]. unfold key_value_line. rewrite Hstrip.
  assert (Hne : line <> []) by (rewrite Hline; by destruct k).
  rewrite bool_decide_eq_false_2 by done.
  unfold split. rewrite Hline. change (str ":") with [COLON].
  cbn [app]. rewrite (split_char_cons COLON k _ Hk). cbn [rev app].
  destruct Htail as [->|(w & ->)].
  - rewrite app_nil_r.
    rewrite (split_no_occ [COLON] v []) by (by apply occurs_char_false).
    reflexivity.
  - rewrite (split_char_cons COLON v w Hv). reflexivity.
Qed.

Lemma key_value_to_dict_fields_witness :
  let line := str "url: http://example.org" in
  line = str "url" ++ [COLON] ++ str " http" ++ (COLON :: str "//example.org")
  /\ key_value_to_dict (PyStr line) None = Ok {[ str "url" := str " http" ]}.
Proof.
  intros line.
  assert (H : line = str "url" ++ [COLON] ++ str " http"
                     ++ (COLON :: str "//example.org")) by reflexivity.
  split; [exact H|].
  apply (key_value_to_dict_fields (str "url") (str " http")
           (COLON :: str "//example.org") line H).
  - right. by eexists.
  - vm_compute. intros Hin. repeat (apply elem_of_cons in Hin as [Hin|Hin];
      [discriminate Hin|]). by apply elem_of_nil in Hin.
  - vm_compute. intros Hin. repeat (apply elem_of_cons in Hin as [Hin|Hin];
      [discriminate Hin|]). by apply elem_of_nil in Hin.
  - vm_compute. intros Hin. repeat (apply elem_of_cons in Hin as [Hin|Hin];
      [discriminate Hin|]). by apply elem_of_nil in Hin.
  - vm_compute. reflexivity.
Defined.

Lemma key_value_line_union (sep : pystr) (data : gmap pystr pystr)
  (line : pystr) :
  key_value_line sep data line
  = result_map (fun m => m ∪ data) (key_value_line sep ∅ line).
Proof.
  unfold key_value_line, result_map.
  destruct (bool_decide _); cbn [bind]; [by rewrite (left_id_L ∅ (∪))|].
  destruct (split sep (strip line)) as [|key [|value ?]]; cbn [bind]; try done.
  by rewrite <- insert_union_l, (left_id_L ∅ (∪)).
Qed.

Lemma for_lines_union (sep : pystr) (lines : list pystr) :
  forall data,
    for_lines sep data lines
    = result_map (fun m => m ∪ data) (for_lines sep ∅ lines).
Proof.
  induction lines as [|line lines IH]; intros data; cbn [for_lines].
  - unfold result_map. cbn [bind]. by rewrite (left_id_L ∅ (∪)).
  - rewrite key_value_line_union. unfold result_map at 1 2.
    destruct (key_value_line sep ∅ line) as [m1|e]; cbn [bind]; [|done].
    rewrite (IH (m1 ∪ data)), (IH m1). unfold result_map.
    destruct (for_lines sep ∅ lines) as [m|e]; cbn [bind]; [|done].
    by rewrite (assoc_L (∪)).
Qed.

Lemma for_lines_app (sep : pystr) (l1 l2 : list pystr) :
  forall data,
    for_lines sep data (l1 ++ l2)
    = (do data' <- for_lines sep data l1; for_lines sep data' l2).
Proof.
  induction l1 as [|line l1 IH]; intros data; cbn [app for_lines]; [done|].
  destruct (key_value_line sep data line); cbn [bind]; [apply IH|done].
Qed.

(** X10. The dictionary of two texts joined by a line feed is the union of
    their dictionaries in which, for a key of both, the value of the later
    text wins; it is an error when one of the two is. *)
Theorem key_value_to_dict_concat :
  forall (s1 s2 : pystr) (delimiter : option pystr),
    key_value_to_dict (PyStr (s1 ++ [LF] ++ s2)) delimiter
    = (do d1 <- key_value_to_dict (PyStr s1) delimiter;
       do d2 <- key_value_to_dict (PyStr s2) delimiter;
       Ok (d2 ∪ d1)).
Proof.
  intros s1 s2 delimiter. unfold key_value_to_dict, split. cbn [app].
  rewrite split_char_app, for_lines_app.
  destruct (for_lines _ ∅ (split_aux [LF] 0 [] s1)) as [d1|e]; cbn [bind];
    [|done].
  rewrite for_lines_union. unfold result_map.
  destruct (for_lines _ ∅ (split_aux [LF] 0 [] s2)); done.
Qed.

(** ** Strings handed to the C library and back *)

Lemma byte_val_of_N (n : N) : (n < 256)%N -> byte_val (byte_of_N n) = n.
Proof.
  intros Hn. unfold byte_val, byte_of_N.
  destruct (Byte.of_N n) as [b|] eqn:E.
  - by apply Byte.to_of_N.
  - apply Byte.of_N_None_iff in E. lia.
Qed.

Lemma utf8_decode_encode_cp (c : codepoint) (bs : list N) (r : list N) :
  utf8_encode_cp c = Some bs ->
  Forall (fun b => (b < 256)%N) bs
  /\ utf8_decode_aux (bs ++ r) 0 0%N 0%N
     = cons c <$> utf8_decode_aux r 0 0%N 0%N.
Proof.
  unfold utf8_encode_cp, is_surrogate.
  pose proof (N.div_mod' c 64) as H1.
  pose proof (N.mod_lt c 64 ltac:(done)) as H2.
  pose proof (N.div_mod' (c / 64) 64) as H3.
  pose proof (N.mod_lt (c / 64) 64 ltac:(done)) as H4.
  pose proof (N.div_mod' (c / 4096) 64) as H5.
  pose proof (N.mod_lt (c / 4096) 64 ltac:(done)) as H6.
  assert (H7 : (c / 4096 = c / 64 / 64)%N)
    by (by rewrite N.Div0.div_div).
  assert (H8 : (c / 262144 = c / 4096 / 64)%N)
    by (by rewrite N.Div0.div_div).
  set (q1 := (c / 64)%N) in *. set (m1 := (c mod 64)%N) in *.
  set (m2 := (q1 mod 64)%N) in *.
  set (q2 := (c / 4096)%N) in *. set (m3 := (q2 mod 64)%N) in *.
  set (q3 := (c / 262144)%N) in *.
  split_ifs; intros [= <-]; (split; [repeat constructor; bool_to_prop; lia|]);
    cbn [app utf8_decode_aux]; unfold is_cont, cont_bits, is_surrogate.
  - by rewrite Heqb.
  - split_ifs; bool_to_prop; try lia. f_equal. f_equal. lia.
  - split_ifs; bool_to_prop; try lia. f_equal. f_equal. lia.
  - split_ifs; bool_to_prop; try lia. f_equal. f_equal. lia.
Qed.

Lemma utf8_encode_cp_None (c : codepoint) :
  utf8_encode_cp c = None <-> encodable c = false.
Proof.
  unfold utf8_encode_cp, encodable, is_surrogate.
  split_ifs; bool_to_prop; split; try done; lia.
Qed.

Lemma utf8_encode_None (s : pystr) :
  utf8_encode s = None <-> forallb encodable s = false.
Proof.
  induction s as [|c s IH]; cbn [utf8_encode forallb]; [done|].
  rewrite andb_false_iff, <- IH, <- utf8_encode_cp_None.
  destruct (utf8_encode_cp c), (utf8_encode s); split; intros H;
    try done; try (by left); try (by right); by destruct H.
Qed.

Lemma utf8_decode_encode (s : pystr) (b : pybytes) :
  utf8_encode s = Some b -> utf8_decode b = Some s.
Proof.
  unfold utf8_decode. revert b.
  induction s as [|c s IH]; intros b; cbn [utf8_encode].
  - by intros [= <-].
  - destruct (utf8_encode_cp c) as [bs|] eqn:Hc; [|done].
    destruct (utf8_encode s) as [r|]; [|done]. intros [= <-].
    destruct (utf8_decode_encode_cp c bs (map byte_val r) Hc) as [Hbs Hd].
    rewrite map_app.
    replace (map byte_val (map byte_of_N bs)) with bs.
    + by rewrite Hd, (IH r eq_refl).
    + clear Hc Hd. induction Hbs as [|x bs Hx _ IHbs]; [done|].
      cbn [map]. by rewrite byte_val_of_N, <- IHbs.
Qed.

Lemma to_c_string_round_trip (s : pystr) :
  forallb encodable s = true ->
  exists b, to_c_string (PyStr s) = Ok (PyBytes b)
            /\ from_c_string (PyBytes b) = Ok (PyStr s).
Proof.
  intros Hs. unfold to_c_string, from_c_string.
  destruct (utf8_encode s) as [b|] eqn:Hb.
  - exists b. by rewrite (utf8_decode_encode s b Hb).
  - apply utf8_encode_None in Hb. congruence.
Qed.

(** X11. A string without surrogates is encoded by [to_c_string], and
    [from_c_string] gives the string back from the bytes; a string with a
    surrogate is refused with [UnicodeEncodeError]. *)
Theorem from_c_string_to_c_string :
  forall s : pystr,
    if forallb encodable s
    then exists b, to_c_string (PyStr s) = Ok (PyBytes b)
                   /\ from_c_string (PyBytes b) = Ok (PyStr s)
    else to_c_string (PyStr s) = Raise UnicodeEncodeError.
Proof.
  intros s. destruct (forallb encodable s) eqn:Hs.
  - by apply to_c_string_round_trip.
  - unfold to_c_string. apply utf8_encode_None in Hs. by rewrite Hs.
Qed.

(** X12. A text node or an html block made from a string holds that
    string: [get_literal] returns it, for every string without surrogates
    and without the code point 0 (a C string ends at its first zero
    byte). *)
Theorem get_literal_of_made_node :
  forall text : pystr,
    forallb encodable text = true -> 0%N ∉ text ->
    (exists node, make_text_node (PyStr text) = Ok node
                  /\ node_get_type node = NODE_TEXT
                  /\ get_literal node = Ok (PyStr text))
    /\ (exists node, make_html_node text = Ok node
                     /\ node_get_type node = NODE_HTML_BLOCK
                     /\ get_literal node = Ok (PyStr text)).
Proof.
  intros text Henc _.
  destruct (to_c_string_round_trip text Henc) as (b & Hto & Hfrom).
  unfold make_text_node, bytes_of_pyval, make_html_node. rewrite Hto.
  cbn [bind]. split; eexists; (split; [reflexivity|]); (split; [reflexivity|]);
    exact Hfrom.
Qed.

Lemma get_literal_of_made_node_witness :
  let text := [104; 233; 8364; 128512]%N in
  (exists node, make_text_node (PyStr text) = Ok node
                /\ node_get_type node = NODE_TEXT
                /\ get_literal node = Ok (PyStr text))
  /\ (exists node, make_html_node text = Ok node
                   /\ node_get_type node = NODE_HTML_BLOCK
                   /\ get_literal node = Ok (PyStr text)).
Proof.
  intros text. apply (get_literal_of_made_node text).
  - vm_compute. reflexivity.
  - vm_compute. intros Hin. repeat (apply elem_of_cons in Hin as [Hin|Hin];
      [discriminate Hin|]). by apply elem_of_nil in Hin.
Defined.

(** ** Table of contents: what the nesting keeps *)

Lemma concat_filter_absent (f : nat -> option nat) (j : nat) (l : list nat)
  (keys : list nat) :
  (forall i, i ∈ keys -> f j <> Some i) ->
  (fun i => filter (fun x => f x = Some i) (j :: l)) <$> keys
  = (fun i => filter (fun x => f x = Some i) l) <$> keys.
Proof.
  induction keys as [|i keys IH]; intros Hk; [done|]. cbn [fmap list_fmap].
  rewrite filter_cons_False by (apply Hk; by left).
  f_equal. apply IH. intros i' Hi'. apply Hk. by right.
Qed.

Lemma concat_filter_present (f : nat -> option nat) (j i0 : nat) (l : list nat)
  (keys : list nat) :
  NoDup keys -> i0 ∈ keys -> f j = Some i0 ->
  concat ((fun i => filter (fun x => f x = Some i) (j :: l)) <$> keys)
  ≡ₚ j :: concat ((fun i => filter (fun x => f x = Some i) l) <$> keys).
Proof.
  intros Hnd Hin Hj. induction Hnd as [|i keys Hi Hnd IH].
  - by apply elem_of_nil in Hin.
  - cbn [fmap list_fmap concat].
    destruct (decide (i = i0)) as [->|Hne].
    + rewrite filter_cons_True by done.
      rewrite concat_filter_absent; [done|].
      intros i' Hi' Heq. rewrite Hj in Heq. by simplify_eq.
    + rewrite filter_cons_False by (rewrite Hj; congruence).
      apply elem_of_cons in Hin as [->|Hin]; [done|].
      rewrite (IH Hin). by rewrite Permutation_middle.
Qed.

Lemma partition_by_key (f : nat -> option nat) (n : nat) (l : list nat) :
  (forall j i, j ∈ l -> f j = Some i -> (i < n)%nat) ->
  filter (fun j => f j = None) l
  ++ concat ((fun i => filter (fun j => f j = Some i) l) <$> seq 0 n)
  ≡ₚ l.
Proof.
  induction l as [|j l IH]; intros Hb.
  - rewrite filter_nil. cbn [app].
    replace (concat _) with (@nil nat); [done|].
    symmetry. induction (seq 0 n) as [|i keys IHk]; [done|].
    cbn [fmap list_fmap concat]. by rewrite filter_nil.
  - assert (Hb' : forall j' i, j' ∈ l -> f j' = Some i -> (i < n)%nat).
    { intros j' i Hj'. apply Hb. by right. }
    destruct (f j) as [i0|] eqn:Hj.
    + rewrite filter_cons_False by (by rewrite Hj).
      rewrite (concat_filter_present f j i0 l (seq 0 n)).
      * rewrite <- Permutation_middle. by rewrite (IH Hb').
      * apply NoDup_seq.
      * apply elem_of_seq. pose proof (Hb j i0 ltac:(by left) Hj). lia.
      * done.
    + rewrite filter_cons_True by done.
      rewrite concat_filter_absent by (intros i _; by rewrite Hj).
      cbn [app]. by rewrite (IH Hb').
Qed.

Lemma children_of_heap (toc_list : list heading_info) (h : heap) :
  info <$> h = toc_list ->
  children_ok toc_list h (length toc_list) ->
  children <$> h
  = (fun i => filter (fun j => parent_spec toc_list j = Some i)
                (seq 0 (length toc_list))) <$> seq 0 (length toc_list).
Proof.
  intros Hi Hc.
  assert (Hlen : length h = length toc_list)
    by (by rewrite <- Hi, length_fmap).
  apply list_eq. intros i. rewrite !list_lookup_fmap.
  destruct (h !! i) as [d|] eqn:Hd.
  - rewrite lookup_seq_lt by (apply lookup_lt_Some in Hd; lia).
    cbn. f_equal. by apply Hc.
  - rewrite lookup_seq_ge by (apply lookup_ge_None in Hd; lia). done.
Qed.

(** X13. [nest_toc_items] places every record exactly once.  The
    dictionaries at the end are those of the list, in its order and with
    the level, text and line they had: the dictionary at address [i] holds
    the [i]-th record.  The roots together with the lists of children of
    all dictionaries are a rearrangement of the addresses of the list, none
    lost and none twice. *)
Theorem nest_toc_items_places_once :
  forall toc_list : list heading_info,
    exists h roots,
      nest_toc_items toc_list = Ok (h, roots)
      /\ info <$> h = toc_list
      /\ length h = length toc_list
      /\ (forall i r, toc_list !! i = Some r ->
            exists d, h !! i = Some d /\ info d = r)
      /\ roots ++ concat (children <$> h) ≡ₚ seq 0 (length toc_list).
Proof.
  intros toc_list.
  destruct (nest_toc_items_spec toc_list) as (h & roots & Hrun & Hi & Hr & Hc).
  exists h, roots. split; [exact Hrun|]. split; [exact Hi|]. split; [|split].
  - by rewrite <- Hi, length_fmap.
  - intros i r Hr'. rewrite <- Hi, list_lookup_fmap in Hr'.
    destruct (h !! i) as [d|]; [|done]. injection Hr' as <-. by exists d.
  - rewrite (children_of_heap toc_list h Hi Hc), Hr. unfold roots_spec.
    apply partition_by_key. intros j i [_ Hj]%elem_of_seq Hp.
    apply nearest_below_lt in Hp. lia.
Qed.

Lemma StronglySorted_lt_seq (s n : nat) : StronglySorted lt (seq s n).
Proof.
  revert s. induction n as [|n IH]; intros s; cbn [seq]; constructor.
  - apply IH.
  - apply Forall_forall. intros x Hx%elem_of_seq. lia.
Qed.

Lemma StronglySorted_filter_impl {A : Type} (R R' : relation A)
  (P : A -> Prop) `{forall x, Decision (P x)} (l : list A) :
  (forall a b, P a -> P b -> R a b -> R' a b) ->
  StronglySorted R l -> StronglySorted R' (filter P l).
Proof.
  intros HR. induction 1 as [|x l Hl IH Hx]; [constructor|].
  rewrite filter_cons. destruct (decide (P x)) as [Hp|]; [|done].
  constructor; [done|].
  apply Forall_forall. intros y [Hy Hin]%list_elem_of_filter.
  apply HR; [done..|]. by eapply Forall_forall in Hx.
Qed.

(** X14. In the result of [nest_toc_items] a child comes later in the list
    than its parent and is deeper; the children of a record, and the roots,
    stand in the order of the list and their levels never increase from one
    to the next; the first record is the first root. *)
Theorem nest_toc_items_order :
  forall toc_list : list heading_info,
    exists h roots,
      nest_toc_items toc_list = Ok (h, roots)
      /\ (forall i d j, h !! i = Some d -> j ∈ children d ->
            (i < j)%nat /\ level_of h i < level_of h j)
      /\ (forall i d, h !! i = Some d ->
            StronglySorted (sibling_order h) (children d))
      /\ StronglySorted (sibling_order h) roots
      /\ (toc_list <> [] -> head roots = Some O).
Proof.
  intros toc_list.
  destruct (nest_toc_items_spec toc_list) as (h & roots & Hrun & Hi & Hr & Hc).
  exists h, roots. split; [exact Hrun|].
  assert (Hlv : forall j, level_of h j = lv toc_list j)
    by (intros j; by apply level_of_lv).
  split; [|split; [|split]].
  - intros i d j Hd Hj. rewrite (Hc i d Hd) in Hj.
    apply list_elem_of_filter in Hj as [Hp _].
    apply parent_spec_nearest in Hp as (Hlt & Hl & _).
    by rewrite !Hlv.
  - intros i d Hd. rewrite (Hc i d Hd).
    apply (StronglySorted_filter_impl lt); [|apply StronglySorted_lt_seq].
    intros a b Ha Hb Hab. split; [done|]. rewrite !Hlv.
    apply parent_spec_nearest in Ha as (Hia & _ & _).
    apply parent_spec_nearest in Hb as (_ & _ & Hk).
    apply Hk. lia.
  - rewrite Hr.
    apply (StronglySorted_filter_impl lt); [|apply StronglySorted_lt_seq].
    intros a b _ Hb Hab. split; [done|]. rewrite !Hlv.
    apply parent_spec_no_lower in Hb. by apply Hb.
  - intros Hne. rewrite Hr. unfold roots_spec.
    destruct toc_list as [|x rest_list]; [done|]. cbn [length seq].
    by rewrite filter_cons_True.
Qed.

(** ** Table of contents: what the injection leaves *)

Lemma make_html_node_inv (content : pystr) (n : cmark_node) :
  make_html_node content = Ok n -> exists b, n = Node (KHtmlBlock b) 0 [].
Proof.
  unfold make_html_node, to_c_string.
  destruct (utf8_encode content) as [b|]; [|done]. cbn [bind].
  intros [= <-]. by exists b.
Qed.

Lemma heading_attributes_body_enter (inject : bool) (max_depth : Z)
  (hl : list heading_info) (n : cmark_node) (ty : Z) :
  heading_attributes_body inject max_depth hl (n, true, ty) = Ok (hl, Keep n).
Proof. reflexivity. Qed.

Lemma heading_attributes_body_exit_other (inject : bool) (max_depth : Z)
  (hl : list heading_info) (n : cmark_node) :
  node_get_type n <> NODE_HEADING ->
  heading_attributes_body inject max_depth hl (n, false, node_get_type n)
  = Ok (hl, Keep n).
Proof.
  intros Hty. unfold heading_attributes_body.
  by replace (node_get_type n =? NODE_HEADING) with false by lia.
Qed.

Lemma heading_attributes_body_exit_heading (max_depth : Z)
  (hl hl' : list heading_info) (n : cmark_node) (e : edit) :
  heading_attributes_body true max_depth hl (n, false, NODE_HEADING)
  = Ok (hl', e) ->
  exists b, e = Replace (Node (KHtmlBlock b) 0 []).
Proof.
  unfold heading_attributes_body.
  change (negb false && (NODE_HEADING =? NODE_HEADING)) with true. cbv iota.
  destruct (if negb _ then _ else _) as [[t hs]|]; [|done]. cbn [bind].
  destruct (slugify t) as [slug|]; [|done]. cbn [bind].
  destruct t as [| |t|]; try done.
  destruct (make_html_node _) as [nn|] eqn:Hn; [|done]. cbn [bind].
  intros [= <- <-]. apply make_html_node_inv in Hn as [b ->]. by exists b.
Qed.

Lemma no_heading_node (k : node_kind) (line : Z) (cs : list cmark_node) :
  node_get_type (Node k line cs) <> NODE_HEADING ->
  Forall no_heading cs -> no_heading (Node k line cs).
Proof.
  intros Hty Hcs. unfold no_heading. rewrite walk_unfold.
  constructor; [done|]. apply Forall_app. split.
  - clear Hty. induction Hcs as [|c cs Hc _ IH]; [constructor|].
    cbn [flat_map]. apply Forall_app. by split.
  - by constructor.
Qed.

(** With [inject] the walk hands every heading to [replace_node]: what
    stands at the place of a node afterwards holds no heading, and it is a
    new node exactly when the node was a heading. *)
Lemma inject_walk_no_heading (max_depth : Z) (n : cmark_node) :
  forall hl hl' e,
    walk_inplace (heading_attributes_body true max_depth) n hl = Ok (hl', e) ->
    no_heading (apply_edit e)
    /\ (tree_after e = None <-> node_get_type n = NODE_HEADING).
Proof.
  induction n as [k line cs IH] using cmark_node_ind. intros hl hl' e.
  rewrite walk_inplace_unfold, heading_attributes_body_enter.
  cbn [bind apply_edit].
  destruct (walk_inplace_list _ cs hl) as [[hl2 cs']|] eqn:Hcs; [|done].
  cbn [bind].
  assert (Hno : Forall no_heading cs').
  { clear -IH Hcs. revert hl hl2 cs' Hcs.
    induction IH as [|c cs Hc _ IHcs]; intros hl hl2 cs'; cbn [walk_inplace_list].
    - intros [= <- <-]. constructor.
    - destruct (walk_inplace _ c hl) as [[hl1 e1]|] eqn:Hw; [|done].
      cbn [bind].
      destruct (walk_inplace_list _ cs hl1) as [[hl3 cs1]|] eqn:Hl; [|done].
      cbn [bind]. intros [= <- <-].
      constructor; [by apply (Hc _ _ _ Hw) | by apply (IHcs _ _ _ Hl)]. }
  change (node_get_type (Node k line cs')) with (node_get_type (Node k line cs)).
  destruct (decide (node_get_type (Node k line cs) = NODE_HEADING)) as [Hty|Hty].
  - rewrite Hty. intros [b ->]%heading_attributes_body_exit_heading.
    cbn [apply_edit tree_after]. split; [|done].
    apply no_heading_node; [done|constructor].
  - change (node_get_type (Node k line cs))
      with (node_get_type (Node k line cs')) in Hty |- *.
    rewrite heading_attributes_body_exit_other by done.
    intros [= <- <-]. cbn [apply_edit tree_after]. split.
    + by apply no_heading_node.
    + split; [done|]. intros H. by destruct Hty.
Qed.

Lemma get_headings_no_heading (evs : list event)
  (heads : list (option heading_info)) :
  Forall (fun ev : event => ev.2 <> NODE_HEADING) evs ->
  for_each
    (fun heads '(node, entering, node_type) =>
       if negb entering && (node_type =? NODE_HEADING) then
         do info <- get_heading_info node;
         Ok (heads ++ [info])
       else Ok heads)
    evs heads
  = Ok heads.
Proof.
  induction 1 as [|[[node entering] ty] evs Hty _ IH]; [done|].
  cbn [for_each]. cbn [snd] in Hty.
  replace (ty =? NODE_HEADING) with false by lia.
  rewrite andb_false_r. cbn [bind]. exact IH.
Qed.

(** X15. After [set_heading_attributes] with [inject], no heading is left
    in the tree: every heading has become an html block.  On that tree
    [MaxHeadingLevel] changes nothing and raises nothing, whatever the
    bound, and [get_headings] finds no heading.  The tree itself is lost
    exactly when the root is a heading. *)
Theorem inject_leaves_no_heading :
  forall (root_node : cmark_node) (max_depth : Z)
         (headings : list heading_info) (tree : option cmark_node),
    set_heading_attributes true root_node max_depth = Ok (headings, tree) ->
    (tree = None <-> node_get_type root_node = NODE_HEADING)
    /\ forall t, tree = Some t ->
         no_heading t
         /\ (forall max_level, MaxHeadingLevel_process_input t max_level = Ok t)
         /\ get_headings t = Ok [].
Proof.
  intros root_node max_depth headings tree. unfold set_heading_attributes.
  destruct (walk_inplace _ root_node []) as [[hl e]|] eqn:Hw; [|done].
  cbn [bind]. intros [= <- <-].
  destruct (inject_walk_no_heading _ _ _ _ _ Hw) as [Hno Hroot].
  split; [exact Hroot|]. intros t Ht.
  destruct e as [n|n]; [|done]. cbn in Ht. injection Ht as ->.
  cbn [apply_edit] in Hno. split; [exact Hno|]. split.
  - intros max_level.
    unfold MaxHeadingLevel_process_input, enforce_max_heading_level.
    by rewrite enforce_no_heading_keeps.
  - by apply get_headings_no_heading.
Qed.

Lemma inject_leaves_no_heading_witness :
  exists headings t,
    set_heading_attributes true doc_h3 2 = Ok (headings, Some t)
    /\ no_heading t
    /\ MaxHeadingLevel_process_input t 7 = Ok t
    /\ get_headings t = Ok [].
Proof.
  destruct (set_heading_attributes true doc_h3 2) as [[headings tree]|] eqn:H;
    [|vm_compute in H; discriminate H].
  destruct (inject_leaves_no_heading doc_h3 2 headings tree H) as [_ Ht].
  destruct tree as [t|]; [|vm_compute in H; discriminate H].
  exists headings, t. split; [reflexivity|].
  destruct (Ht t eq_refl) as (Hno & Hmax & Hget).
  split; [exact Hno|]. split; [apply Hmax | exact Hget].
Defined.

(** ** Table of contents: the list built from the nesting *)

Lemma item_node_unfold (i : heading_info) (items : list toc_item) :
  item_node slugify_str (TocItem i items)
  = (do slug <- slugify (text i);
     let href := str "#" ++ anchor_id (line_number i) slug in
     do anchor <- make_link (PyStr href) (text i) (text i);
     let list_item := Node KItem 0 [Node KParagraph 0 [anchor]] in
     match items with
     | [] => Ok list_item
     | _ :: _ =>
       do inner <- items_nodes slugify_str items make_list_node_unordered;
       Ok (append_child list_item inner)
     end).
Proof. reflexivity. Qed.

Lemma mapM_cons_Some {A B : Type} (f : A -> option B) (x : A) (l : list A)
  (k : list B) :
  mapM f (x :: l) = Some k ->
  exists y k', f x = Some y /\ mapM f l = Some k' /\ k = y :: k'.
Proof.
  cbn. destruct (f x) as [y|]; [|done]. cbn.
  destruct (mapM f l) as [k'|]; [|done]. cbn. intros [= <-]. by exists y, k'.
Qed.

(** The walk over the heap builds the items of the forest the heap holds. *)
Lemma build_toc_nodes_forest (h : heap) (fuel : nat) :
  forall toc forest parent_node,
    mapM (read_item fuel h) toc = Some forest ->
    build_toc_nodes (S fuel) h toc parent_node
    = items_nodes slugify_str forest parent_node.
Proof.
  induction fuel as [|fuel IH]; intros toc forest parent_node.
  - destruct toc as [|item toc]; [by intros [= <-]|done].
  - revert forest parent_node.
    induction toc as [|item toc IHtoc]; intros forest parent_node.
    + by intros [= <-].
    + intros (t & forest' & Ht & Hf & ->)%mapM_cons_Some.
      cbn [read_item] in Ht.
      destruct (h !! item) as [d|] eqn:Hd; [|done]. cbn in Ht.
      destruct (mapM (read_item fuel h) (children d)) as [items|] eqn:Hit;
        [|done].
      cbn in Ht. injection Ht as <-.
      cbn [items_nodes]. rewrite item_node_unfold.
      specialize (IHtoc forest' ). 
      change (build_toc_nodes (S (S fuel)) h (item :: toc) parent_node)
        with (do s' <-
                (match h !! item with
                 | None => Raise UseAfterFree
                 | Some d =>
                   let line_number := line_number (info d) in
                   let item_text := text (info d) in
                   do slug <- slugify item_text;
                   let href := str "#" ++ format_int line_number ++ str "-" ++ slug in
                   let paragraph := Node KParagraph 0 [] in
                   do anchor <- make_link (PyStr href) item_text item_text;
                   let list_item := Node KItem 0 [] in
                   let paragraph := append_child paragraph anchor in
                   let list_item := append_child list_item paragraph in
                   do list_item <-
                      (match children d with
                       | [] => Ok list_item
                       | _ :: _ =>
                         let inner_list := make_list_node_unordered in
                         do inner <- build_toc_nodes (S fuel) h (children d) inner_list;
                         Ok (append_child list_item inner)
                       end);
                   Ok (append_child parent_node list_item)
                 end);
              build_toc_nodes (S (S fuel)) h toc s').
      rewrite Hd. cbv zeta. unfold anchor_id.
      destruct (slugify (text (info d))) as [slug|]; [|done]. cbn [bind].
      destruct (make_link _ _ _) as [anchor|]; [|done]. cbn [bind append_child app].
      rewrite (IH (children d) items make_list_node_unordered Hit).
      assert (Hlen : length items = length (children d)).
      { symmetry. by eapply length_mapM. }
      destruct (children d) as [|c cs], items as [|t ts]; try done.
      * cbn [bind]. by apply IHtoc.
      * destruct (items_nodes slugify_str (t :: ts) make_list_node_unordered)
          as [inner|];
          [|done].
        cbn [bind]. by apply IHtoc.
Qed.

Lemma next_from_spec (lvl : nat -> Z) (L : Z) :
  forall fuel k,
    (k <= next_from lvl L k fuel <= k + fuel)%nat
    /\ (forall j, (k <= j < next_from lvl L k fuel)%nat -> L < lvl j)
    /\ ((next_from lvl L k fuel < k + fuel)%nat ->
        lvl (next_from lvl L k fuel) <= L).
Proof.
  induction fuel as [|fuel IH]; intros k; cbn [next_from].
  - split; [lia|]. split; [intros j ?; lia | intros ?; lia].
  - destruct (lvl k <=? L) eqn:E.
    + split; [lia|]. split; [intros j ?; lia | intros _; lia].
    + destruct (IH (S k)) as (H1 & H2 & H3). split; [lia|]. split.
      * intros j Hj. destruct (decide (j = k)) as [->|]; [lia|]. apply H2. lia.
      * intros Hlt. apply H3. lia.
Qed.

Lemma seq_cons_split (a c b : nat) :
  (a < c <= b)%nat ->
  seq a (b - a) = a :: seq (S a) (c - S a) ++ seq c (b - c).
Proof.
  intros H. replace (b - a)%nat with (S ((c - S a) + (b - c))) by lia.
  cbn [seq]. f_equal. rewrite seq_app. do 2 f_equal. lia.
Qed.

Lemma filter_seq_restrict (P : nat -> Prop) `{forall x, Decision (P x)}
  (n a len : nat) :
  (a + len <= n)%nat ->
  (forall j, (j < n)%nat -> P j -> (a <= j < a + len)%nat) ->
  filter P (seq 0 n) = filter P (seq a len).
Proof.
  intros Hn HP.
  replace n with (a + (len + (n - (a + len))))%nat at 1 by lia.
  rewrite !seq_app, !filter_app. cbn [Nat.add].
  rewrite (filter_none P (seq 0 a)), (filter_none P (seq (a + len) _)).
  - by rewrite app_nil_r.
  - apply Forall_forall. intros j Hj%elem_of_seq Hp.
    specialize (HP j ltac:(lia) Hp). lia.
  - apply Forall_forall. intros j Hj%elem_of_seq Hp.
    specialize (HP j ltac:(lia) Hp). lia.
Qed.

Lemma mapM_cons_eq {A B : Type} (f : A -> option B) (x : A) (l : list A)
  (y : B) (k : list B) :
  f x = Some y -> mapM f l = Some k -> mapM f (x :: l) = Some (y :: k).
Proof. intros H1 H2. cbn. rewrite H1. cbn. by rewrite H2. Qed.

Section Preorder.

Variable toc_list : list heading_info.

#[local] Abbreviation len := (length toc_list).
#[local] Abbreviation lv := (lv toc_list).
#[local] Abbreviation parent := (parent_spec toc_list).
#[local] Abbreviation send := (section_end toc_list).
#[local] Abbreviation between := (records_between toc_list).

Lemma section_end_spec (i : nat) :
  (i < len)%nat ->
  (i < send i <= len)%nat
  /\ (forall j, (i < j < send i)%nat -> lv i < lv j)
  /\ ((send i < len)%nat -> lv (send i) <= lv i).
Proof.
  intros Hi. unfold section_end.
  destruct (next_from_spec lv (lv i) (len - S i) (S i)) as (H1 & H2 & H3).
  split; [lia|]. split.
  - intros j Hj. apply H2. lia.
  - intros Hlt. apply H3. lia.
Qed.

(** Within the section of a record every record hangs below it. *)
Lemma parent_inside (i j : nat) :
  (i < len)%nat -> (i < j < send i)%nat ->
  exists p, parent j = Some p /\ (i <= p)%nat.
Proof.
  intros Hi Hj. destruct (section_end_spec i Hi) as (_ & Hin & _).
  specialize (Hin j Hj). destruct (parent j) as [p|] eqn:Hp.
  - exists p. split; [done|].
    apply parent_spec_nearest in Hp as (Hpj & Hl & Hk).
    destruct (decide (i <= p)%nat); [done|]. specialize (Hk i). lia.
  - apply parent_spec_no_lower in Hp. specialize (Hp i). lia.
Qed.

Lemma first_child (i : nat) :
  (i < len)%nat -> (S i < send i)%nat -> parent (S i) = Some i.
Proof.
  intros Hi Hlt. destruct (section_end_spec i Hi) as (_ & Hin & _).
  apply parent_spec_nearest. split; [lia|]. split.
  - apply Hin. lia.
  - intros k ?. lia.
Qed.

Lemma section_end_le (i j : nat) :
  (i < len)%nat -> (i < j < send i)%nat ->
  (send j <= send i)%nat.
Proof.
  intros Hi Hj. destruct (section_end_spec i Hi) as (Hi1 & Hi2 & Hi3).
  destruct (section_end_spec j ltac:(lia)) as (Hj1 & Hj2 & Hj3).
  destruct (decide (send j <= send i)%nat); [done|].
  specialize (Hi2 j Hj). specialize (Hj2 (send i)). lia.
Qed.

Lemma next_same_parent (i j : nat) :
  (i < len)%nat -> (i < j < send i)%nat -> parent j = Some i ->
  (send j < send i)%nat ->
  parent (send j) = Some i.
Proof.
  intros Hi Hj Hp Hlt. destruct (section_end_spec i Hi) as (Hi1 & Hi2 & Hi3).
  destruct (section_end_spec j ltac:(lia)) as (Hj1 & Hj2 & Hj3).
  apply parent_spec_nearest in Hp as (_ & Hlij & Hkj).
  apply parent_spec_nearest. split; [lia|]. split.
  - apply Hi2. lia.
  - intros k Hk. specialize (Hj3 ltac:(lia)).
    destruct (Nat.lt_total k j) as [Hlt'|[->|Hgt]].
    + specialize (Hkj k). lia.
    + lia.
    + specialize (Hj2 k). lia.
Qed.

Lemma next_root (j : nat) :
  (j < len)%nat -> parent j = None -> (send j < len)%nat ->
  parent (send j) = None.
Proof.
  intros Hj Hp Hlt. destruct (section_end_spec j Hj) as (Hj1 & Hj2 & Hj3).
  apply parent_spec_no_lower in Hp. apply parent_spec_no_lower.
  intros k Hk. specialize (Hj3 Hlt).
  destruct (Nat.lt_total k j) as [Hlt'|[->|Hgt]].
  - specialize (Hp k). lia.
  - lia.
  - specialize (Hj2 k). lia.
Qed.

(** From one sibling to the next: the records in between belong to the
    section of the first. *)
Lemma sibling_step (key : option nat) (a b : nat) :
  (forall p, key = Some p -> (p < a)%nat) ->
  (a < b)%nat -> (a < len)%nat -> (send a <= b)%nat ->
  parent a = key ->
  filter (fun j => parent j = key) (seq a (b - a))
  = a :: filter (fun j => parent j = key)
           (seq (send a) (b - send a)).
Proof.
  intros Hkey Hab Ha Hle Hp.
  destruct (section_end_spec a Ha) as (Ha1 & _ & _).
  rewrite (seq_cons_split a (send a) b) by lia.
  rewrite filter_cons_True by done. f_equal.
  rewrite filter_app, filter_none; [done|].
  apply Forall_forall. intros j Hj%elem_of_seq.
  destruct (parent_inside a j Ha ltac:(lia)) as (p & -> & Hap).
  intros <-. specialize (Hkey p eq_refl). lia.
Qed.

Lemma children_interval (i : nat) :
  (i < len)%nat ->
  filter (fun j => parent j = Some i) (seq 0 len)
  = filter (fun j => parent j = Some i) (seq (S i) (send i - S i)).
Proof.
  intros Hi. destruct (section_end_spec i Hi) as (Hi1 & Hi2 & Hi3).
  apply filter_seq_restrict; [lia|].
  intros j Hj (Hij & Hl & Hk)%parent_spec_nearest.
  split; [lia|].
  destruct (decide (j < send i)%nat); [lia|].
  specialize (Hi3 ltac:(lia)).
  destruct (decide (j = send i)) as [->|]; [lia|].
  specialize (Hk (send i)). lia.
Qed.

Lemma between_app (a c b : nat) :
  (a <= c <= b)%nat -> between a c ++ between c b = between a b.
Proof.
  intros H. unfold records_between.
  replace (drop c toc_list) with (drop (c - a) (drop a toc_list))
    by (rewrite drop_drop; f_equal; lia).
  rewrite take_take_drop. f_equal. lia.
Qed.

Lemma between_cons (i e : nat) (x : heading_info) :
  toc_list !! i = Some x -> (i < e)%nat ->
  between i e = x :: between (S i) e.
Proof.
  intros Hx Hie. unfold records_between. rewrite (drop_S _ x i) by done.
  by replace (e - i)%nat with (S (e - S i)) by lia.
Qed.

Variable h : heap.
Hypothesis Hinfo : info <$> h = toc_list.
Hypothesis Hch : children_ok toc_list h len.

(** Reading the siblings from [a] on, up to [b], gives trees whose records
    are those from [a] to [b]. *)
Lemma read_siblings (fuel : nat) (key : option nat) (a0 b : nat) :
  (forall j, (j < len)%nat -> (len - j <= fuel)%nat ->
     exists t, read_item fuel h j = Some t
               /\ flatten_item t = between j (send j)) ->
  (forall p, key = Some p -> (p < a0)%nat) ->
  (b <= len)%nat ->
  (forall j, (a0 <= j < b)%nat -> parent j = key ->
             (send j <= b)%nat) ->
  (forall j, (a0 <= j < b)%nat -> parent j = key ->
             (send j < b)%nat -> parent (send j) = key) ->
  (len - a0 <= fuel)%nat ->
  forall m a,
    (b - a <= m)%nat -> (a0 <= a <= b)%nat -> ((a < b)%nat -> parent a = key) ->
    exists items,
      mapM (read_item fuel h) (filter (fun j => parent j = key) (seq a (b - a)))
      = Some items
      /\ flat_map flatten_item items = between a b.
Proof.
  intros IHf Hkey Hb Hle Hnext Hfuel.
  assert (Hnil : forall a, a = b ->
            exists items,
              mapM (read_item fuel h)
                (filter (fun j => parent j = key) (seq a (b - a))) = Some items
              /\ flat_map flatten_item items = between a b).
  { intros a ->. exists []. unfold records_between.
    rewrite Nat.sub_diag. by rewrite take_0. }
  induction m as [|m IHm]; intros a Hm Ha Hpa.
  - apply Hnil. lia.
  - destruct (decide (a = b)) as [Heq|Hne]; [by apply Hnil|].
    assert (Hab : (a < b)%nat) by lia. specialize (Hpa Hab).
    assert (Halen : (a < len)%nat) by lia.
    destruct (section_end_spec a Halen) as (Ha1 & _ & _).
    assert (Hea : (send a <= b)%nat) by (apply Hle; [lia|done]).
    rewrite (sibling_step key a b); [|intros p Hp; specialize (Hkey p Hp); lia
                                     |done..].
    destruct (IHf a Halen ltac:(lia)) as (t & Ht & Hft).
    destruct (IHm (send a)) as (items & Hit & Hfi); [lia|lia| |].
    { intros Hlt. apply Hnext; [lia|done..]. }
    exists (t :: items). split.
    + by apply mapM_cons_eq.
    + cbn [flat_map]. rewrite Hft, Hfi. apply between_app. lia.
Qed.

Lemma read_item_flatten :
  forall fuel i,
    (i < len)%nat -> (len - i <= fuel)%nat ->
    exists t, read_item fuel h i = Some t
              /\ flatten_item t = between i (send i).
Proof.
  assert (Hlen : length h = len) by (by rewrite <- Hinfo, length_fmap).
  induction fuel as [|fuel IH]; intros i Hi Hf; [lia|].
  destruct (lookup_lt_is_Some_2 h i ltac:(lia)) as [d Hd].
  assert (Hx : toc_list !! i = Some (info d)).
  { by rewrite <- Hinfo, list_lookup_fmap, Hd. }
  destruct (section_end_spec i Hi) as (Hi1 & _ & _).
  destruct (read_siblings fuel (Some i) (S i) (send i) IH)
    with (m := (send i - S i)%nat) (a := S i)
    as (items & Hit & Hfl).
  - intros p [= <-]. lia.
  - lia.
  - intros j Hj _. apply section_end_le; [done|lia].
  - intros j Hj Hp Hlt. apply next_same_parent; [done|lia|done..].
  - lia.
  - lia.
  - lia.
  - intros Hlt. by apply first_child.
  - exists (TocItem (info d) items). split.
    + cbn [read_item]. rewrite Hd. cbn.
      rewrite (Hch i d Hd), (children_interval i Hi), Hit. done.
    + change (flatten_item (TocItem (info d) items))
        with (info d :: flat_map flatten_item items).
      rewrite Hfl. symmetry. apply between_cons; [done|lia].
Qed.

Lemma read_roots :
  exists forest,
    mapM (read_item (length h) h) (roots_spec toc_list len) = Some forest
    /\ flat_map flatten_item forest = toc_list.
Proof.
  assert (Hlen : length h = len) by (by rewrite <- Hinfo, length_fmap).
  rewrite Hlen. unfold roots_spec.
  destruct (read_siblings len None 0 len (read_item_flatten len))
    with (m := len) (a := O) as (forest & Hf & Hfl).
  - done.
  - lia.
  - intros j Hj _. destruct (section_end_spec j ltac:(lia)) as (? & _). lia.
  - intros j Hj Hp Hlt. apply next_root; [lia|done..].
  - lia.
  - lia.
  - lia.
  - intros Hlt. reflexivity.
  - exists forest. rewrite Nat.sub_0_r in Hf. split.
    { rewrite <- Hf. f_equal. by apply list_filter_iff. }
    rewrite Hfl. unfold records_between. rewrite drop_0, Nat.sub_0_r.
    by apply take_ge.
Qed.

End Preorder.

(** The forest of the nesting and the list built from it. *)
Lemma nest_forest (toc_list : list heading_info) :
  exists r forest,
    nest_toc_items toc_list = Ok r
    /\ read_forest r = Some forest
    /\ flat_map flatten_item forest = toc_list
    /\ toc_to_nodes r = items_nodes slugify_str forest make_list_node_unordered.
Proof.
  destruct (nest_toc_items_spec toc_list) as (h & roots & Hrun & Hi & Hr & Hc).
  destruct (read_roots toc_list h Hi Hc) as (forest & Hf & Hfl).
  exists (h, roots), forest. split; [exact Hrun|].
  unfold read_forest, toc_to_nodes. cbn [fst snd]. rewrite Hr.
  split; [exact Hf|]. split; [exact Hfl|].
  by apply build_toc_nodes_forest.
Qed.

(** X16. The nesting can be read back as a forest, and the records of that
    forest, a record before its children and the children from left to
    right, are the records of the list in their order.  [toc_to_nodes]
    builds the list items of exactly that forest: an item per record in
    the order of the document, the items of the children in a list below
    the item of their parent, the link of an item going to the line of
    its record and the slug of its text.  The slug is the one
    [slugify_str] gives where the text is made of ASCII characters; for
    other texts it depends on the Unicode tables of the runtime and is
    left open. *)
Theorem toc_in_document_order :
  forall toc_list : list heading_info,
    exists r forest slug_of,
      nest_toc_items toc_list = Ok r
      /\ read_forest r = Some forest
      /\ flat_map flatten_item forest = toc_list
      /\ slug_on_ascii slug_of
      /\ toc_to_nodes r = items_nodes slug_of forest make_list_node_unordered.
Proof.
  intros toc_list.
  destruct (nest_forest toc_list) as (r & forest & Hrun & Hread & Hflat & Htoc).
  exists r, forest, slugify_str. by repeat split.
Qed.

(** ** Table of contents: the identifiers the links point at *)

Lemma collect_texts_last (lvl line_no : Z) (evs : list event) :
  forall acc acc',
    for_each (collect_texts lvl line_no) evs acc = Ok acc' ->
    exists recs,
      acc'.2 = acc.2 ++ recs
      /\ Forall (fun r => level r = lvl /\ line_number r = line_no) recs
      /\ acc'.1 = default acc.1 (text <$> list.last recs).
Proof.
  induction evs as [|[[cur entering] ty] evs IH]; intros acc acc';
    cbn [for_each].
  - intros [= <-]. exists []. by rewrite app_nil_r.
  - unfold collect_texts at 1.
    destruct (entering && (ty =? NODE_TEXT)).
    + destruct (get_literal cur) as [t|]; [|done]. cbn [bind].
      intros (recs & H2 & Hall & H1)%IH. cbn [fst snd] in H1, H2.
      exists (HeadingInfo lvl t line_no :: recs). split; [|split].
      * by rewrite H2, <- app_assoc.
      * by constructor.
      * rewrite H1. destruct recs as [|r recs]; [done|].
        change (list.last (HeadingInfo lvl t line_no :: r :: recs))
          with (list.last (r :: recs)).
        destruct (list.last (r :: recs)) eqn:Hl; [done|].
        by apply last_None in Hl.
    + cbn [bind]. apply IH.
Qed.

(** X17. What the injection writes for a heading: the records collected
    for it are added to the list, all with the level and the line of the
    heading, none when the heading is deeper than [max_depth]; the heading
    is replaced by [<hLEVEL id=LINE-SLUG>TEXT</hLEVEL>] where TEXT is the
    text of the last of these records, the empty string when there is
    none, and SLUG a slug of it.  Where TEXT is made of ASCII characters
    SLUG is the slug [slugify_str] gives, the one the link of a record
    with that text carries; for other texts it depends on the Unicode
    tables of the runtime and is left open. *)
Theorem injected_id_of_last_record :
  forall (max_depth : Z) (headings_list headings_list' : list heading_info)
         (node : cmark_node) (e : edit),
    heading_attributes_body true max_depth headings_list
      (node, false, NODE_HEADING)
    = Ok (headings_list', e) ->
    exists recs title slug new_node,
      headings_list' = headings_list ++ recs
      /\ Forall (fun r => level r = get_heading_level node
                          /\ line_number r = get_start_line node) recs
      /\ (get_heading_level node > max_depth -> recs = [])
      /\ PyStr title = default (PyStr []) (text <$> list.last recs)
      /\ (ascii_text title -> slug = slugify_str title)
      /\ make_html_node
           (heading_html (get_heading_level node) (get_start_line node)
              slug title)
         = Ok new_node
      /\ e = Replace new_node.
Proof.
  intros max_depth hl hl' node e. unfold heading_attributes_body.
  change (negb false && (NODE_HEADING =? NODE_HEADING)) with true. cbv iota.
  set (lvl := get_heading_level node). set (line_no := get_start_line node).
  destruct (lvl >? max_depth) eqn:Hl; cbn [negb].
  - cbn [bind]. change (slugify (PyStr [])) with (Ok (slugify_str [])).
    cbn [bind].
    destruct (make_html_node _) as [nn|] eqn:Hn; [|done]. cbn [bind].
    intros [= <- <-]. exists [], [], (slugify_str []), nn.
    rewrite app_nil_r. by repeat split.
  - destruct (for_each _ _ _) as [[t hs]|] eqn:Hf; [|done]. cbn [bind].
    apply collect_texts_last in Hf as (recs & H2 & Hall & H1).
    cbn [fst snd] in H1, H2.
    destruct t as [| |title|]; try done.
    cbn [slugify bind].
    destruct (make_html_node _) as [nn|] eqn:Hn; [|done]. cbn [bind].
    intros [= <- <-]. exists recs, title, (slugify_str title), nn.
    repeat split; try done. lia.
Qed.

Lemma injected_id_of_last_record_witness :
  exists recs title slug new_node,
    [HeadingInfo 1 (PyStr (str "foo ")) 1; HeadingInfo 1 (PyStr (str "Bar")) 1]
    = [] ++ recs
    /\ PyStr title = default (PyStr []) (text <$> list.last recs)
    /\ (ascii_text title -> slug = slugify_str title)
    /\ make_html_node (heading_html 1 1 slug title) = Ok new_node
    /\ Replace (Node (KHtmlBlock (anchored "1" "1-bar" "Bar")) 0 [])
       = Replace new_node.
Proof.
  destruct (injected_id_of_last_record 6 []
              [HeadingInfo 1 (PyStr (str "foo ")) 1;
               HeadingInfo 1 (PyStr (str "Bar")) 1]
              (Node (KHeading 1) 1
                 [text_node "foo "; Node KEmph 1 [text_node "Bar"]])
              (Replace (Node (KHtmlBlock (anchored "1" "1-bar" "Bar")) 0 [])))
    as (recs & title & slug & new_node & H1 & _ & _ & H2 & H3 & H4 & H5).
  - vm_compute. reflexivity.
  - exists recs, title, slug, new_node. repeat split; assumption.
Defined.

(** ** Options *)







(** ** Slugs *)

Lemma replace_char_map (a b : codepoint) (s : pystr) :
  replace_char a b s = map (swap_char a b) s.
Proof. reflexivity. Qed.

Lemma foldl_replace_char (l : list codepoint) :
  forall text,
    foldl (fun t c => replace_char c UNDERSCORE t) text l
    = map (fun x => foldl (fun t c => if (t =? c)%N then UNDERSCORE else t) x l)
        text.
Proof.
  induction l as [|c l IH]; intros text; cbn [foldl].
  - by rewrite map_id.
  - rewrite IH. unfold replace_char. by rewrite map_map.
Qed.

Lemma slugify_str_stages (text : pystr) :
  slugify_str text
  = map (swap_char SPACE DASH)
      (strip (collapse_spaces false
                (map (swap_char UNDERSCORE SPACE)
                   (filter (fun c => is_word c = true) (map pre_char text))))).
Proof.
  unfold slugify_str. rewrite foldl_replace_char, map_map.
  by rewrite !replace_char_map.
Qed.

Lemma pre_char_eq (c : codepoint) :
  pre_char c
  = if ((lower_cp c =? 32) || (lower_cp c =? 45) || (lower_cp c =? 46)
        || (lower_cp c =? 47))%N
    then UNDERSCORE else lower_cp c.
Proof.
  unfold pre_char, SPACE, DASH, UNDERSCORE. cbn [foldl].
  set (c' := lower_cp c).
  destruct (N.eqb_spec c' 32) as [->|]; [reflexivity|].
  destruct (N.eqb_spec c' 45) as [->|]; [reflexivity|].
  destruct (N.eqb_spec c' 46) as [->|]; [reflexivity|].
  destruct (N.eqb_spec c' 47) as [->|]; reflexivity.
Qed.

Lemma lower_cp_ascii (c : codepoint) :
  (c < 128)%N -> is_word (lower_cp c) = true ->
  lower_cp c = UNDERSCORE \/ lower_alnum (lower_cp c) = true.
Proof.
  unfold lower_cp, is_word, lower_alnum, UNDERSCORE. intros Hc.
  destruct ((65 <=? c) && (c <=? 90))%N eqn:Hu; bool_to_prop;
    rewrite ?N.eqb_eq; lia.
Qed.

Lemma lower_alnum_facts (c : codepoint) :
  lower_alnum c = true ->
  lower_cp c = c /\ is_word c = true /\ is_space c = false
  /\ c <> SPACE /\ c <> DASH /\ c <> UNDERSCORE /\ c <> 46%N /\ c <> 47%N.
Proof.
  unfold lower_alnum, lower_cp, is_word, is_space, SPACE, DASH, UNDERSCORE.
  intros Hc. bool_to_prop.
  assert (Hu : ((65 <=? c) && (c <=? 90))%N = false)
    by (bool_to_prop; lia).
  rewrite Hu. repeat split; try lia; bool_to_prop; rewrite ?N.eqb_eq, ?N.eqb_neq;
    lia.
Qed.

Lemma pre_char_alnum (c : codepoint) :
  lower_alnum c = true -> pre_char c = c.
Proof.
  intros (Hl & _ & _ & H32 & H45 & _ & H46 & H47)%lower_alnum_facts.
  rewrite pre_char_eq, Hl.
  by rewrite !(proj2 (N.eqb_neq _ _)).
Qed.

Lemma swap_char_ne (a b c : codepoint) : c <> a -> swap_char a b c = c.
Proof. intros H. unfold swap_char. by rewrite (proj2 (N.eqb_neq _ _)). Qed.

Lemma swap_char_eq (a b : codepoint) : swap_char a b a = b.
Proof. unfold swap_char. by rewrite N.eqb_refl. Qed.

Lemma spaced_char_cases (c : codepoint) :
  spaced_char c = true -> c = SPACE \/ lower_alnum c = true.
Proof.
  unfold spaced_char. intros [H|H%N.eqb_eq]%orb_true_iff; [by right|by left].
Qed.

Lemma pre_char_spaced (c : codepoint) :
  (c < 128)%N -> is_word (pre_char c) = true ->
  spaced_char (swap_char UNDERSCORE SPACE (pre_char c)) = true.
Proof.
  intros Hc. rewrite pre_char_eq.
  destruct (_ || _); [reflexivity|]. intros Hw.
  destruct (lower_cp_ascii c Hc Hw) as [->|Ha]; [reflexivity|].
  destruct (lower_alnum_facts _ Ha) as (_ & _ & _ & _ & _ & H95 & _).
  rewrite swap_char_ne by done. unfold spaced_char. by rewrite Ha.
Qed.

Lemma spaced_char_space (c : codepoint) :
  spaced_char c = true -> is_space c = true -> c = SPACE.
Proof.
  unfold spaced_char, lower_alnum, is_space, SPACE.
  bool_to_prop. rewrite ?N.eqb_eq. lia.
Qed.

Lemma is_space_SPACE : is_space SPACE = true.
Proof. reflexivity. Qed.

Lemma collapse_spaces_spaced (s : pystr) :
  Forall (fun c => spaced_char c = true) s ->
  forall b,
    Forall (fun c => spaced_char c = true) (collapse_spaces b s)
    /\ no_double SPACE b (collapse_spaces b s) = true.
Proof.
  induction 1 as [|c s Hc _ IH]; intros b; cbn [collapse_spaces].
  - by split.
  - destruct (is_space c) eqn:Hs.
    + destruct b; [apply IH|].
      destruct (IH true) as [H1 H2]. split; [by constructor|].
      cbn [no_double]. by rewrite N.eqb_refl, H2.
    + destruct (IH false) as [H1 H2]. split; [by constructor|].
      cbn [no_double]. destruct (N.eqb_spec c SPACE) as [->|]; [done|].
      exact H2.
Qed.

Lemma collapse_spaces_id (s : pystr) :
  Forall (fun c => spaced_char c = true) s ->
  forall b, no_double SPACE b s = true -> collapse_spaces b s = s.
Proof.
  induction 1 as [|c s Hc _ IH]; intros b; cbn [collapse_spaces no_double].
  - done.
  - destruct (is_space c) eqn:Hs.
    + rewrite (spaced_char_space c Hc Hs), N.eqb_refl.
      destruct b; [done|]. cbn [negb andb]. intros H. by rewrite (IH true H).
    + destruct (N.eqb_spec c SPACE) as [->|]; [done|].
      intros H. by rewrite (IH false H).
Qed.

Lemma no_double_weaken (c : codepoint) (b : bool) (s : pystr) :
  no_double c b s = true -> no_double c false s = true.
Proof.
  destruct s as [|a s]; [done|]. cbn [no_double].
  destruct (a =? c)%N; [|done]. by intros [_ ->]%andb_true_iff.
Qed.

Lemma no_double_app_r (c : codepoint) (a m : pystr) :
  forall b, no_double c b (a ++ m) = true -> no_double c false m = true.
Proof.
  induction a as [|x a IH]; intros b; cbn [app].
  - apply no_double_weaken.
  - cbn [no_double]. destruct (x =? c)%N; [|apply IH].
    intros [_ H]%andb_true_iff. by apply IH in H.
Qed.

Lemma no_double_app_l (c : codepoint) (m t : pystr) :
  forall b, no_double c b (m ++ t) = true -> no_double c b m = true.
Proof.
  induction m as [|x m IH]; intros b; cbn [app no_double]; [done|].
  destruct (x =? c)%N; [|apply IH].
  intros [-> H]%andb_true_iff. by rewrite (IH true H).
Qed.

Lemma no_double_head (c : codepoint) (s : pystr) :
  no_double c false s = true -> head s <> Some c ->
  no_double c true s = true.
Proof.
  destruct s as [|a s]; [done|]. cbn [no_double head].
  destruct (N.eqb_spec a c) as [->|]; [|done]. by intros _ [].
Qed.

Lemma no_double_spec (c : codepoint) (s1 s2 : pystr) :
  forall b, no_double c b (s1 ++ c :: c :: s2) = false.
Proof.
  induction s1 as [|a s1 IH]; intros b; cbn [app no_double].
  - rewrite N.eqb_refl. cbn. by rewrite andb_false_r.
  - destruct (a =? c)%N; [|apply IH]. by rewrite IH, andb_false_r.
Qed.

Lemma lstrip_spec (s : pystr) :
  exists a, s = a ++ lstrip s
            /\ forall c, head (lstrip s) = Some c -> is_space c = false.
Proof.
  induction s as [|x s (a & Ha & Hh)]; cbn [lstrip].
  - by exists [].
  - destruct (is_space x) eqn:Hx.
    + exists (x :: a). split; [by rewrite Ha at 1|done].
    + exists []. split; [done|]. by intros c [= <-].
Qed.

Lemma lstrip_id (s : pystr) :
  (forall c, head s = Some c -> is_space c = false) -> lstrip s = s.
Proof.
  destruct s as [|x s]; [done|]. intros H. cbn [lstrip].
  by rewrite (H x eq_refl).
Qed.

Lemma head_rev {A : Type} (l : list A) : head (rev l) = list.last l.
Proof.
  induction l as [|x l IH] using rev_ind; [done|].
  by rewrite rev_app_distr, last_snoc.
Qed.

Lemma strip_spec (s : pystr) :
  exists a b,
    s = a ++ strip s ++ b
    /\ (forall c, head (strip s) = Some c -> is_space c = false)
    /\ (forall c, list.last (strip s) = Some c -> is_space c = false).
Proof.
  unfold strip. destruct (lstrip_spec s) as (a & Ha & Hh).
  destruct (lstrip_spec (rev (lstrip s))) as (a' & Ha' & Hh').
  set (t := lstrip s) in *. set (u := lstrip (rev t)) in *.
  assert (Ht : t = rev u ++ rev a').
  { by rewrite <- rev_app_distr, <- Ha', rev_involutive. }
  exists a, (rev a'). split; [by rewrite <- Ht|]. split.
  - intros c Hc. apply Hh. rewrite Ht.
    destruct (rev u); [done|exact Hc].
  - intros c Hc. apply Hh'. by rewrite <- head_rev, rev_involutive in Hc.
Qed.

Lemma strip_id (s : pystr) :
  (forall c, head s = Some c -> is_space c = false) ->
  (forall c, list.last s = Some c -> is_space c = false) ->
  strip s = s.
Proof.
  intros Hh Hl. unfold strip. rewrite (lstrip_id s Hh).
  rewrite lstrip_id; [apply rev_involutive|].
  intros c. rewrite head_rev. apply Hl.
Qed.

Lemma swap_space_dash (s : pystr) :
  Forall (fun c => spaced_char c = true) s ->
  Forall (fun c => slug_char c = true) (map (swap_char SPACE DASH) s)
  /\ (forall b, no_double DASH b (map (swap_char SPACE DASH) s)
                = no_double SPACE b s)
  /\ map (swap_char UNDERSCORE SPACE)
       (filter (fun c => is_word c = true)
          (map pre_char (map (swap_char SPACE DASH) s)))
     = s.
Proof.
  induction 1 as [|c s Hc _ (IH1 & IH2 & IH3)]; [done|].
  assert (Hsl : slug_char (swap_char SPACE DASH c) = true
                /\ ((swap_char SPACE DASH c =? DASH)%N = (c =? SPACE)%N)
                /\ is_word (pre_char (swap_char SPACE DASH c)) = true
                /\ swap_char UNDERSCORE SPACE (pre_char (swap_char SPACE DASH c))
                   = c).
  { destruct (spaced_char_cases c Hc) as [->|Ha]; [by vm_compute|].
    destruct (lower_alnum_facts c Ha) as (_ & Hw & _ & H32 & H45 & H95 & _).
    rewrite (swap_char_ne SPACE DASH c H32), (pre_char_alnum c Ha).
    rewrite (swap_char_ne UNDERSCORE SPACE c H95).
    unfold slug_char. rewrite Ha.
    by rewrite !(proj2 (N.eqb_neq _ _)). }
  destruct Hsl as (H1 & H2 & H3 & H4).
  cbn [map]. split; [by constructor|]. split.
  - intros b. cbn [no_double]. by rewrite H2, !IH2.
  - rewrite filter_cons_True by done. cbn [map]. by rewrite H4, IH3.
Qed.

Lemma no_double_head_ne (c : codepoint) (s : pystr) :
  no_double c true s = true -> head s <> Some c.
Proof.
  destruct s as [|a s]; [done|]. cbn [no_double head].
  intros H [= ->]. by rewrite N.eqb_refl in H.
Qed.

(** X19. The slug of a text of ASCII characters is made of lower-case
    letters, digits and dashes; it neither begins nor ends with a dash and
    holds no two dashes in a row; and it is its own slug. *)
Theorem slugify_ascii :
  forall text : pystr,
    Forall (fun c => (c < 128)%N) text ->
    let slug := slugify_str text in
    slugify (PyStr text) = Ok slug
    /\ Forall (fun c => slug_char c = true) slug
    /\ head slug <> Some DASH
    /\ list.last slug <> Some DASH
    /\ (forall s1 s2, slug <> s1 ++ DASH :: DASH :: s2)
    /\ slugify (PyStr slug) = Ok slug.
Proof.
  intros text Hascii slug. split; [reflexivity|].
  assert (Hidem : slugify_str slug = slug -> slugify (PyStr slug) = Ok slug).
  { intros H. cbn [slugify]. by rewrite H. }
  pose proof (slugify_str_stages text) as Hslug. fold slug in Hslug.
  clearbody slug.
  set (s4 := map (swap_char UNDERSCORE SPACE)
               (filter (fun c => is_word c = true) (map pre_char text))) in *.
  subst slug.
  assert (H4 : Forall (fun c => spaced_char c = true) s4).
  { apply Forall_fmap, Forall_forall.
    intros c [Hw (c0 & -> & Hc0)%list_elem_of_fmap]%list_elem_of_filter.
    apply pre_char_spaced; [|done].
    by eapply Forall_forall in Hascii. }
  destruct (collapse_spaces_spaced s4 H4 false) as [H5 H5n].
  set (s5 := collapse_spaces false s4) in *.
  destruct (strip_spec s5) as (a & b & Hs5 & Hhead & Hlast).
  set (s6 := strip s5) in *.
  assert (H6 : Forall (fun c => spaced_char c = true) s6).
  { rewrite Hs5 in H5. apply Forall_app in H5 as [_ H5].
    by apply Forall_app in H5 as [H5 _]. }
  assert (H6n : no_double SPACE false s6 = true).
  { rewrite Hs5 in H5n. apply no_double_app_r in H5n.
    by apply no_double_app_l in H5n. }
  assert (H6t : no_double SPACE true s6 = true).
  { apply no_double_head; [done|]. intros Hh. by apply Hhead in Hh. }
  destruct (swap_space_dash s6 H6) as (S1 & S2 & S3).
  assert (H7t : no_double DASH true (map (swap_char SPACE DASH) s6) = true)
    by (by rewrite S2).
  split; [exact S1|]. split; [by apply no_double_head_ne|]. split; [|split].
  - change (list.last (swap_char SPACE DASH <$> s6) <> Some DASH).
    rewrite fmap_last. destruct (list.last s6) as [c|] eqn:Hl; [|done].
    cbn. intros [= Hc]. specialize (Hlast c eq_refl).
    assert (Hsp : spaced_char c = true).
    { eapply Forall_forall in H6; [exact H6|]. by apply last_Some_elem_of. }
    destruct (spaced_char_cases c Hsp) as [->|Ha]; [done|].
    destruct (lower_alnum_facts c Ha) as (_ & _ & _ & H32 & H45 & _).
    by rewrite swap_char_ne in Hc.
  - intros s1 s2 Heq. rewrite Heq, no_double_spec in H7t. done.
  - apply Hidem. rewrite slugify_str_stages, S3.
    rewrite (collapse_spaces_id s6 H6 false H6n).
    by rewrite (strip_id s6 Hhead Hlast).
Qed.

Lemma slugify_ascii_witness :
  slugify (PyStr (str "Hello, World!")) = Ok (str "hello-world")
  /\ slugify (PyStr (str "hello-world")) = Ok (str "hello-world").
Proof.
  assert (H : Forall (fun c => (c < 128)%N) (str "Hello, World!")).
  { vm_compute. repeat constructor. }
  destruct (slugify_ascii (str "Hello, World!") H) as (H1 & _ & _ & _ & _ & H2).
  split; [exact H1 | exact H2].
Defined.

(** ** The metadata extractor: what is left of the text *)

Lemma rep_loop_from_k body (greedy : bool) (min : nat) :
  from_k body ->
  forall fuel count last,
    from_k (fun st k => rep_loop body greedy min fuel count last st k).
Proof.
  intros Hbody. induction fuel as [|fuel IH]; intros count last st k m;
    cbn [rep_loop]; [done|].
  assert (Hiter : forall last',
            body st (fun st1 => rep_loop body greedy min fuel (S count) last' st1 k)
            = Matched m ->
            exists st1, k st1 = Matched m
                        /\ (pos st1 + length (rest st1)
                            = pos st + length (rest st))%nat).
  { intros last' (st1 & H1 & Hp1)%Hbody.
    apply IH in H1 as (st2 & H2 & Hp2). exists st2. split; [done|lia]. }
  destruct (count <? min)%nat; [apply Hiter|].
  destruct greedy.
  - destruct (may_iterate last st).
    + destruct (body st _) as [m'| |] eqn:E; [|by exists st|done].
      intros [= <-]. by apply Hiter in E.
    + by exists st.
  - destruct (k st) as [m'| |] eqn:E; [intros [= <-]; by exists st| |done].
    destruct (may_iterate last st); [apply Hiter|done].
Qed.

Lemma re_match_from_k (r : regex) : from_k (re_match r).
Proof.
  induction r as [p| |r1 IH1 r2 IH2|greedy min r1 IH1|n r1 IH1];
    intros st k m; cbn [re_match].
  - destruct (rest st) as [|c tl] eqn:Hr; [done|].
    destruct (p c); [|done]. intros H. eexists. split; [exact H|].
    cbn. lia.
  - destruct (at_bol st); [|done]. by exists st.
  - intros (st1 & H1 & Hp1)%IH1. apply IH2 in H1 as (st2 & H2 & Hp2).
    exists st2. split; [done|lia].
  - apply (rep_loop_from_k _ _ _ IH1).
  - intros (st1 & H1 & Hp1)%IH1. eexists. split; [exact H1|]. exact Hp1.
Qed.

Lemma rep_loop_no_NoMatch body (min : nat) (k : mstate -> outcome) :
  (forall s, k s <> NoMatch) ->
  forall fuel count last st,
    (min <= count)%nat ->
    rep_loop body true min fuel count last st k <> NoMatch.
Proof.
  intros Hk fuel count last st Hc. destruct fuel as [|fuel]; [done|].
  cbn [rep_loop].
  replace (count <? min)%nat with false by (symmetry; apply Nat.ltb_ge; lia).
  destruct (may_iterate last st); [|apply Hk].
  destruct (body st _) eqn:E; [done|apply Hk|done].
Qed.

Lemma star_greedy (p : codepoint -> bool) (k : mstate -> outcome) :
  (forall s, k s <> NoMatch) ->
  forall s i pv cs fuel count last,
    (length s < fuel)%nat ->
    may_iterate last (MState i pv s cs) = true ->
    rep_loop (re_match (RSet p)) true 0 fuel count last (MState i pv s cs) k
    = k (skip_while p i pv s cs).
Proof.
  intros Hk. induction s as [|c tl IH]; intros i pv cs fuel count last Hf Hm;
    (destruct fuel as [|fuel]; [cbn in Hf; lia|]);
    cbn [rep_loop]; change (count <? 0)%nat with false; cbv iota; rewrite Hm;
    cbn [re_match rest skip_while]; [done|].
  destruct (p c); [|done]. cbn [pos caps].
  rewrite IH.
  - destruct (k _) eqn:E; [done| |done]. by apply Hk in E.
  - cbn in Hf. lia.
  - unfold may_iterate. cbn [pos].
    apply negb_true_iff, Nat.eqb_neq. lia.
Qed.

Lemma star_re_match (p : codepoint -> bool) (k : mstate -> outcome)
  (st : mstate) :
  (forall s, k s <> NoMatch) ->
  re_match (star (RSet p)) st k = k (skip p st).
Proof.
  intros Hk. destruct st as [i pv s cs]. unfold star, skip.
  cbn [re_match pos prev rest caps].
  apply star_greedy; [done|cbn; lia|done].
Qed.

Lemma skip_while_facts (p : codepoint -> bool) :
  forall s i pv cs,
    let st' := skip_while p i pv s cs in
    (pos st' + length (rest st') = i + length s)%nat
    /\ (i <= pos st')%nat
    /\ rest st' = drop (pos st' - i) s
    /\ caps st' = cs
    /\ (forall c, head (rest st') = Some c -> p c = false).
Proof.
  induction s as [|c tl IH]; intros i pv cs; cbn [skip_while].
  - cbn [pos rest caps length head]. rewrite drop_nil.
    repeat split; try lia; done.
  - destruct (p c) eqn:Hp.
    + destruct (IH (S i) (Some c) cs) as (H1 & H2 & H3 & H4 & H5).
      cbv zeta. repeat split; try lia; try done.
      * cbn [length]. lia.
      * rewrite H3.
        replace (pos (skip_while p (S i) (Some c) tl cs) - i)%nat
          with (S (pos (skip_while p (S i) (Some c) tl cs) - S i)) by lia.
        reflexivity.
    + cbn. rewrite Nat.sub_diag. repeat split; try lia; try done.
      by intros c' [= <-].
Qed.

Lemma next_chunk_facts (st : mstate) :
  (pos (next_chunk st) + length (rest (next_chunk st))
   = pos st + length (rest st))%nat
  /\ (rest st = [] ->
      rest (next_chunk st) = [] /\ pos (next_chunk st) = pos st)
  /\ (rest st <> [] -> (pos st < pos (next_chunk st))%nat).
Proof.
  unfold next_chunk, skip. cbn [set_cap pos rest].
  destruct st as [i pv s cs]. cbn [pos prev rest caps].
  destruct (skip_while_facts dot s i pv cs) as (A1 & A2 & A3 & A4 & A5).
  cbv zeta in *. set (st1 := skip_while dot i pv s cs) in *.
  destruct (skip_while_facts cr_or_lf (rest st1) (pos st1) (prev st1) (caps st1))
    as (B1 & B2 & B3 & B4 & B5).
  cbv zeta in *.
  set (st2 := skip_while cr_or_lf (pos st1) (prev st1) (rest st1) (caps st1))
    in *.
  split; [lia|]. split.
  - intros ->. cbn [length] in *.
    assert (length (rest st2) = 0%nat) by lia.
    split; [by apply nil_length_inv|lia].
  - intros Hne.
    destruct (decide (pos st2 = i)) as [Heq|]; [|lia]. exfalso.
    assert (H1 : pos st1 = i) by lia.
    rewrite Heq, H1, Nat.sub_diag in B3. rewrite H1, Nat.sub_diag in A3.
    cbn [drop] in A3, B3.
    destruct s as [|c tl]; [done|].
    assert (Hd : dot c = false) by (apply A5; by rewrite A3).
    assert (Hc : cr_or_lf c = false) by (apply B5; by rewrite B3, A3).
    unfold dot, cr_or_lf in *.
    destruct (c =? LF)%N; [by rewrite orb_true_r in Hc|done].
Qed.

Lemma group5_greedy (k : mstate -> outcome) (st : mstate) :
  (forall s, k s <> NoMatch) ->
  re_match group5 st k = k (next_chunk st).
Proof.
  intros Hk. unfold group5, next_chunk.
  change (re_match (RGroup 5 (RCat (star (RSet dot)) (star (RSet cr_or_lf)))) st k)
    with (re_match (star (RSet dot)) st
            (fun st1 => re_match (star (RSet cr_or_lf)) st1
                          (fun st2 => k (set_cap 5 (pos st, pos st2) st2)))).
  assert (H2 : forall st1,
            re_match (star (RSet cr_or_lf)) st1
              (fun st2 => k (set_cap 5 (pos st, pos st2) st2))
            = k (set_cap 5 (pos st, pos (skip cr_or_lf st1)) (skip cr_or_lf st1))).
  { intros st1. apply (star_re_match cr_or_lf
                         (fun st2 => k (set_cap 5 (pos st, pos st2) st2))).
    intros s. apply Hk. }
  rewrite star_re_match; [apply H2|].
  intros s. rewrite H2. apply Hk.
Qed.

(** Group 4 is greedy and the pattern ends with it: its iterations run to
    the end of the text. *)
Lemma group4_to_end (k : mstate -> outcome) :
  (forall s, k s <> NoMatch) ->
  forall fuel count last st,
    (2 * length (rest st) + (if (count <? 1)%nat then 3 else 2) <= fuel)%nat ->
    (count = O -> last = None) ->
    ((1 <= count)%nat -> forall p, last = Some p -> pos st = p -> rest st = []) ->
    exists st',
      rep_loop (re_match group5) true 1 fuel count last st k = k st'
      /\ rest st' = []
      /\ pos st' = (pos st + length (rest st))%nat.
Proof.
  intros Hk. induction fuel as [|fuel IH]; intros count last st Hf H0 Hinv.
  { destruct (count <? 1)%nat; lia. }
  destruct (next_chunk_facts st) as (Hlen & Hend & Hprog).
  assert (Hmono : (pos st <= pos (next_chunk st))%nat).
  { destruct (rest st) as [|c tl] eqn:Hrest.
    - destruct (Hend eq_refl) as [_ ->]. lia.
    - assert (pos st < pos (next_chunk st))%nat by (by apply Hprog). lia. }
  cbn [rep_loop]. destruct (count <? 1)%nat eqn:Hc.
  - apply Nat.ltb_lt in Hc. assert (count = O) as -> by lia.
    rewrite group5_greedy
      by (intros s; apply rep_loop_no_NoMatch; [done|lia]).
    destruct (IH 1%nat last (next_chunk st)) as (st' & Hrun & Hr & Hp).
    + change (1 <? 1)%nat with false. cbv iota. lia.
    + done.
    + intros _ p Hl. rewrite H0 in Hl by lia. done.
    + exists st'. split; [done|]. split; [done|lia].
  - apply Nat.ltb_ge in Hc.
    destruct (may_iterate last st) eqn:Hm.
    + rewrite group5_greedy
        by (intros s; apply rep_loop_no_NoMatch; [done|lia]).
      assert (Hnext : exists st',
                rep_loop (re_match group5) true 1 fuel (S count) (Some (pos st))
                  (next_chunk st) k = k st'
                /\ rest st' = []
                /\ pos st' = (pos st + length (rest st))%nat).
      { destruct (rest st) as [|c tl] eqn:Hrest.
        - destruct (Hend eq_refl) as [Hr Hp].
          destruct fuel as [|fuel]; [cbn in Hf; lia|]. cbn [rep_loop].
          replace (S count <? 1)%nat with false
            by (symmetry; apply Nat.ltb_ge; lia).
          unfold may_iterate. rewrite Hp, Nat.eqb_refl. cbn [negb].
          exists (next_chunk st). split; [done|]. split; [done|].
          cbn [length]. lia.
        - assert (Hlt : (pos st < pos (next_chunk st))%nat)
            by (by apply Hprog).
          destruct (IH (S count) (Some (pos st)) (next_chunk st))
            as (st' & Hrun & Hr & Hp).
          + replace (S count <? 1)%nat with false
              by (symmetry; apply Nat.ltb_ge; lia).
            cbn [length] in *. lia.
          + done.
          + intros _ p [= <-] Hp. lia.
          + exists st'. split; [done|]. split; [done|]. lia. }
      destruct Hnext as (st' & -> & Hr & Hp).
      exists st'. split; [|done].
      destruct (k st') eqn:E; [done| |done]. by apply Hk in E.
    + exists st. split; [done|].
      destruct last as [p|]; [|done]. cbn in Hm.
      apply negb_false_iff, Nat.eqb_eq in Hm.
      rewrite (Hinv Hc p eq_refl Hm). cbn. split; [done|lia].
Qed.

Lemma search_from_start (r : regex) (s : pystr) :
  forall i pv m,
    search_from r i pv s = Matched m ->
    exists st0,
      re_match r st0 Matched = Matched m
      /\ (pos st0 + length (rest st0) = i + length s)%nat.
Proof.
  induction s as [|c s IH]; intros i pv m; cbn [search_from].
  - destruct (re_match r _ _) as [m'| |] eqn:E; [|done|done].
    intros [= <-]. eexists. split; [exact E|]. done.
  - destruct (re_match r _ _) as [m'| |] eqn:E; [| |done].
    + intros [= <-]. eexists. split; [exact E|]. done.
    + intros (st0 & H1 & H2)%IH. exists st0. split; [done|].
      cbn [length]. lia.
Qed.

(** Whenever the pattern finds a block, group 4 is all the text behind
    it. *)
Lemma patern_group4 (text : pystr) (m : mstate) :
  re_search patern text = Matched m ->
  exists i, (i <= length text)%nat /\ group text m 4 = PyStr (drop i text).
Proof.
  intros (st0 & H0 & Hp0)%search_from_start.
  change (re_match patern st0 Matched)
    with (re_match
            (RGroup 1
               (RCat (RRep true 3 (RSet (is_char DASH)))
               (RCat (RSet cr_or_lf)
               (RCat (RGroup 2
                        (RRep false 1
                           (RGroup 3
                              (RCat (star (RSet dot))
                              (RCat (star (RSet is_space))
                                    (RSet cr_or_lf))))))
               (RCat RBol
               (RCat (RRep true 3 (RSet (is_char DASH)))
                     (RSet cr_or_lf)))))))
            st0
            (fun st1 =>
               rep_loop (re_match group5) true 1
                 (1 + 2 * S (length (rest st1))) O None st1
                 (fun st2 => Matched (set_cap 4 (pos st1, pos st2) st2))))
    in H0.
  apply re_match_from_k in H0 as (st1 & H1 & Hp1).
  destruct (group4_to_end
              (fun st2 => Matched (set_cap 4 (pos st1, pos st2) st2))
              ltac:(done) (1 + 2 * S (length (rest st1)))%nat O None st1)
    as (st' & Hrun & Hr & Hp).
  - cbn. lia.
  - done.
  - lia.
  - rewrite Hrun in H1. injection H1 as <-.
    exists (pos st1). cbn [length] in *.
    assert (Hn : (pos st1 + length (rest st1) = length text)%nat) by lia.
    split; [lia|].
    unfold group, set_cap. cbn [caps]. rewrite lookup_insert_eq.
    unfold slice. f_equal. apply take_ge. rewrite length_drop. lia.
Qed.

(** X20. The metadata extractor only ever cuts at the front: whatever the
    loader, the text returned is the end of the text given, from some
    position on, and it is empty only when the text given is.  When a
    block is found, the text returned is group 4, unless that is empty:
    then, nothing following the block, the text given comes back with the
    block still in it. *)
Theorem extract_metadata_keeps_the_end :
  forall (D : Type) (loader : pyval -> result D) (text : pystr)
         (out : pyval) (data : D),
    Processor_call (ExtractMetadata_process_input loader) text
    = Ok (out, data) ->
    (exists before after,
       out = PyStr after /\ text = before ++ after
       /\ (after = [] -> text = []))
    /\ (forall m, re_search patern text = Matched m ->
          out = if decide (group text m 4 = PyStr []) then PyStr text
                else group text m 4).
Proof.
  intros D loader text out data.
  unfold Processor_call, ExtractMetadata_process_input.
  destruct (re_search patern text) as [m| |] eqn:Hs.
  - destruct (patern_group4 text m Hs) as (i & Hi & Hg). rewrite Hg.
    destruct (loader _) as [d|]; [|done]. cbn [bind].
    intros [= <- <-]. unfold or_doc, truthy.
    destruct (decide (drop i text = [])) as [He|Hne].
    + rewrite bool_decide_eq_true_2 by done. cbn [negb]. split.
      * by exists [], text.
      * intros m' [= <-]. rewrite Hg, He. by rewrite decide_True.
    + rewrite bool_decide_eq_false_2 by done. cbn [negb]. split.
      * exists (take i text), (drop i text).
        split; [done|]. split; [by rewrite take_drop|done].
      * intros m' [= <-]. rewrite Hg. rewrite decide_False; [done|].
        by intros [= ?].
  - destruct (loader _) as [d|]; [|done]. cbn [bind].
    intros [= <- <-]. split; [|done]. exists [], text. split; [|done].
    unfold or_doc, truthy. by destruct (bool_decide _).
  - destruct (loader _) as [d|]; [|done]. cbn [bind].
    intros [= <- <-]. split; [|done]. exists [], text. split; [|done].
    unfold or_doc, truthy. by destruct (bool_decide _).
Qed.

Lemma extract_metadata_keeps_the_end_witness :
  ExtractMetadata_call (nl "---" ++ nl "a:b" ++ nl "---")
  = Ok (PyStr (nl "---" ++ nl "a:b" ++ nl "---"), {[ str "a" := str "b" ]})
  /\ exists before after,
       PyStr (nl "---" ++ nl "a:b" ++ nl "---") = PyStr after
       /\ nl "---" ++ nl "a:b" ++ nl "---" = before ++ after
       /\ (after = [] -> nl "---" ++ nl "a:b" ++ nl "---" = []).
Proof.
  assert (H : ExtractMetadata_call (nl "---" ++ nl "a:b" ++ nl "---")
              = Ok (PyStr (nl "---" ++ nl "a:b" ++ nl "---"),
                    {[ str "a" := str "b" ]}))
    by (vm_compute; reflexivity).
  split; [exact H|].
  exact (proj1 (extract_metadata_keeps_the_end _ default_loader _ _ _ H)).
Defined.

(** ** Heading collectors: one entry for each heading *)

Lemma get_heading_info_loop_find (lvl line : Z) (evs : list event) :
  get_heading_info_loop lvl line evs
  = match find is_text_enter evs with
    | None => Ok None
    | Some ev => do text <- get_literal ev.1.1;
                 Ok (Some (HeadingInfo lvl text line))
    end.
Proof.
  induction evs as [|[[cur entering] ty] evs IH];
    cbn [get_heading_info_loop find]; [done|].
  unfold is_text_enter at 1.
  by destruct (entering && (ty =? NODE_TEXT)).
Qed.

Lemma get_heading_info_record (node : cmark_node) :
  get_heading_info node = heading_record node.
Proof.
  unfold get_heading_info, heading_record, first_text.
  rewrite get_heading_info_loop_find. by destruct (find _ _).
Qed.

Lemma heads_loop_mapM info_of (evs : list event) :
  forall heads,
    for_each (heads_body info_of) evs heads
    = result_map (app heads)
        (result_mapM info_of
           (omap (fun ev : event =>
                    let '(node, entering, node_type) := ev in
                    if negb entering && (node_type =? NODE_HEADING)
                    then Some node else None) evs)).
Proof.
  induction evs as [|[[node entering] ty] evs IH]; intros heads;
    cbn [for_each omap list_omap].
  - unfold result_map. cbn. by rewrite app_nil_r.
  - unfold heads_body at 1.
    destruct (negb entering && (ty =? NODE_HEADING)); cbn [bind].
    + cbn [result_mapM]. unfold result_map.
      destruct (info_of node) as [i|e]; [|done]. cbn [bind].
      rewrite IH. unfold result_map.
      destruct (result_mapM _ _) as [k|e]; [|done]. cbn [bind].
      by rewrite <- app_assoc.
    + apply IH.
Qed.

Lemma result_mapM_length {A B : Type} (f : A -> result B) (l : list A)
  (k : list B) :
  result_mapM f l = Ok k -> length k = length l.
Proof.
  revert k. induction l as [|x l IH]; intros k; cbn [result_mapM].
  - by intros [= <-].
  - destruct (f x) as [y|]; [|done]. cbn [bind].
    destruct (result_mapM f l) as [k'|]; [|done]. cbn [bind].
    intros [= <-]. cbn [length]. by rewrite (IH k').
Qed.

Lemma result_mapM_ext {A B : Type} (f g : A -> result B) (l : list A) :
  (forall x, f x = g x) -> result_mapM f l = result_mapM g l.
Proof.
  intros H. induction l as [|x l IH]; [done|]. cbn [result_mapM].
  by rewrite H, IH.
Qed.

(** X21. [get_headings] returns one entry for each heading of the
    document, in the order in which the walk leaves the headings: the
    level and the line of the heading with the text of the first text node
    below it, and [None] for a heading without text node.  It raises where
    the first of these texts cannot be decoded. *)
Theorem get_headings_one_entry_per_heading :
  forall document : cmark_node,
    get_headings document = result_mapM heading_record (headings_of document)
    /\ forall hs, get_headings document = Ok hs ->
                  length hs = length (headings_of document).
Proof.
  intros document.
  assert (H : get_headings document
              = result_mapM heading_record (headings_of document)).
  { change (get_headings document)
      with (for_each (heads_body get_heading_info) (walk document) []).
    rewrite heads_loop_mapM. unfold result_map, headings_of.
    rewrite (result_mapM_ext get_heading_info heading_record)
      by apply get_heading_info_record.
    destruct (result_mapM _ _); done. }
  split; [exact H|]. intros hs. rewrite H. apply result_mapM_length.
Qed.

Lemma heads_loop_none (evs : list event) :
  forall heads hs,
    for_each (heads_body get_heading_info) evs heads = Ok hs ->
    Forall (fun o => o = None) (drop (length heads) hs) ->
    for_each (heads_body collector_heading_info) evs heads = Ok hs.
Proof.
  induction evs as [|[[node entering] node_type] evs IH]; intros heads hs;
    cbn [for_each]; [done|].
  unfold heads_body at 1 3.
  destruct (negb entering && (node_type =? NODE_HEADING)); cbn [bind];
    [|apply IH].
  unfold collector_heading_info, get_heading_info.
  rewrite collector_heading_info_loop_rel.
  destruct (get_heading_info_loop _ _ _) as [[i|]|e]; cbn [bind]; try done.
  - intros Hrun Hall. exfalso.
    destruct (heads_loop_extends _ _ _ _ Hrun) as (tail & ->).
    rewrite <- (assoc_L (++)), drop_app_length in Hall. cbn [app] in Hall.
    by apply Forall_cons in Hall as [[=] _].
  - intros Hrun Hall. apply (IH _ _ Hrun).
    destruct (heads_loop_extends _ _ _ _ Hrun) as (tail & ->).
    rewrite drop_app_length.
    rewrite <- (assoc_L (++)), drop_app_length in Hall. cbn [app] in Hall.
    by apply Forall_cons in Hall as [_ ?].
Qed.

(** X22. Where the function of the module returns, the method of
    [HeadingCollector] returns the same list when no heading holds a text
    node, that is when every entry is [None], and raises [AttributeError]
    otherwise. *)
Theorem collector_returns_only_None :
  forall (document : cmark_node) (hs : list (option heading_info)),
    get_headings document = Ok hs ->
    HeadingCollector_get_headings document
    = if bool_decide (Forall (fun o => o = None) hs) then Ok hs
      else Raise AttributeError.
Proof.
  intros document hs Hrun. case_bool_decide as Hall.
  - by apply (heads_loop_none (walk document) [] hs Hrun).
  - apply not_Forall_Exists in Hall; [|apply _].
    apply Exists_exists in Hall as ([x|] & Hin & Hx); [|by destruct Hx].
    by apply (heads_loop_rel (walk document) [] hs x Hrun).
Qed.

Lemma collector_returns_only_None_witness :
  HeadingCollector_get_headings
    (Node KDocument 0 [Node (KHeading 1) 1 [Node (KCode (bytes_of "x")) 1 []]])
  = Ok [None].
Proof.
  apply (collector_returns_only_None
           (Node KDocument 0
              [Node (KHeading 1) 1 [Node (KCode (bytes_of "x")) 1 []]])
           [None]).
  vm_compute. reflexivity.
Defined.

(** ** Table of contents: the generator never fails on a parsed tree *)

Lemma utf8_decode_aux_encodable (bs : list N) :
  forall need acc lo s,
    utf8_decode_aux bs need acc lo = Some s -> encodable_str s.
Proof.
  unfold encodable_str.
  induction bs as [|b bs IH]; intros need acc lo s; cbn [utf8_decode_aux].
  - destruct need; [|done]. intros [= <-]. constructor.
  - destruct need as [|k].
    + destruct (b <? 128)%N eqn:Hb.
      * intros (s' & Hs' & ->)%fmap_Some. constructor; [|by eapply IH].
        unfold encodable, is_surrogate. bool_to_prop. lia.
      * destruct (_ && _); [apply IH|].
        destruct (_ && _); [apply IH|].
        destruct (_ && _); [apply IH|done].
    + destruct (is_cont b); [|done]. cbv zeta.
      destruct k as [|k]; [|apply IH].
      destruct (_ && _) eqn:Hc; [|done].
      intros (s' & Hs' & ->)%fmap_Some. constructor; [|by eapply IH].
      unfold encodable. apply andb_true_iff in Hc as [Hc1 Hc2].
      apply andb_true_iff in Hc1 as [_ Hc1]. by rewrite Hc1, Hc2.
Qed.

Lemma valid_event_literal (cur : cmark_node) (entering : bool) :
  valid_event (cur, entering, NODE_TEXT) = true ->
  exists s, get_literal cur = Ok (PyStr s) /\ encodable_str s.
Proof.
  unfold valid_event. change (NODE_TEXT =? NODE_TEXT) with true. cbv iota.
  destruct (get_literal cur) as [[| |s|]|] eqn:Hl; try done. intros _.
  exists s. split; [done|].
  unfold get_literal, from_c_string in Hl.
  destruct (node_get_literal cur) as [| | |b]; try done.
  destruct (utf8_decode b) as [s'|] eqn:Hd; [|done]. injection Hl as ->.
  by eapply utf8_decode_aux_encodable.
Qed.

Lemma encodable_small (c : codepoint) : (c < 2048)%N -> encodable c = true.
Proof. unfold encodable, is_surrogate. intros H. bool_to_prop. lia. Qed.

Lemma str_encodable (s : string) : encodable_str (str s).
Proof.
  eapply Forall_impl; [apply str_small|]. intros c. apply encodable_small.
Qed.

Lemma format_int_encodable (n : Z) : encodable_str (format_int n).
Proof. apply str_encodable. Qed.

Lemma encodable_str_app (s t : pystr) :
  encodable_str s -> encodable_str t -> encodable_str (s ++ t).
Proof. intros Hs Ht. apply Forall_app. by split. Qed.

Lemma encodable_str_forallb (s : pystr) :
  encodable_str s -> forallb encodable s = true.
Proof.
  intros Hs. apply forallb_forall. intros c Hc%list_elem_of_In.
  by eapply Forall_forall in Hs.
Qed.

Lemma lower_cp_encodable (c : codepoint) :
  encodable c = true -> encodable (lower_cp c) = true.
Proof.
  unfold lower_cp. destruct (_ && _) eqn:Hu; [|done]. intros _.
  apply encodable_small. bool_to_prop. lia.
Qed.

Lemma pre_char_encodable (c : codepoint) :
  encodable c = true -> encodable (pre_char c) = true.
Proof.
  intros Hc. rewrite pre_char_eq. destruct (_ || _); [reflexivity|].
  by apply lower_cp_encodable.
Qed.

Lemma swap_char_encodable (a b c : codepoint) :
  encodable b = true -> encodable c = true ->
  encodable (swap_char a b c) = true.
Proof. intros Hb Hc. unfold swap_char. by destruct (c =? a)%N. Qed.

Lemma collapse_spaces_encodable (s : pystr) :
  encodable_str s -> forall b, encodable_str (collapse_spaces b s).
Proof.
  induction 1 as [|c s Hc _ IH]; intros b; cbn [collapse_spaces];
    [constructor|].
  destruct (is_space c).
  - destruct b; [apply IH|]. constructor; [reflexivity|apply IH].
  - constructor; [done|apply IH].
Qed.

Lemma slugify_str_encodable (s : pystr) :
  encodable_str s -> encodable_str (slugify_str s).
Proof.
  intros Hs. rewrite slugify_str_stages. unfold encodable_str.
  apply Forall_fmap, Forall_forall. intros c Hc.
  apply swap_char_encodable; [reflexivity|]. revert c Hc. apply Forall_forall.
  set (s5 := collapse_spaces false _).
  assert (H5 : encodable_str s5).
  { apply collapse_spaces_encodable. apply Forall_fmap, Forall_forall.
    intros c [_ (c0 & -> & Hc0)%list_elem_of_fmap]%list_elem_of_filter.
    apply swap_char_encodable; [reflexivity|]. apply pre_char_encodable.
    by eapply Forall_forall in Hs. }
  destruct (strip_spec s5) as (a & b & Hs5 & _ & _).
  unfold encodable_str in H5. rewrite Hs5 in H5.
  apply Forall_app in H5 as [_ H5]. by apply Forall_app in H5 as [H5 _].
Qed.

Lemma to_c_string_ok (s : pystr) :
  encodable_str s -> exists b, to_c_string (PyStr s) = Ok (PyBytes b).
Proof.
  intros Hs%encodable_str_forallb.
  destruct (to_c_string_round_trip s Hs) as (b & Hb & _). by exists b.
Qed.

Lemma make_html_node_ok (content : pystr) :
  encodable_str content ->
  exists b, make_html_node content = Ok (Node (KHtmlBlock b) 0 []).
Proof.
  intros (b & Hb)%to_c_string_ok. exists b. unfold make_html_node.
  by rewrite Hb.
Qed.

Lemma make_link_ok (url title txt : pystr) :
  encodable_str url -> encodable_str title -> encodable_str txt ->
  exists u t x,
    make_link (PyStr url) (PyStr title) (PyStr txt)
    = Ok (Node (KLink u t) 0 [Node (KText x) 0 []]).
Proof.
  intros (u & Hu)%to_c_string_ok (t & Ht)%to_c_string_ok
    (x & Hx)%to_c_string_ok.
  exists u, t, x. unfold make_link, bytes_of_pyval. by rewrite Hu, Ht, Hx.
Qed.

Lemma collect_texts_ok (lvl line_no : Z) (evs : list event) :
  Forall (fun ev => valid_event ev = true) evs ->
  forall (t : pystr) (hl : list heading_info),
    encodable_str t -> Forall record_ok hl ->
    exists t' hl',
      for_each (collect_texts lvl line_no) evs (PyStr t, hl)
      = Ok (PyStr t', hl')
      /\ encodable_str t' /\ Forall record_ok hl'.
Proof.
  induction 1 as [|[[cur entering] ty] evs Hev _ IH]; intros t hl Ht Hhl;
    cbn [for_each].
  - by exists t, hl.
  - unfold collect_texts at 1.
    destruct (entering && (ty =? NODE_TEXT)) eqn:Hc; cbn [bind]; [|by apply IH].
    apply andb_true_iff in Hc as [_ Hty]. apply Z.eqb_eq in Hty. subst ty.
    destruct (valid_event_literal cur entering Hev) as (s & -> & Hs).
    cbn [bind snd]. apply IH; [done|].
    apply Forall_app. split; [done|]. constructor; [|constructor].
    by exists s.
Qed.

Lemma valid_event_kind (k : node_kind) (line line' : Z)
  (cs cs' : list cmark_node) (entering entering' : bool) :
  valid_event (Node k line cs, entering, node_get_type (Node k line cs)) = true ->
  valid_event (Node k line' cs', entering', node_get_type (Node k line' cs'))
  = true.
Proof. done. Qed.

Lemma valid_texts_node (k : node_kind) (line : Z) (cs : list cmark_node) :
  valid_texts (Node k line cs)
  <-> valid_event (Node k line cs, true, node_get_type (Node k line cs)) = true
      /\ Forall valid_texts cs.
Proof.
  unfold valid_texts. rewrite walk_unfold, Forall_cons, Forall_app. split.
  - intros (He & Hcs & _). split; [done|]. clear He.
    induction cs as [|c cs IH]; [constructor|].
    cbn [flat_map] in Hcs. apply Forall_app in Hcs as [Hc Hcs].
    constructor; [done|by apply IH].
  - intros (He & Hcs). split; [done|]. split.
    + clear He. induction Hcs as [|c cs Hc _ IH]; [constructor|].
      cbn [flat_map]. apply Forall_app. by split.
    + constructor; [|constructor]. exact He.
Qed.

Lemma valid_texts_html (b : pybytes) : valid_texts (Node (KHtmlBlock b) 0 []).
Proof. apply valid_texts_node. split; [reflexivity|constructor]. Qed.

(** The body of the loop at the Exit event of a node whose text nodes are
    valid. *)
Lemma heading_attributes_body_ok (inject : bool) (max_depth : Z)
  (hl : list heading_info) (n : cmark_node) :
  valid_texts n -> Forall record_ok hl ->
  exists hl' e,
    heading_attributes_body inject max_depth hl (n, false, node_get_type n)
    = Ok (hl', e)
    /\ Forall record_ok hl' /\ valid_texts (apply_edit e)
    /\ (node_get_type n <> NODE_HEADING -> e = Keep n).
Proof.
  intros Hn Hhl.
  destruct (decide (node_get_type n = NODE_HEADING)) as [Hty|Hty].
  2:{ exists hl, (Keep n).
      rewrite heading_attributes_body_exit_other by done. by repeat split. }
  rewrite Hty. unfold heading_attributes_body.
  change (negb false && (NODE_HEADING =? NODE_HEADING)) with true. cbv iota.
  set (lvl := get_heading_level n). set (line_no := get_start_line n).
  assert (Hloop : exists t' hl',
            (if negb (lvl >? max_depth)
             then for_each (collect_texts lvl line_no) (walk n) (PyStr [], hl)
             else Ok (PyStr [], hl))
            = Ok (PyStr t', hl')
            /\ encodable_str t' /\ Forall record_ok hl').
  { destruct (negb (lvl >? max_depth)).
    - apply collect_texts_ok; [exact Hn|constructor|done].
    - exists [], hl. repeat split; [constructor|done]. }
  destruct Hloop as (t' & hl' & -> & Ht' & Hhl'). cbn [bind slugify].
  destruct inject.
  - destruct (make_html_node_ok
                (str "<h" ++ format_int lvl ++ str " id=" ++ [QUOTE]
                 ++ (format_int line_no ++ str "-" ++ slugify_str t')
                 ++ [QUOTE] ++ str ">" ++ t' ++ str "</h" ++ format_int lvl
                 ++ str ">")) as (b & Hb).
    { repeat (apply encodable_str_app);
        try apply str_encodable; try apply format_int_encodable;
        try (by apply slugify_str_encodable); try done;
        by (constructor; [reflexivity|constructor]). }
    rewrite Hb. cbn [bind]. eexists _, _. split; [reflexivity|].
    split; [done|]. split; [apply valid_texts_html|]. by intros [].
  - eexists _, _. split; [reflexivity|]. by repeat split.
Qed.

(** The walk of [set_heading_attributes] over a tree whose text nodes are
    valid returns; the records it collects have texts that can be encoded
    again. *)
Lemma attributes_walk_ok (inject : bool) (max_depth : Z) (n : cmark_node) :
  valid_texts n ->
  forall hl,
    Forall record_ok hl ->
    exists hl' e,
      walk_inplace (heading_attributes_body inject max_depth) n hl
      = Ok (hl', e)
      /\ Forall record_ok hl' /\ valid_texts (apply_edit e)
      /\ (node_get_type n <> NODE_HEADING -> exists n', e = Keep n').
Proof.
  induction n as [k line cs IH] using cmark_node_ind. intros Hn hl Hhl.
  apply valid_texts_node in Hn as [He Hcs].
  rewrite walk_inplace_unfold, heading_attributes_body_enter.
  cbn [bind apply_edit].
  assert (Hlist : exists hl2 cs',
            walk_inplace_list (heading_attributes_body inject max_depth) cs hl
            = Ok (hl2, cs')
            /\ Forall record_ok hl2 /\ Forall valid_texts cs').
  { clear He. revert hl Hhl.
    induction IH as [|c cs Hc _ IHcs]; intros hl Hhl; cbn [walk_inplace_list].
    - exists hl, []. by repeat split.
    - apply Forall_cons in Hcs as [Hvc Hvcs].
      destruct (Hc Hvc hl Hhl) as (hl1 & e1 & -> & Hhl1 & Hv1 & _).
      cbn [bind].
      destruct (IHcs Hvcs hl1 Hhl1) as (hl2 & cs' & -> & Hhl2 & Hv2).
      cbn [bind]. exists hl2, (apply_edit e1 :: cs'). split; [done|].
      split; [done|]. by constructor. }
  destruct Hlist as (hl2 & cs' & -> & Hhl2 & Hcs'). cbn [bind].
  assert (Hn2 : valid_texts (Node k line cs')).
  { apply valid_texts_node. split; [|done].
    by apply (valid_event_kind k line line cs cs' true true). }
  destruct (heading_attributes_body_ok inject max_depth hl2 _ Hn2 Hhl2)
    as (hl' & e & Hrun & Hhl' & Hv & Hkeep).
  exists hl', e. split; [exact Hrun|]. split; [done|]. split; [done|].
  intros Hty. eexists. apply Hkeep. exact Hty.
Qed.

Lemma toc_item_ind (P : toc_item -> Prop) :
  (forall i items, Forall P items -> P (TocItem i items)) ->
  forall t, P t.
Proof.
  intros H. fix IH 1. intros [i items]. apply H.
  induction items as [|t items IHitems]; constructor; [apply IH|exact IHitems].
Qed.

Lemma items_nodes_ok (ts : list toc_item) :
  Forall (fun t => exists n, item_node slugify_str t = Ok n) ts ->
  forall k line cs,
    exists items,
      items_nodes slugify_str ts (Node k line cs)
      = Ok (Node k line (cs ++ items))
      /\ length items = length ts.
Proof.
  induction 1 as [|t ts (n & Hn) _ IH]; intros k line cs; cbn [items_nodes].
  - exists []. by rewrite app_nil_r.
  - rewrite Hn. cbn [bind append_child].
    destruct (IH k line (cs ++ [n])) as (items & -> & Hlen).
    exists (n :: items). rewrite <- app_assoc. cbn [app length].
    by rewrite Hlen.
Qed.

Lemma item_node_ok (t : toc_item) :
  Forall record_ok (flatten_item t) ->
  exists n, item_node slugify_str t = Ok n.
Proof.
  induction t as [i items IH] using toc_item_ind.
  change (flatten_item (TocItem i items))
    with (i :: flat_map flatten_item items).
  intros [(s & Hs & Henc) Hitems]%Forall_cons.
  rewrite item_node_unfold, Hs. cbn [slugify bind].
  destruct (make_link_ok
              (str "#" ++ anchor_id (line_number i) (slugify_str s)) s s)
    as (u & tt & x & ->); [|done|done|].
  { unfold anchor_id. repeat apply encodable_str_app;
      try apply str_encodable; try apply format_int_encodable.
    by apply slugify_str_encodable. }
  cbn [bind]. destruct items as [|t0 items0]; [by eexists|].
  destruct (items_nodes_ok (t0 :: items0)) with
    (k := KList CMARK_BULLET_LIST 1 0) (line := 0) (cs := @nil cmark_node)
    as (its & Hits & _).
  - clear -IH Hitems. revert Hitems.
    induction IH as [|t ts Ht _ IHts]; intros Hall; [constructor|].
    cbn [flat_map] in Hall. apply Forall_app in Hall as [H1 H2].
    constructor; [by apply Ht|by apply IHts].
  - unfold make_list_node_unordered. rewrite Hits. cbn [bind]. by eexists.
Qed.

(** X23. For [max_depth] from 0 to 6, [TOCGenerator.process_input] does not
    fail on a tree whose text nodes hold valid UTF-8, given a renderer that
    returns valid UTF-8, unless [inject] is set and the root itself is a
    heading.  The data is the rendering of the list of contents, and the
    list of contents is built from the headings of the tree: it holds the
    list items of the forest in which [nest_toc_items] nests the records
    that [set_heading_attributes] returns, one item per record in the
    order of the records, each with the link to the line of the record
    and the slug of its text.  The slug is the one [slugify_str] gives
    where the text is made of ASCII characters; for other texts it depends
    on the Unicode tables of the runtime and is left open.  Without
    [inject] the tree is left as it was, with [inject] it is the tree
    that [set_heading_attributes] leaves, with the list of contents as
    its first child. *)
Theorem toc_generator_returns :
  forall (render_html : cmark_node -> pybytes) (root_node : cmark_node)
         (max_depth : Z) (inject : bool),
    (forall n, is_Some (utf8_decode (render_html n))) ->
    0 <= max_depth <= 6 ->
    valid_texts root_node ->
    (inject = true -> node_get_type root_node <> NODE_HEADING) ->
    exists tree toc data headings tree0 nested forest slug_of,
      TOCGenerator_process_input render_html root_node max_depth inject
      = Ok (Some tree, PyStr data)
      /\ set_heading_attributes inject root_node max_depth
         = Ok (headings, tree0)
      /\ nest_toc_items headings = Ok nested
      /\ read_forest nested = Some forest
      /\ flat_map flatten_item forest = headings
      /\ slug_on_ascii slug_of
      /\ items_nodes slug_of forest make_list_node_unordered = Ok toc
      /\ node_get_type toc = NODE_LIST
      /\ from_c_string (PyBytes (render_html toc)) = Ok (PyStr data)
      /\ if inject
         then exists k line cs,
                tree0 = Some (Node k line cs) /\ tree = Node k line (toc :: cs)
         else tree0 = Some root_node /\ tree = root_node.
Proof.
  intros render_html root_node max_depth inject Hrender Hd Hvalid Hroot.
  unfold TOCGenerator_process_input.
  replace ((max_depth >? 6) || (max_depth <? 0)) with false
    by (symmetry; apply orb_false_iff; lia).
  destruct (attributes_walk_ok inject max_depth root_node Hvalid [])
    as (hl & e & Hwalk & Hhl & _ & Hkeep); [constructor|].
  assert (Hset : set_heading_attributes inject root_node max_depth
                 = Ok (hl, tree_after e)).
  { unfold set_heading_attributes. by rewrite Hwalk. }
  rewrite Hset. cbn [bind].
  destruct (nest_forest hl) as (r & forest & Hnest & Hread & Hflat & Htoc).
  rewrite Hnest. cbn [bind]. rewrite Htoc.
  destruct (items_nodes_ok forest) with
    (k := KList CMARK_BULLET_LIST 1 0) (line := 0) (cs := @nil cmark_node)
    as (its & Hits & _).
  { rewrite <- Hflat in Hhl. clear -Hhl.
    induction forest as [|t ts IH]; [constructor|].
    cbn [flat_map] in Hhl. apply Forall_app in Hhl as [H1 H2].
    constructor; [by apply item_node_ok|by apply IH]. }
  unfold make_list_node_unordered in Hits |- *. rewrite Hits. cbn [bind app].
  cbn [app] in Hits.
  set (toc := Node (KList CMARK_BULLET_LIST 1 0) 0 its) in *.
  destruct (Hrender toc) as [data Hdata].
  assert (Hfrom : from_c_string (PyBytes (render_html toc)) = Ok (PyStr data)).
  { unfold from_c_string. by rewrite Hdata. }
  destruct inject.
  - destruct (Hkeep (Hroot eq_refl)) as [[k line cs] ->].
    cbn [tree_after bind prepend_child]. rewrite Hfrom. cbn [bind].
    exists (Node k line (toc :: cs)), toc, data, hl,
      (tree_after (Keep (Node k line cs))), r, forest, slugify_str.
    split; [done|]. split; [done|]. split; [done|]. split; [done|].
    split; [done|]. split; [done|]. split; [done|]. split; [done|].
    split; [done|]. by exists k, line, cs.
  - pose proof Hset as Hset'.
    rewrite set_heading_attributes_collect in Hset'.
    destruct (for_each _ _ _) as [hl0|]; [|done]. cbn [bind] in Hset'.
    injection Hset' as _ Htree. rewrite <- Htree. cbn [bind].
    rewrite Hfrom. cbn [bind].
    exists root_node, toc, data, hl, (tree_after e), r, forest, slugify_str.
    split; [done|]. split; [by rewrite Htree|]. by repeat split.
Qed.

Lemma toc_generator_returns_witness :
  exists tree toc data headings tree0 nested forest slug_of,
    TOCGenerator_process_input (fun _ => bytes_of "<ul></ul>") doc_two_texts 6
      true
    = Ok (Some tree, PyStr data)
    /\ set_heading_attributes true doc_two_texts 6 = Ok (headings, tree0)
    /\ nest_toc_items headings = Ok nested
    /\ read_forest nested = Some forest
    /\ flat_map flatten_item forest = headings
    /\ slug_on_ascii slug_of
    /\ items_nodes slug_of forest make_list_node_unordered = Ok toc
    /\ node_get_type toc = NODE_LIST
    /\ from_c_string (PyBytes (bytes_of "<ul></ul>")) = Ok (PyStr data)
    /\ exists k line cs,
         tree0 = Some (Node k line cs) /\ tree = Node k line (toc :: cs).
Proof.
  apply (toc_generator_returns (fun _ => bytes_of "<ul></ul>") doc_two_texts 6
           true).
  - intros n. vm_compute. by eexists.
  - lia.
  - unfold valid_texts.
    let l := eval vm_compute in (walk doc_two_texts) in
    change (Forall (fun ev => valid_event ev = true) l).
    repeat constructor.
  - intros _. vm_compute. discriminate.
Defined.

(** ** The metadata extractor on a well-formed front matter *)

Lemma rep_loop_greedy_unfold body (min fuel count : nat) (last : option nat)
  (st : mstate) (k : mstate -> outcome) :
  rep_loop body true min (S fuel) count last st k
  = if (count <? min)%nat
    then body st (fun st1 => rep_loop body true min fuel (S count) last st1 k)
    else if may_iterate last st
         then match body st (fun st1 => rep_loop body true min fuel (S count)
                                          (Some (pos st)) st1 k)
              with
              | NoMatch => k st
              | o => o
              end
         else k st.
Proof. reflexivity. Qed.

Lemma rep_loop_lazy_unfold body (min fuel count : nat) (last : option nat)
  (st : mstate) (k : mstate -> outcome) :
  rep_loop body false min (S fuel) count last st k
  = if (count <? min)%nat
    then body st (fun st1 => rep_loop body false min fuel (S count) last st1 k)
    else match k st with
         | NoMatch =>
           if may_iterate last st
           then body st (fun st1 => rep_loop body false min fuel (S count)
                                      (Some (pos st)) st1 k)
           else NoMatch
         | o => o
         end.
Proof. reflexivity. Qed.

Lemma rep_loop_frame (G : list nat) body (greedy : bool) (min : nat) :
  from_k_frame G body ->
  forall fuel count last,
    from_k_frame G (fun st k => rep_loop body greedy min fuel count last st k).
Proof.
  intros Hbody. induction fuel as [|fuel IH]; intros count last st k m;
    cbn [rep_loop]; [done|].
  assert (Hiter : forall last',
            body st (fun st1 => rep_loop body greedy min fuel (S count) last' st1 k)
            = Matched m ->
            exists st1, k st1 = Matched m
                        /\ forall key, key ∉ G ->
                                       caps st1 !! key = caps st !! key).
  { intros last' (st1 & H1 & Hp1)%Hbody.
    apply IH in H1 as (st2 & H2 & Hp2). exists st2. split; [done|].
    intros key Hkey. by rewrite Hp2, Hp1. }
  destruct (count <? min)%nat; [apply Hiter|].
  destruct greedy.
  - destruct (may_iterate last st).
    + destruct (body st _) as [m'| |] eqn:E; [|by exists st|done].
      intros [= <-]. by apply Hiter in E.
    + by exists st.
  - destruct (k st) as [m'| |] eqn:E; [intros [= <-]; by exists st| |done].
    destruct (may_iterate last st); [apply Hiter|done].
Qed.

Lemma re_match_frame (r : regex) : from_k_frame (groups r) (re_match r).
Proof.
  induction r as [p| |r1 IH1 r2 IH2|greedy min r1 IH1|n r1 IH1];
    intros st k m; cbn [re_match groups].
  - destruct (rest st) as [|c tl] eqn:Hr; [done|].
    destruct (p c); [|done]. intros H. eexists. by split; [exact H|].
  - destruct (at_bol st); [|done]. by exists st.
  - intros (st1 & H1 & Hp1)%IH1. apply IH2 in H1 as (st2 & H2 & Hp2).
    exists st2. split; [done|]. intros key Hkey.
    rewrite Hp2, Hp1; [done|..]; intros Hin; apply Hkey, elem_of_app; auto.
  - apply (rep_loop_frame _ _ _ _ IH1).
  - intros (st1 & H1 & Hp1)%IH1. eexists. split; [exact H1|].
    intros key Hkey. apply not_elem_of_cons in Hkey as [Hne Hkey].
    unfold set_cap. cbn [caps]. rewrite lookup_insert_ne by done.
    by apply Hp1.
Qed.

(** A greedy repetition of a class of characters takes the longest run
    first, and keeps it when the rest of the pattern matches there. *)
Lemma rep_set_first (p : codepoint -> bool) (min : nat)
  (k : mstate -> outcome) :
  forall s i pv cs fuel count last,
    (length s < fuel)%nat ->
    (forall q, last = Some q -> (q < i)%nat) ->
    (min <= count + (pos (skip_while p i pv s cs) - i))%nat ->
    k (skip_while p i pv s cs) <> NoMatch ->
    rep_loop (re_match (RSet p)) true min fuel count last (MState i pv s cs) k
    = k (skip_while p i pv s cs).
Proof.
  assert (Hstop : forall s i pv cs fuel count last,
            (min <= count)%nat ->
            re_match (RSet p) (MState i pv s cs)
              (fun st1 => rep_loop (re_match (RSet p)) true min fuel (S count)
                            (Some i) st1 k) = NoMatch ->
            rep_loop (re_match (RSet p)) true min (S fuel) count last
              (MState i pv s cs) k
            = k (MState i pv s cs)).
  { intros s i pv cs fuel count last Hc Hb. rewrite rep_loop_greedy_unfold.
    replace (count <? min)%nat with false by (symmetry; apply Nat.ltb_ge; lia).
    cbn [pos]. rewrite Hb. by destruct (may_iterate _ _). }
  induction s as [|c tl IH]; intros i pv cs fuel count last Hf Hlast Hmin Hk;
    (destruct fuel as [|fuel]; [cbn in Hf; lia|]); cbn [skip_while] in *.
  - cbn [pos] in Hmin. apply Hstop; [lia|done].
  - destruct (p c) eqn:Hp.
    2:{ cbn [pos] in Hmin. apply Hstop; [lia|]. cbn [re_match rest].
        by rewrite Hp. }
    destruct (skip_while_facts p tl (S i) (Some c) cs) as (_ & Hge & _).
    cbv zeta in Hge.
    rewrite rep_loop_greedy_unfold. cbn [re_match rest pos caps]. rewrite Hp.
    destruct (count <? min)%nat.
    + apply IH; [cbn in Hf; lia| |lia|done].
      intros q Hq. specialize (Hlast q Hq). lia.
    + assert (Hm : may_iterate last (MState i pv (c :: tl) cs) = true).
      { destruct last as [q|]; [|done]. cbn.
        apply negb_true_iff, Nat.eqb_neq. specialize (Hlast q eq_refl). lia. }
      rewrite Hm, IH; [|cbn in Hf; lia| |lia|done].
      * destruct (k _); done.
      * intros q [= <-]. lia.
Qed.

Lemma prev_after_cons (pv : option codepoint) (c : codepoint) (l : pystr) :
  prev_after pv (c :: l) = prev_after (Some c) l.
Proof.
  unfold prev_after. destruct l as [|c' l]; [done|].
  change (list.last (c :: c' :: l)) with (list.last (c' :: l)).
  destruct (list.last (c' :: l)) eqn:Hl; [done|]. by apply last_None in Hl.
Qed.

Lemma skip_while_app (p : codepoint -> bool) (l r : pystr) :
  Forall (fun c => p c = true) l ->
  (forall c, head r = Some c -> p c = false) ->
  forall i pv cs,
    skip_while p i pv (l ++ r) cs
    = MState (i + length l) (prev_after pv l) r cs.
Proof.
  intros Hl Hr. induction Hl as [|c l Hc _ IH]; intros i pv cs.
  - cbn [app length]. rewrite Nat.add_0_r. unfold prev_after. cbn.
    destruct r as [|c r]; [done|]. cbn [skip_while].
    by rewrite (Hr c eq_refl).
  - cbn [app skip_while length]. rewrite Hc, IH, prev_after_cons.
    f_equal. lia.
Qed.

Lemma cr_or_lf_space (c : codepoint) : is_space c = false -> cr_or_lf c = false.
Proof.
  unfold cr_or_lf, is_space, CR, LF. intros H.
  destruct (N.eqb_spec c 13) as [->|]; [done|].
  destruct (N.eqb_spec c 10) as [->|]; done.
Qed.

(** One iteration of group 3 on a line that is followed by a character
    other than white space: the line and its line feed. *)
Lemma group3_line (k : mstate -> outcome) (l : pystr) (c : codepoint)
  (r : pystr) (i : nat) (pv : option codepoint) (cs : gmap nat (nat * nat)) :
  LF ∉ l -> is_space c = false ->
  k (set_cap 3 (i, S (i + length l))
       (MState (S (i + length l)) (Some LF) (c :: r) cs)) <> NoMatch ->
  re_match group3 (MState i pv (l ++ LF :: c :: r) cs) k
  = k (set_cap 3 (i, S (i + length l))
         (MState (S (i + length l)) (Some LF) (c :: r) cs)).
Proof.
  intros Hl Hc Hk.
  assert (Hcr : cr_or_lf c = false) by (by apply cr_or_lf_space).
  set (kc := fun s3 : mstate => k (set_cap 3 (i, pos s3) s3)).
  set (ka := fun s1 : mstate =>
               re_match (star (RSet is_space)) s1
                 (fun s2 => re_match (RSet cr_or_lf) s2 kc)).
  change (re_match group3 (MState i pv (l ++ LF :: c :: r) cs) k)
    with (rep_loop (re_match (RSet dot)) true 0
            (0 + 2 * S (length (l ++ LF :: c :: r))) O None
            (MState i pv (l ++ LF :: c :: r) cs) ka).
  assert (Hskip : skip_while dot i pv (l ++ LF :: c :: r) cs
                  = MState (i + length l) (prev_after pv l) (LF :: c :: r) cs).
  { apply skip_while_app.
    - apply Forall_forall. intros x Hx. unfold dot.
      apply negb_true_iff, N.eqb_neq. by intros ->.
    - by intros x [= <-]. }
  assert (Hka : ka (MState (i + length l) (prev_after pv l) (LF :: c :: r) cs)
                = k (set_cap 3 (i, S (i + length l))
                       (MState (S (i + length l)) (Some LF) (c :: r) cs))).
  { unfold ka, star. cbn [re_match rest length].
    replace (0 + 2 * S (S (S (length r))))%nat
      with (S (S (2 * length r + 4))) by lia.
    rewrite rep_loop_greedy_unfold. cbn [Nat.ltb Nat.leb may_iterate].
    change (0 <? 0)%nat with false. cbv iota.
    cbn [re_match rest pos caps].
    change (is_space LF) with true. cbv iota.
    rewrite rep_loop_greedy_unfold. change (1 <? 0)%nat with false. cbv iota.
    assert (Hm : may_iterate (Some (i + length l)%nat)
                   (MState (S (i + length l)) (Some LF) (c :: r) cs) = true).
    { unfold may_iterate. cbn [pos].
      apply negb_true_iff, Nat.eqb_neq. lia. }
    rewrite Hm. cbn [re_match rest]. rewrite Hc, Hcr.
    change (cr_or_lf LF) with true. cbv iota. reflexivity. }
  rewrite rep_set_first; rewrite ?Hskip, ?Hka; try done.
  - rewrite length_app. cbn [length]. lia.
  - lia.
Qed.

(** Three dashes or more and the line feed after them. *)
Lemma dashes_line_match (k : mstate -> outcome) (n : nat) (r : pystr)
  (i : nat) (pv : option codepoint) (cs : gmap nat (nat * nat)) :
  (3 <= n)%nat ->
  k (MState (S (i + n)) (Some LF) r cs) <> NoMatch ->
  re_match dashes_line (MState i pv (replicate n DASH ++ LF :: r) cs) k
  = k (MState (S (i + n)) (Some LF) r cs).
Proof.
  intros Hn Hk.
  set (kd := fun e : mstate => re_match (RSet cr_or_lf) e k).
  change (re_match dashes_line (MState i pv (replicate n DASH ++ LF :: r) cs) k)
    with (rep_loop (re_match (RSet (is_char DASH))) true 3
            (3 + 2 * S (length (replicate n DASH ++ LF :: r))) O None
            (MState i pv (replicate n DASH ++ LF :: r) cs) kd).
  assert (Hskip : skip_while (is_char DASH) i pv (replicate n DASH ++ LF :: r) cs
                  = MState (i + n) (prev_after pv (replicate n DASH))
                      (LF :: r) cs).
  { rewrite skip_while_app; [by rewrite length_replicate| |].
    - apply Forall_forall. intros x [-> _]%elem_of_replicate. reflexivity.
    - by intros x [= <-]. }
  assert (Hkd : kd (MState (i + n) (prev_after pv (replicate n DASH))
                      (LF :: r) cs)
                = k (MState (S (i + n)) (Some LF) r cs)) by reflexivity.
  rewrite rep_set_first; rewrite ?Hskip, ?Hkd; try done.
  - lia.
  - cbn [pos]. lia.
Qed.

(** A line that does not begin with a dash is not the closing delimiter. *)
Lemma closing_no_match (k : mstate -> outcome) (st : mstate) (c : codepoint)
  (r : pystr) :
  rest st = c :: r -> c <> DASH -> re_match closing st k = NoMatch.
Proof.
  intros Hr Hc. unfold closing, dashes_line, dashes. cbn [re_match].
  destruct (at_bol st); [|done].
  change (3 + 2 * S (length (rest st)))%nat
    with (S (2 + 2 * S (length (rest st)))).
  rewrite rep_loop_greedy_unfold. change (0 <? 3)%nat with true. cbv iota.
  cbn [re_match]. rewrite Hr. unfold is_char.
  by rewrite (proj2 (N.eqb_neq c DASH)).
Qed.

Lemma front_matter_next (lines : list pystr) (c0 : codepoint) (tl0 : pystr) :
  Forall line_ok lines -> is_space c0 = false ->
  exists c r, front_matter lines ++ c0 :: tl0 = c :: r /\ is_space c = false.
Proof.
  intros Hl Hc0. destruct Hl as [|l ls (_ & c & l' & -> & _ & Hc) _].
  - by exists c0, tl0.
  - exists c. eexists. split; [|exact Hc]. unfold front_matter.
    cbn [map concat app]. reflexivity.
Qed.

(** The lazy repetition of group 3 goes over the lines one by one, asking
    after each whether the rest of the pattern matches, and stops at the
    first line where it does. *)
Lemma lines_loop (K : mstate -> outcome) (c0 : codepoint) (tl0 : pystr)
  (pend : nat) :
  is_space c0 = false ->
  (forall s c r, rest s = c :: r -> c <> DASH -> K s = NoMatch) ->
  (forall cs', K (MState pend (Some LF) (c0 :: tl0) cs') <> NoMatch) ->
  forall lines,
    Forall line_ok lines ->
    forall fuel count last i cs,
      (length lines < fuel)%nat ->
      (forall q, last = Some q -> (q < i)%nat) ->
      (count = O -> lines <> []) ->
      pend = (i + length (front_matter lines))%nat ->
      exists cs',
        rep_loop (re_match group3) false 1 fuel count last
          (MState i (Some LF) (front_matter lines ++ c0 :: tl0) cs) K
        = K (MState pend (Some LF) (c0 :: tl0) cs')
        /\ forall key, key <> 3%nat -> cs' !! key = cs !! key.
Proof.
  intros Hc0 Hmid Hend. induction 1 as [|l ls Hl Hls IH];
    intros fuel count last i cs Hf Hlast Hcount Hpend;
    (destruct fuel as [|fuel]; [cbn in Hf; lia|]);
    rewrite rep_loop_lazy_unfold.
  - assert (count <> O) by (intros ->; by apply Hcount).
    replace (count <? 1)%nat with false by (symmetry; apply Nat.ltb_ge; lia).
    cbn [front_matter map concat app length] in *.
    rewrite Nat.add_0_r in Hpend. subst pend. exists cs. split; [|done].
    specialize (Hend cs). by destruct (K _).
  - destruct Hl as (Hlf & c & l' & Hl & Hdash & Hsp).
    destruct (front_matter_next ls c0 tl0 Hls Hc0) as (c1 & r1 & Hnext & Hc1).
    assert (Hrest : front_matter (l :: ls) ++ c0 :: tl0
                    = l ++ LF :: c1 :: r1).
    { unfold front_matter. cbn [map concat]. rewrite <- !app_assoc.
      cbn [app]. f_equal. f_equal. exact Hnext. }
    assert (Hlen : length (front_matter (l :: ls))
                   = S (length l + length (front_matter ls))).
    { unfold front_matter. cbn [map concat]. rewrite !length_app.
      cbn [length]. lia. }
    rewrite Hrest.
    assert (Hbody : forall cnt' last',
              (forall q, last' = Some q -> (q < S (i + length l))%nat) ->
              exists cs',
                re_match group3 (MState i (Some LF) (l ++ LF :: c1 :: r1) cs)
                  (fun st1 => rep_loop (re_match group3) false 1 fuel (S cnt')
                                last' st1 K)
                = K (MState pend (Some LF) (c0 :: tl0) cs')
                /\ forall key, key <> 3%nat -> cs' !! key = cs !! key).
    { intros cnt' last' Hlast'.
      destruct (IH fuel (S cnt') last' (S (i + length l))
                  (<[3%nat := (i, S (i + length l))]> cs))
        as (cs' & Hrun & Hframe); [cbn in Hf; lia|done|done|lia|].
      rewrite Hnext in Hrun.
      exists cs'. split.
      - rewrite group3_line; [exact Hrun|done|done|].
        unfold set_cap. cbn [pos prev rest caps]. rewrite Hrun. apply Hend.
      - intros key Hkey. rewrite Hframe by done.
        by rewrite lookup_insert_ne. }
    destruct (count <? 1)%nat.
    + apply Hbody. intros q Hq. specialize (Hlast q Hq). lia.
    + rewrite (Hmid _ c (l' ++ LF :: c1 :: r1)); [|by rewrite Hl|done].
      assert (Hm : may_iterate last
                     (MState i (Some LF) (l ++ LF :: c1 :: r1) cs) = true).
      { destruct last as [q|]; [|done]. unfold may_iterate. cbn [pos].
        apply negb_true_iff, Nat.eqb_neq. specialize (Hlast q eq_refl). lia. }
      rewrite Hm. cbn [pos]. apply Hbody. intros q [= <-]. lia.
Qed.

(** Group 4 from the beginning of the body: it runs to the end of the text
    and leaves the other groups as they are. *)
Lemma group4_body (i : nat) (pv : option codepoint) (body : pystr)
  (cs : gmap nat (nat * nat)) :
  exists m,
    re_match group4 (MState i pv body cs) Matched = Matched m
    /\ caps m !! 4%nat = Some (i, (i + length body)%nat)
    /\ forall key, key <> 4%nat -> key <> 5%nat -> caps m !! key = cs !! key.
Proof.
  set (st := MState i pv body cs).
  destruct (group4_to_end
              (fun st2 => Matched (set_cap 4 (pos st, pos st2) st2))
              ltac:(done) (1 + 2 * S (length (rest st)))%nat O None st)
    as (st' & Hrun & Hr & Hp); [cbn; lia|done|lia|].
  change (rep_loop (re_match group5) true 1 (1 + 2 * S (length (rest st))) 0
            None st (fun st2 => Matched (set_cap 4 (pos st, pos st2) st2)))
    with (re_match group4 st Matched) in Hrun.
  eexists. split; [exact Hrun|]. split.
  - unfold set_cap. cbn [caps]. rewrite lookup_insert_eq. by rewrite Hp.
  - intros key H4 H5.
    destruct (re_match_frame group4 st Matched _ Hrun) as (st1 & [= ->] & Hf).
    refine (Hf key _). cbn. intros Hin.
    repeat (apply elem_of_cons in Hin as [->|Hin]; [done|]).
    by apply elem_of_nil in Hin.
Qed.

Lemma search_from_hit (r : regex) (s : pystr) (i : nat)
  (pv : option codepoint) (m : mstate) :
  re_match r (MState i pv s ∅) Matched = Matched m ->
  search_from r i pv s = Matched m.
Proof. intros H. destruct s; cbn [search_from]; by rewrite H. Qed.

Lemma length_front_matter (lines : list pystr) :
  (length lines <= length (front_matter lines))%nat.
Proof.
  unfold front_matter. induction lines as [|l ls IH]; [done|].
  cbn [map concat length]. rewrite !length_app. cbn [length]. lia.
Qed.

Lemma slice_middle (before mid after : pystr) (p : nat) :
  length before = p ->
  slice (before ++ mid ++ after) p (p + length mid) = mid.
Proof.
  intros <-. unfold slice. rewrite drop_app_length.
  replace (length before + length mid - length before)%nat
    with (length mid) by lia.
  by rewrite take_app_length.
Qed.

(** On a text that begins with a well-formed front matter the pattern
    matches at the beginning; group 2 is the lines between the delimiters
    and group 4 the text behind the closing delimiter. *)
Lemma front_matter_match (n1 n2 : nat) (lines : list pystr) (body : pystr) :
  (3 <= n1)%nat -> (3 <= n2)%nat -> lines <> [] -> Forall line_ok lines ->
  let meta := front_matter lines in
  let text := replicate n1 DASH ++ [LF] ++ meta
              ++ replicate n2 DASH ++ [LF] ++ body in
  exists m,
    re_search patern text = Matched m
    /\ group text m 2 = PyStr meta
    /\ group text m 4 = PyStr body.
Proof.
  intros Hn1 Hn2 Hne Hlines meta text.
  set (p2 := S (0 + n1)). set (p3 := (p2 + length meta)%nat).
  set (p5 := S (p3 + n2)).
  set (tail := replicate n2 DASH ++ LF :: body).
  set (st0 := MState 0 None text ∅).
  set (kE := fun s1 : mstate =>
               re_match group4 (set_cap 1 (pos st0, pos s1) s1) Matched).
  set (kC := fun c : mstate => re_match closing c kE).
  set (K := fun b : mstate =>
              fun st1 : mstate => kC (set_cap 2 (pos b, pos st1) st1)).
  set (kB := fun b : mstate =>
               rep_loop (re_match group3) false 1
                 (1 + 2 * S (length (rest b))) O None b (K b)).
  assert (Hpat : re_match patern st0 Matched = re_match dashes_line st0 kB)
    by reflexivity.
  (* the end of the pattern, from the body on *)
  assert (HE : forall cs,
            exists m,
              kE (MState p5 (Some LF) body cs) = Matched m
              /\ caps m !! 4%nat = Some (p5, (p5 + length body)%nat)
              /\ caps m !! 2%nat = cs !! 2%nat).
  { intros cs. unfold kE, set_cap. cbn [pos prev rest caps].
    destruct (group4_body p5 (Some LF) body (<[1%nat := (0%nat, p5)]> cs))
      as (m & Hm & H4 & Hframe).
    exists m. split; [exact Hm|]. split; [exact H4|].
    rewrite Hframe by done. by rewrite lookup_insert_ne. }
  (* the closing delimiter *)
  assert (HC : forall cs,
            kC (MState p3 (Some LF) tail cs)
            = kE (MState p5 (Some LF) body cs)).
  { intros cs. unfold kC, tail.
    change (re_match closing
              (MState p3 (Some LF) (replicate n2 DASH ++ LF :: body) cs) kE)
      with (re_match dashes_line
              (MState p3 (Some LF) (replicate n2 DASH ++ LF :: body) cs) kE).
    apply dashes_line_match; [done|].
    destruct (HE cs) as (m & Hm & _). fold p5. by rewrite Hm. }
  (* the lines *)
  set (b := MState p2 (Some LF) (meta ++ tail) ∅).
  assert (HB : exists m,
            kB b = Matched m
            /\ caps m !! 4%nat = Some (p5, (p5 + length body)%nat)
            /\ caps m !! 2%nat = Some (p2, p3)).
  { assert (Htail : exists tl0, tail = DASH :: tl0).
    { unfold tail. destruct n2 as [|n2']; [lia|]. by eexists. }
    destruct Htail as (tl0 & Htail).
    assert (HKend : forall cs',
              exists m,
                K b (MState p3 (Some LF) tail cs') = Matched m
                /\ caps m !! 4%nat = Some (p5, (p5 + length body)%nat)
                /\ caps m !! 2%nat = Some (p2, p3)).
    { intros cs'. unfold K, set_cap. cbn [pos prev rest caps]. rewrite HC.
      destruct (HE (<[2%nat := (p2, p3)]> cs')) as (m & Hm & H4 & H2).
      exists m. split; [exact Hm|]. split; [exact H4|].
      by rewrite H2, lookup_insert_eq. }
    destruct (lines_loop (K b) DASH tl0 p3) with
      (lines := lines) (fuel := (1 + 2 * S (length (rest b)))%nat)
      (count := O) (last := @None nat) (i := p2)
      (cs := (∅ : gmap nat (nat * nat)))
      as (cs' & Hrun & _); try done.
    - intros s c r Hr Hc. unfold K, kC.
      by apply (closing_no_match kE _ c r).
    - intros cs'. rewrite <- Htail.
      destruct (HKend cs') as (m & -> & _). done.
    - pose proof (length_front_matter lines). unfold b. cbn [rest].
      rewrite length_app. fold meta in H. lia.
    - unfold kB. fold meta in Hrun. rewrite <- Htail in Hrun.
      fold b in Hrun. rewrite Hrun. apply HKend. }
  destruct HB as (m & HmB & H4 & H2).
  (* the opening delimiter *)
  assert (Hm : re_match patern st0 Matched = Matched m).
  { rewrite Hpat. unfold st0, text.
    change (replicate n1 DASH ++ [LF] ++ meta ++ replicate n2 DASH
            ++ [LF] ++ body)
      with (replicate n1 DASH ++ LF :: (meta ++ tail)).
    rewrite dashes_line_match; [exact HmB|done|].
    fold p2. fold b. by rewrite HmB. }
  exists m. split; [by apply search_from_hit|].
  unfold group. rewrite H2, H4.
  assert (Hl1 : length (replicate n1 DASH ++ [LF]) = p2).
  { rewrite length_app, length_replicate. cbn. lia. }
  split; f_equal.
  - assert (Ht : text = (replicate n1 DASH ++ [LF])
                        ++ meta ++ (replicate n2 DASH ++ [LF] ++ body)).
    { unfold text. by rewrite <- app_assoc. }
    rewrite Ht. unfold p3. by apply slice_middle.
  - assert (Ht : text = (replicate n1 DASH ++ [LF] ++ meta
                         ++ replicate n2 DASH ++ [LF]) ++ body ++ []).
    { unfold text. rewrite app_nil_r, <- !app_assoc. reflexivity. }
    rewrite Ht. apply slice_middle.
    rewrite !length_app, !length_replicate. cbn [length]. unfold p5, p3, p2.
    lia.
Qed.

(** X24. On a text that begins with three dashes or more, a line feed,
    one or more lines that hold no line feed and begin with a character
    that is neither white space nor a dash, and again three dashes or more
    and a line feed, the loader receives exactly these lines, line feeds
    included, and the text returned is what follows the closing delimiter;
    when nothing follows, the text given is returned whole. *)
Theorem front_matter_extracted :
  forall (D : Type) (loader : pyval -> result D) (n1 n2 : nat)
         (lines : list pystr) (body : pystr),
    (3 <= n1)%nat -> (3 <= n2)%nat -> lines <> [] -> Forall line_ok lines ->
    let meta := front_matter lines in
    let text := replicate n1 DASH ++ [LF] ++ meta
                ++ replicate n2 DASH ++ [LF] ++ body in
    ExtractMetadata_process_input loader text
    = (do data <- loader (PyStr meta); Ok (data, PyStr body))
    /\ Processor_call (ExtractMetadata_process_input loader) text
       = (do data <- loader (PyStr meta);
          Ok (if decide (body = []) then PyStr text else PyStr body, data)).
Proof.
  intros D loader n1 n2 lines body Hn1 Hn2 Hne Hlines meta text.
  destruct (front_matter_match n1 n2 lines body Hn1 Hn2 Hne Hlines)
    as (m & Hs & H2 & H4).
  fold meta in Hs, H2, H4. fold text in Hs, H2, H4.
  assert (Hp : ExtractMetadata_process_input loader text
               = (do data <- loader (PyStr meta); Ok (data, PyStr body))).
  { unfold ExtractMetadata_process_input. by rewrite Hs, H2, H4. }
  split; [exact Hp|]. unfold Processor_call. rewrite Hp.
  destruct (loader (PyStr meta)) as [data|]; [|done]. cbn [bind].
  unfold or_doc, truthy. by destruct (decide (body = [])) as [->|Hb];
    [|rewrite bool_decide_eq_false_2 by done].
Qed.

Lemma front_matter_extracted_witness :
  ExtractMetadata_call (nl "---" ++ nl "foo: bar" ++ nl "---" ++ nl "body")
  = (do data <- default_loader (PyStr (nl "foo: bar"));
     Ok (PyStr (nl "body"), data)).
Proof.
  assert (Hl : Forall line_ok [str "foo: bar"]).
  { constructor; [|constructor]. split.
    - vm_compute. intros Hin.
      repeat (apply elem_of_cons in Hin as [Hin|Hin]; [discriminate Hin|]).
      by apply elem_of_nil in Hin.
    - eexists _, _. split; [reflexivity|]. split; [done|reflexivity]. }
  exact (proj2 (front_matter_extracted _ default_loader 3 3 [str "foo: bar"]
                  (nl "body") ltac:(lia) ltac:(lia) ltac:(done) Hl)).
Defined.
